(** * chezmoi: the configuration layer (cmd/config.go), the TAR system and
      the source-name codec, embedded in Rocq.

    Go strings hold UTF-8.  [strings.ToLower], the conversion [[]rune(s)]
    and the regexp engine all work rune by rune, and a prefix test on bytes
    agrees with the prefix test on runes for well-formed UTF-8, so a Go
    string is modelled by its sequence of code points. *)

From Stdlib Require Import ZArith List Ascii String Lia Bool.
From stdpp Require Import gmap strings list.

Local Open Scope Z_scope.
Local Set Warnings "-register-all".
Local Set Warnings "-notation-for-abbreviation".

(** ** Text *)

Definition rune : Type := Z.
Abbreviation text := (list rune).

Definition runeOfAscii (a : ascii) : rune := Z.of_N (N_of_ascii a).

(** [T "abc"] is the Go string literal ["abc"]. *)
Fixpoint T (s : string) : text :=
  match s with
  | EmptyString => []
  | String a s' => runeOfAscii a :: T s'
  end.

Definition underscore : rune := 95.

(** [strings.Split(s, sep)] for a separator of one rune: the fields between
    the separators, in order; the empty string gives one empty field. *)
Fixpoint Split (s : text) (sep : rune) : list text :=
  match s with
  | [] => [[]]
  | r :: rest =>
      if Z.eqb r sep then [] :: Split rest sep
      else match Split rest sep with
           | w :: ws => (r :: w) :: ws
           | [] => [[r]]
           end
  end.

(** [strings.Join(words, sep)]. *)
Fixpoint Join (words : list text) (sep : text) : text :=
  match words with
  | [] => []
  | [w] => w
  | w :: ws => w ++ sep ++ Join ws sep
  end.

(** ** Case conversion (cmd/config.go, lines 122-127 and 571-614) *)

Definition wellKnownAbbreviations : gset text :=
  {[ T "ANSI"; T "CPE"; T "ID"; T "URL" ]}.

(** isWellKnownAbbreviation returns true if word is a well known
    abbreviation. *)
Definition isWellKnownAbbreviation (word : text) : bool :=
  bool_decide (word ∈ wellKnownAbbreviations).

Section CaseConversion.

(** The case tables of Go's package [unicode]. *)
Variable unicodeToLower : rune -> rune.
Variable unicodeToTitle : rune -> rune.

(** [strings.ToLower]. *)
Definition ToLower (s : text) : text := map unicodeToLower s.

(** titilize returns s, titilized. *)
Definition titilize (s : text) : text :=
  match s with
  | [] => s
  | r :: runes => unicodeToTitle r :: runes
  end.

(** One iteration of the loop body of upperSnakeCaseToCamelCase, at index
    [i] with [word = words[i]]. *)
Definition camelStep (i : nat) (word : text) (words : list text) : list text :=
  if Nat.eqb i 0 then <[i := ToLower word]> words
  else if negb (isWellKnownAbbreviation word)
       then <[i := titilize (ToLower word)]> words
       else words.

(** [for i, word := range words { ... }]: [n] iterations remain, the next
    index is [i]; each iteration reads [words[i]] from the slice as the
    earlier iterations left it. *)
Fixpoint camelRange (n i : nat) (words : list text) : list text :=
  match n with
  | O => words
  | S n' =>
      match words !! i with
      | Some word => camelRange n' (S i) (camelStep i word words)
      | None => words
      end
  end.

(** upperSnakeCaseToCamelCase converts a string in UPPER_SNAKE_CASE to
    camelCase. *)
Definition upperSnakeCaseToCamelCase (s : text) : text :=
  let words := Split s underscore in
  Join (camelRange (length words) 0%nat words) [].

(** upperSnakeCaseToCamelCaseMap returns m with all keys converted.  The
    order in which [range m] visits a Go map is unspecified: [visit] is
    the order of one run. *)
Definition upperSnakeCaseToCamelCaseMapIn (visit : list (text * text))
  : gmap text text :=
  foldl (fun result kv => <[upperSnakeCaseToCamelCase kv.1 := kv.2]> result)
        ∅ visit.

(** The conversion word by word: what becomes of a word after the first,
    and of the list of words. *)
Definition laterWord (word : text) : text :=
  if isWellKnownAbbreviation word then word else titilize (ToLower word).

Definition camelCaseOfWords (words : list text) : text :=
  match words with
  | [] => []
  | first :: later => ToLower first ++ concat (map laterWord later)
  end.

End CaseConversion.

(** ASCII range of the case tables, for running examples. *)
Definition asciiToLower (r : rune) : rune :=
  if (65 <=? r) && (r <=? 90) then r + 32 else r.
Definition asciiToUpper (r : rune) : rune :=
  if (97 <=? r) && (r <=? 122) then r - 32 else r.

(** ** Errors *)

(** [semver.Version] of github.com/coreos/go-semver. *)
Record semver := {
  Major : Z;
  Minor : Z;
  Patch : Z;
  PreRelease : text;
  Metadata : text;
}.

(** The error values the modelled code creates or passes on.  An error made
    by [fmt.Errorf] is kept as its format and arguments. *)
Inductive error :=
| ErrPermission                                  (* os.ErrPermission *)
| ErrNotExist                                    (* satisfies os.IsNotExist *)
| ErrInvalidKey (key : text)                     (* "invalid key: %q" *)
| ErrVersionTooOld (running required : semver)   (* "chezmoi version %s too old, ..." *)
| ErrNotInSourceState (arg : text)               (* "%s: not in source state" *)
| ErrDatabaseReadOnly                            (* a write to a read-only store *)
| ErrEntriesFailed (targets : list text)         (* batch apply: the entries that failed *)
| ErrOther (msg : text).                         (* any error of a collaborator *)

(** Go's pair [(value, error)]. *)
Inductive result (A : Type) :=
| Ok (a : A)
| Err (err : error).
Arguments Ok {A} a.
Arguments Err {A} err.

(** ** Template data *)

(** Dynamic types that validateKeys does not look into. *)
Inductive scalar :=
| SNil
| SBool (b : bool)
| SInt (n : Z)
| SString (s : text)
| SStringMap (m : gmap text text).               (* map[string]string *)

(** A value of static type [interface{}].  [VMap] is a
    [map[string]interface{}], given by its entries in the order in which
    [range] visits them; [VSlice] is a [[]interface{}]; [VOther] is a value
    of any other dynamic type. *)
Inductive value :=
| VMap (entries : list (text * value))
| VSlice (elems : list value)
| VOther (s : scalar).

(** validateKeys ensures that all keys in data match re. *)
Fixpoint validateKeys (data : value) (re : text -> bool) : option error :=
  match data with
  | VMap entries =>
      (fix rangeEntries (entries : list (text * value)) : option error :=
         match entries with
         | [] => None
         | (key, value) :: entries' =>
             if negb (re key) then Some (ErrInvalidKey key)
             else match validateKeys value re with
                  | Some err => Some err
                  | None => rangeEntries entries'
                  end
         end) entries
  | VSlice elems =>
      (fix rangeElems (elems : list value) : option error :=
         match elems with
         | [] => None
         | value :: elems' =>
             match validateKeys value re with
             | Some err => Some err
             | None => rangeElems elems'
             end
         end) elems
  | VOther _ => None
  end.

Section IdentifierRegexp.

(** The Unicode categories [\pL] and [\p{Nd}]. *)
Variable isLetter : rune -> bool.
Variable isDecimalDigit : rune -> bool.

(** identifierRegexp = [\A[\pL_][\pL\p{Nd}_]*\z], as the predicate
    [identifierRegexp.MatchString]. *)
Definition identifierRegexp (s : text) : bool :=
  match s with
  | [] => false
  | r :: rs =>
      (isLetter r || Z.eqb r underscore)
      && forallb (fun r => isLetter r || isDecimalDigit r || Z.eqb r underscore) rs
  end.

End IdentifierRegexp.

(** The keys of the maps that the recursion of validateKeys reaches, in the
    order it reaches them. *)
Fixpoint reachedKeys (data : value) : list text :=
  match data with
  | VMap entries =>
      flat_map (fun '(key, value) => key :: reachedKeys value) entries
  | VSlice elems => flat_map reachedKeys elems
  | VOther _ => []
  end.

(** ASCII range of the two categories, for running examples. *)
Definition asciiIsLetter (r : rune) : bool :=
  ((65 <=? r) && (r <=? 90)) || ((97 <=? r) && (r <=? 122)).
Definition asciiIsDigit (r : rune) : bool := (48 <=? r) && (r <=? 57).

(** ** File systems and mutators *)

(** A [vfs.FS] of github.com/twpayne/go-vfs, by the way it was built. *)
Inductive FS :=
| OSFS                                   (* vfs.OSFS *)
| PathFS (fs : FS) (path : text)         (* vfs.NewPathFS(fs, path) *)
| NewReadOnlyFS (fs : FS).               (* vfs.NewReadOnlyFS(fs) *)

(** Whether a mutating method of the handle can change a file: those of a
    [ReadOnlyFS] return a permission error. *)
Fixpoint capableOfMutation (fs : FS) : bool :=
  match fs with
  | OSFS => true
  | PathFS fs _ => capableOfMutation fs
  | NewReadOnlyFS _ => false
  end.

(** A [chezmoi.Mutator]; the configuration only passes it on. *)
Inductive Mutator := MutatorHandle (id : N).

(** ** Ignore matcher *)

Definition slash : rune := 47.
Definition star : rune := 42.
Definition question : rune := 63.

(** Modelled from the spec: the glob matcher of the Ignore Matcher (package
    internal/chezmoi, not among the sources).  The spec names no glob
    dialect; [*] matches any run of runes other than the separator, [?] one
    such rune, any other rune itself. *)
Fixpoint globMatch (pattern path : text) : bool :=
  match pattern with
  | [] => match path with [] => true | _ => false end
  | c :: pattern' =>
      if Z.eqb c star then
        (fix run (path : text) : bool :=
           globMatch pattern' path
           || match path with
              | r :: path' => negb (Z.eqb r slash) && run path'
              | [] => false
              end) path
      else
        match path with
        | [] => false
        | r :: path' =>
            (if Z.eqb c question then negb (Z.eqb r slash) else Z.eqb r c)
            && globMatch pattern' path'
        end
  end.

(** Modelled from the spec: the Ignore Matcher (spec 4.4), "an ordered list
    of (pattern, negated) pairs". *)
Record PatternSet := {
  patterns : list (text * bool);
}.

(** One line of the ignore-pattern file (spec 6): an optional leading [!]
    negates the pattern. *)
Definition parsePatternLine (line : text) : text * bool :=
  match line with
  | r :: rest => if Z.eqb r 33 then (rest, true) else (line, false)
  | [] => (line, false)
  end.

(** Modelled from the spec: [Match(path)] walks the pairs in file order and
    keeps the outcome of the latest pattern that matches; "not ignored" when
    none does. *)
Definition Match (ps : PatternSet) (path : text) : bool :=
  foldl (fun ignored '(pattern, negated) =>
           if globMatch pattern path then negb negated else ignored)
        false (patterns ps).

(** ** Persistent state *)

Module bolt.
(** [bolt.Options] of go.etcd.io/bbolt. *)
Record Options := {
  Timeout : Z;
  NoGrowSync : bool;
  NoFreelistSync : bool;
  ReadOnly : bool;
  MmapFlags : Z;
  InitialMmapSize : Z;
  PageSize : Z;
  NoSync : bool;
}.
End bolt.
Import bolt.

(** [&bolt.Options{}]. *)
Definition emptyOptions : bolt.Options :=
  {| Timeout := 0; NoGrowSync := false; NoFreelistSync := false;
     ReadOnly := false; MmapFlags := 0; InitialMmapSize := 0; PageSize := 0;
     NoSync := false |}.

(** [options.ReadOnly = true]. *)
Definition setReadOnly (options : bolt.Options) : bolt.Options :=
  {| Timeout := Timeout options; NoGrowSync := NoGrowSync options;
     NoFreelistSync := NoFreelistSync options; ReadOnly := true;
     MmapFlags := MmapFlags options; InitialMmapSize := InitialMmapSize options;
     PageSize := PageSize options; NoSync := NoSync options |}.

(** Modelled from the spec: the Persistent Idempotency Store (spec 4.6,
    [chezmoi.BoltPersistentState], not among the sources): a key-value file
    of buckets, opened with the options it was given. *)
Record BoltPersistentState := {
  boltFS : FS;
  boltPath : text;
  boltPerm : Z;
  boltOptions : option bolt.Options;
  boltDB : gmap (text * text) text;
}.

Definition boltReadOnly (s : BoltPersistentState) : bool :=
  match boltOptions s with
  | Some options => ReadOnly options
  | None => false
  end.

Definition boltWithDB (s : BoltPersistentState) (db : gmap (text * text) text)
  : BoltPersistentState :=
  {| boltFS := boltFS s; boltPath := boltPath s; boltPerm := boltPerm s;
     boltOptions := boltOptions s; boltDB := db |}.

(** Modelled from the spec: [Get(bucket, key) -> (value, found)]. *)
Definition boltGet (s : BoltPersistentState) (bucket key : text) : option text :=
  boltDB s !! (bucket, key).

(** Modelled from the spec: [Set(bucket, key, value) -> error]; on a store
    opened read-only the write "must fail loudly rather than silently
    succeed". *)
Definition boltSet (s : BoltPersistentState) (bucket key value : text)
  : option error * BoltPersistentState :=
  if boltReadOnly s then (Some ErrDatabaseReadOnly, s)
  else (None, boltWithDB s (<[(bucket, key) := value]> (boltDB s))).

(** Modelled from the spec: [Delete(bucket, key) -> error]. *)
Definition boltDelete (s : BoltPersistentState) (bucket key : text)
  : option error * BoltPersistentState :=
  if boltReadOnly s then (Some ErrDatabaseReadOnly, s)
  else (None, boltWithDB s (delete (bucket, key) (boltDB s))).

(** ** Target state *)

Inductive EntryKind := KDir | KFile | KScript | KSymlink.

(** A [chezmoi.Entry]: the configuration looks entries up and applies
    them, nothing more. *)
Record Entry := {
  TargetPath : text;
  Kind : EntryKind;
}.

Module chezmoi.
(** [chezmoi.GPG], the fields the configuration sets. *)
Record GPG := {
  Command : text;
  Recipient : text;
}.
End chezmoi.

Inductive templateFunc := TemplateFunc (id : N).
Inductive PopulateOptions := PopulateOptionsValue (id : N).
Inductive Writer := WriterHandle (id : N).

Module TargetState.
(** [chezmoi.TargetState] (spec 3). *)
Record t := {
  DestDir : text;
  Entries : list Entry;
  GPG : chezmoi.GPG;
  MinVersion : option semver;
  SourceDir : text;
  TargetIgnore : PatternSet;
  TemplateData : gmap text value;
  TemplateFuncs : option (gmap text templateFunc);
  TemplateOptions : list text;
  Umask : Z;
}.
End TargetState.

Module ApplyOptions.
(** [chezmoi.ApplyOptions], the fields applyArgs sets. *)
Record t := {
  DestDir : text;
  DryRun : bool;
  Ignore : text -> bool;
  PersistentState : BoltPersistentState;
  Remove : bool;
  ScriptStateBucket : text;
  Stdout : Writer;
  Umask : Z;
  Verbose : bool;
}.
End ApplyOptions.

(** ** Config *)

Record templateConfig := {
  Options : list text;
}.

(** [xdg.BaseDirectorySpecification]. *)
Record BaseDirectorySpecification := {
  ConfigHome : text;
  ConfigDirs : list text;
  DataHome : text;
  DataDirs : list text;
}.

(** A Config represents a configuration.  The fields of the per-command
    configurations, of the VCS and of the terminal play no part in the
    functions below and are left out. *)
Record Config := {
  configFile : text;
  fs : FS;
  mutator : Mutator;
  SourceDir : text;
  DestDir : text;
  Umask : Z;
  DryRun : bool;
  Follow : bool;
  Remove : bool;
  Verbose : bool;
  GPG : chezmoi.GPG;
  GPGRecipient : text;
  Template : templateConfig;
  Data : gmap text value;
  templateFuncs : option (gmap text templateFunc);
  Stdout : Writer;
  bds : BaseDirectorySpecification;
  scriptStateBucket : text;
}.

Definition withTemplateFuncs (c : Config) (funcs : option (gmap text templateFunc))
  : Config :=
  {| configFile := configFile c; fs := fs c; mutator := mutator c;
     SourceDir := SourceDir c; DestDir := DestDir c; Umask := Umask c;
     DryRun := DryRun c; Follow := Follow c; Remove := Remove c;
     Verbose := Verbose c; GPG := GPG c; GPGRecipient := GPGRecipient c;
     Template := Template c; Data := Data c; templateFuncs := funcs;
     Stdout := Stdout c; bds := bds c; scriptStateBucket := scriptStateBucket c |}.

Definition withGPG (c : Config) (gpg : chezmoi.GPG) : Config :=
  {| configFile := configFile c; fs := fs c; mutator := mutator c;
     SourceDir := SourceDir c; DestDir := DestDir c; Umask := Umask c;
     DryRun := DryRun c; Follow := Follow c; Remove := Remove c;
     Verbose := Verbose c; GPG := gpg; GPGRecipient := GPGRecipient c;
     Template := Template c; Data := Data c; templateFuncs := templateFuncs c;
     Stdout := Stdout c; bds := bds c; scriptStateBucket := scriptStateBucket c |}.

(** A call that returns or panics. *)
Inductive outcome (A : Type) :=
| Returned (a : A)
| Panicked (message : text).
Arguments Returned {A} a.
Arguments Panicked {A} message.

(** [func (c *Config) addTemplateFunc(key string, value interface{})]: the
    configuration as the call leaves it, or the panic. *)
Definition addTemplateFunc (c : Config) (key : text) (value : templateFunc)
  : outcome Config :=
  let funcs :=
    match templateFuncs c with
    | None => ∅                         (* make(template.FuncMap) *)
    | Some funcs => funcs
    end in
  match funcs !! key with
  | Some _ =>
      Panicked (T "Config.addTemplateFunc: " ++ key ++ T " already defined")
  | None => Returned (withTemplateFuncs c (Some (<[key := value]> funcs)))
  end.

(** ** The host and the collaborators *)

Module user.
(** [user.User] and [user.Group] of os/user. *)
Record User := { Uid : text; Gid : text; Username : text }.
Record Group := { GroupGid : text; Name : text }.
End user.

(** What the configuration calls but does not define: the Go packages os,
    os/user, path/filepath, runtime and unicode, the version of the
    program, and the functions of package chezmoi and of the other files of
    package cmd.  [World] is the state of the host; a call that can change
    it returns the new one. *)
Class Runtime := {
  World : Type;
  GOARCH : text;
  GOOS : text;
  osStat : text -> World -> option error;
  osUserHomeDir : World -> result text;
  osHostname : World -> result text;
  userCurrent : World -> result user.User;
  userLookupGroupId : text -> World -> result user.Group;
  filepathAbs : text -> World -> result text;
  filepathDir : text -> text;
  filepathJoin : list text -> text;
  runeToLower : rune -> rune;                    (* unicode.ToLower *)
  runeToTitle : rune -> rune;                    (* unicode.ToTitle *)
  viperSupportedExts : list text;
  (** [var Version *semver.Version] and [semver.Version.LessThan]. *)
  Version : option semver;
  LessThan : semver -> semver -> bool;
  (** [getOSRelease] and [getKernelInfo]; the first map comes with the order
      in which a [range] visits it. *)
  getOSRelease : FS -> World -> result (option (list (text * text)));
  getKernelInfo : FS -> World -> result (option (gmap text text));
  (** [TargetState.Populate], [TargetState.Get] and [Entry.Apply]. *)
  Populate : TargetState.t -> FS -> option PopulateOptions -> World ->
             result TargetState.t * World;
  Get : TargetState.t -> FS -> text -> World -> result (option Entry);
  Apply : Entry -> FS -> Mutator -> bool -> ApplyOptions.t -> World ->
          option error * World;
  (** Opening the file of the persistent state. *)
  openBolt : FS -> text -> Z -> option bolt.Options -> World ->
             result (gmap (text * text) text);
}.

(** What the configuration hands to a collaborator, and what it reports. *)
Inductive event :=
| CallGetOSRelease (fs : FS)
| CallGetKernelInfo (fs : FS)
| CallPopulate (fs : FS) (populateOptions : option PopulateOptions)
| CallGet (fs : FS) (targetPath : text)
| CallTargetStateApply (fs : FS) (mutator : Mutator) (follow : bool)
    (applyOptions : ApplyOptions.t)
| CallEntryApply (entry : Entry) (fs : FS) (mutator : Mutator) (follow : bool)
    (applyOptions : ApplyOptions.t)
| CallNewBoltPersistentState (fs : FS) (path : text) (perm : Z)
    (options : option bolt.Options)
| Reported (targetPath : text) (cause : error).

(** The file system handle an event hands over, if any. *)
Definition handedFS (e : event) : option FS :=
  match e with
  | CallGetOSRelease fs | CallGetKernelInfo fs | CallPopulate fs _
  | CallGet fs _ | CallTargetStateApply fs _ _ _ | CallEntryApply _ fs _ _ _
  | CallNewBoltPersistentState fs _ _ _ => Some fs
  | Reported _ _ => None
  end.

(** The mutator an event hands over, if any. *)
Definition handedMutator (e : event) : option Mutator :=
  match e with
  | CallTargetStateApply _ mutator _ _ | CallEntryApply _ _ mutator _ _ => Some mutator
  | _ => None
  end.

(** The code that computes diffs and reads the target state: Populate, Get
    and the two Apply. *)
Definition readSide (e : event) : bool :=
  match e with
  | CallPopulate _ _ | CallGet _ _ | CallTargetStateApply _ _ _ _
  | CallEntryApply _ _ _ _ _ => true
  | _ => false
  end.

(** The entries whose Apply was called, in order. *)
Definition appliedEntries (events : list event) : list Entry :=
  flat_map (fun e => match e with CallEntryApply entry _ _ _ _ => [entry] | _ => [] end)
           events.

Section Cmd.

Context `{Runtime}.

(** The receiver [c *Config], the host and the events so far. *)
Record State := {
  config : Config;
  world : World;
  events : list event;
}.

(** A method of [*Config] returning [(A, error)]. *)
Definition M (A : Type) : Type := State -> result A * State.

Definition ret {A} (a : A) : M A := fun s => (Ok a, s).
Definition fail {A} (err : error) : M A := fun s => (Err err, s).
Definition bind {A B} (m : M A) (k : A -> M B) : M B :=
  fun s => match m s with
           | (Ok a, s') => k a s'
           | (Err err, s') => (Err err, s')
           end.

Definition getConfig : M Config := fun s => (Ok (config s), s).
Definition setConfig (c : Config) : M unit :=
  fun s => (Ok tt, {| config := c; world := world s; events := events s |}).
Definition emit (e : event) : M unit :=
  fun s => (Ok tt, {| config := config s; world := world s;
                      events := events s ++ [e] |}).
(** A call that reads the host. *)
Definition ask {A} (f : World -> A) : M A := fun s => (Ok (f (world s)), s).
(** A call that reads the host and returns [(A, error)]. *)
Definition try {A} (f : World -> result A) : M A :=
  fun s => (f (world s), s).
(** A call that can change the host. *)
Definition act {A} (f : World -> A * World) : M A :=
  fun s => let '(a, w) := f (world s) in
           (Ok a, {| config := config s; world := w; events := events s |}).

End Cmd.

Notation "x <~ m ; k" := (bind m (fun x => k))
  (at level 20, m at level 100, k at level 200, only parsing).

Definition isEmpty (s : text) : bool :=
  match s with [] => true | _ => false end.

(** [os.FileMode(perm)]: the conversion to a 32-bit value. *)
Definition FileMode (perm : Z) : Z := perm mod 2 ^ 32.

(** [os.IsNotExist]. *)
Definition IsNotExist (err : error) : bool :=
  match err with ErrNotExist => true | _ => false end.

Definition str (s : text) : value := VOther (SString s).

(** Modelled from the spec: [chezmoi.NewTargetState] with the options
    getTargetState passes; the entries, the ignore patterns and the minimum
    version are for Populate to fill in. *)
Definition NewTargetState (destDir : text) (gpg : chezmoi.GPG) (sourceDir : text)
    (templateData : gmap text value)
    (templateFuncs : option (gmap text templateFunc))
    (templateOptions : list text) (umask : Z) : TargetState.t :=
  {| TargetState.DestDir := destDir;
     TargetState.Entries := [];
     TargetState.GPG := gpg;
     TargetState.MinVersion := None;
     TargetState.SourceDir := sourceDir;
     TargetState.TargetIgnore := {| patterns := [] |};
     TargetState.TemplateData := templateData;
     TargetState.TemplateFuncs := templateFuncs;
     TargetState.TemplateOptions := templateOptions;
     TargetState.Umask := umask |}.

Section CmdFunctions.

Context `{Runtime}.

Definition exists_ (path : text) (w : World) : bool :=
  match osStat path w with None => true | Some _ => false end.

(** getDefaultConfigFile: the first existing
    [configDir/chezmoi/chezmoi.extension], the XDG default otherwise. *)
Definition getDefaultConfigFile (bds : BaseDirectorySpecification) (w : World) : text :=
  let candidates :=
    flat_map (fun configDir =>
                map (fun extension =>
                       filepathJoin [configDir; T "chezmoi"; T "chezmoi." ++ extension])
                    viperSupportedExts)
             (ConfigDirs bds) in
  match List.find (fun path => exists_ path w) candidates with
  | Some configFilePath => configFilePath
  | None => filepathJoin [ConfigHome bds; T "chezmoi"; T "chezmoi.toml"]
  end.

Definition getPersistentStateFile (c : Config) (w : World) : text :=
  if negb (isEmpty (configFile c)) then
    filepathJoin [filepathDir (configFile c); T "chezmoistate.boltdb"]
  else
    let candidates :=
      map (fun configDir => filepathJoin [configDir; T "chezmoi"; T "chezmoistate.boltdb"])
          (ConfigDirs (bds c)) in
    match List.find (fun path => exists_ path w) candidates with
    | Some persistentStateFile => persistentStateFile
    | None =>
        filepathJoin [filepathDir (getDefaultConfigFile (bds c) w);
                      T "chezmoistate.boltdb"]
    end.

(** Modelled from the spec: [chezmoi.NewBoltPersistentState] (spec 4.6)
    opens the key-value file with the options it is given. *)
Definition NewBoltPersistentState (fs : FS) (path : text) (perm : Z)
    (options : option bolt.Options) : M BoltPersistentState :=
  _ <~ emit (CallNewBoltPersistentState fs path perm options) ;
  db <~ try (openBolt fs path perm options) ;
  ret {| boltFS := fs; boltPath := path; boltPerm := perm;
         boltOptions := options; boltDB := db |}.

(** [func (c *Config) getPersistentState(options *bolt.Options)].  The
    argument is a pointer: in a dry run a non-nil [options] is changed in
    place, which its owner sees as well; the model keeps to what is passed
    on. *)
Definition getPersistentState (options : option bolt.Options) : M BoltPersistentState :=
  c <~ getConfig ;
  persistentStateFile <~ ask (getPersistentStateFile c) ;
  let options :=
    if DryRun c then
      let options := match options with
                     | None => emptyOptions
                     | Some options => options
                     end in
      Some (setReadOnly options)
    else options in
  NewBoltPersistentState (fs c) persistentStateFile (FileMode (Umask c)) options.

Definition getDefaultData : M (gmap text value) :=
  c <~ getConfig ;
  let data : gmap text value :=
    <[T "sourceDir" := str (SourceDir c)]>
      (<[T "os" := str GOOS]> {[ T "arch" := str GOARCH ]}) in
  currentUser <~ try userCurrent ;
  let data := <[T "username" := str (user.Username currentUser)]> data in
  group <~ ask (userLookupGroupId (user.Gid currentUser)) ;
  let data := match group with
              | Ok group => <[T "group" := str (user.Name group)]> data
              | Err _ => data
              end in
  homedir <~ try osUserHomeDir ;
  let data := <[T "homedir" := str homedir]> data in
  hostname <~ try osHostname ;
  let data := <[T "fullHostname" := str hostname]> data in
  let data := <[T "hostname" := str (hd [] (Split hostname 46))]> data in
  _ <~ emit (CallGetOSRelease (fs c)) ;
  osRelease <~ ask (getOSRelease (fs c)) ;
  data <~ match osRelease with
          | Ok (Some visit) =>
              ret (<[T "osRelease" :=
                       VOther (SStringMap
                                 (upperSnakeCaseToCamelCaseMapIn
                                    runeToLower runeToTitle visit))]> data)
          | Ok None => ret data
          | Err err => if negb (IsNotExist err) then fail err else ret data
          end ;
  _ <~ emit (CallGetKernelInfo (fs c)) ;
  kernelInfo <~ ask (getKernelInfo (fs c)) ;
  match kernelInfo with
  | Ok (Some kernelInfo) => ret (<[T "kernel" := VOther (SStringMap kernelInfo)]> data)
  | Ok None => ret data
  | Err err => fail err
  end.

Definition getData : M (gmap text value) :=
  defaultData <~ getDefaultData ;
  c <~ getConfig ;
  let data : gmap text value := {[ T "chezmoi" := VMap (map_to_list defaultData) ]} in
  ret (Data c ∪ data).

(** [func (c *Config) getTargetState(populateOptions)], lines 435 to 466:
    the target state as Populate leaves it. *)
Definition populateTargetState (populateOptions : option PopulateOptions)
  : M TargetState.t :=
  c <~ getConfig ;
  let fs := NewReadOnlyFS (fs c) in
  data <~ getData ;
  destDir <~ (if negb (isEmpty (DestDir c)) then try (filepathAbs (DestDir c))
              else ret (DestDir c)) ;
  (* For backwards compatibility, prioritize gpgRecipient over
     gpg.recipient. *)
  _ <~ (if negb (isEmpty (GPGRecipient c))
        then setConfig (withGPG c {| chezmoi.Command := chezmoi.Command (GPG c);
                                     chezmoi.Recipient := GPGRecipient c |})
        else ret tt) ;
  c <~ getConfig ;
  let ts := NewTargetState destDir (GPG c) (SourceDir c) data (templateFuncs c)
                           (Options (Template c)) (FileMode (Umask c)) in
  _ <~ emit (CallPopulate fs populateOptions) ;
  populated <~ act (Populate ts fs populateOptions) ;
  match populated with
  | Err err => fail err
  | Ok ts => ret ts
  end.

(** getTargetState, lines 467 to 470: the check of the minimum version. *)
Definition checkMinVersion (ts : TargetState.t) : M TargetState.t :=
  match Version, TargetState.MinVersion ts with
  | Some version, Some minVersion =>
      if LessThan version minVersion
      then fail (ErrVersionTooOld version minVersion)
      else ret ts
  | _, _ => ret ts
  end.

Definition getTargetState (populateOptions : option PopulateOptions) : M TargetState.t :=
  ts <~ populateTargetState populateOptions ;
  checkMinVersion ts.

(** The loop of getEntries, with the entries found so far. *)
Fixpoint getEntriesLoop (ts : TargetState.t) (args : list text) (entries : list Entry)
  : M (list Entry) :=
  match args with
  | [] => ret entries
  | arg :: args' =>
      targetPath <~ try (filepathAbs arg) ;
      c <~ getConfig ;
      _ <~ emit (CallGet (fs c) targetPath) ;
      entry <~ try (Get ts (fs c) targetPath) ;
      match entry with
      | None => fail (ErrNotInSourceState arg)
      | Some entry => getEntriesLoop ts args' (entries ++ [entry])
      end
  end.

Definition getEntries (ts : TargetState.t) (args : list text) : M (list Entry) :=
  getEntriesLoop ts args [].

(** [entry.Apply(fs, mutator, follow, applyOptions)]. *)
Definition entryApply (entry : Entry) (fs : FS) (mutator : Mutator) (follow : bool)
    (applyOptions : ApplyOptions.t) : M unit :=
  _ <~ emit (CallEntryApply entry fs mutator follow applyOptions) ;
  err <~ act (Apply entry fs mutator follow applyOptions) ;
  match err with
  | Some err => fail err
  | None => ret tt
  end.

(** The loop over the named entries at the end of applyArgs. *)
Fixpoint applyEntries (entries : list Entry) (fs : FS) (mutator : Mutator)
    (follow : bool) (applyOptions : ApplyOptions.t) : M unit :=
  match entries with
  | [] => ret tt
  | entry :: entries' =>
      _ <~ entryApply entry fs mutator follow applyOptions ;
      applyEntries entries' fs mutator follow applyOptions
  end.

(** Modelled from the spec: the loop of batch apply (spec 4.3, 4.5 and 7).
    An ignored entry is skipped; a failure "is reported and the engine
    continues with the next entry"; [failed] holds the targets that failed
    so far. *)
Fixpoint applyEach (entries : list Entry) (fs : FS) (mutator : Mutator)
    (follow : bool) (applyOptions : ApplyOptions.t) (failed : list text)
  : M (list text) :=
  match entries with
  | [] => ret failed
  | entry :: entries' =>
      if ApplyOptions.Ignore applyOptions (TargetPath entry) then
        applyEach entries' fs mutator follow applyOptions failed
      else
        _ <~ emit (CallEntryApply entry fs mutator follow applyOptions) ;
        err <~ act (Apply entry fs mutator follow applyOptions) ;
        match err with
        | Some err =>
            _ <~ emit (Reported (TargetPath entry) err) ;
            applyEach entries' fs mutator follow applyOptions
                      (failed ++ [TargetPath entry])
        | None => applyEach entries' fs mutator follow applyOptions failed
        end
  end.

(** Modelled from the spec: [TargetState.Apply] (package chezmoi, not
    among the sources), batch apply with partial-failure semantics: it
    fails at the end "if any entry failed". *)
Definition TargetStateApply (ts : TargetState.t) (fs : FS) (mutator : Mutator)
    (follow : bool) (applyOptions : ApplyOptions.t) : M unit :=
  _ <~ emit (CallTargetStateApply fs mutator follow applyOptions) ;
  failed <~ applyEach (TargetState.Entries ts) fs mutator follow applyOptions [] ;
  match failed with
  | [] => ret tt
  | _ => fail (ErrEntriesFailed failed)
  end.

(** The [applyOptions] of applyArgs. *)
Definition newApplyOptions (c : Config) (ts : TargetState.t)
    (persistentState : BoltPersistentState) : ApplyOptions.t :=
  {| ApplyOptions.DestDir := TargetState.DestDir ts;
     ApplyOptions.DryRun := DryRun c;
     ApplyOptions.Ignore := Match (TargetState.TargetIgnore ts);
     ApplyOptions.PersistentState := persistentState;
     ApplyOptions.Remove := Remove c;
     ApplyOptions.ScriptStateBucket := scriptStateBucket c;
     ApplyOptions.Stdout := Stdout c;
     ApplyOptions.Umask := TargetState.Umask ts;
     ApplyOptions.Verbose := Verbose c |}.

(** [func (c *Config) applyArgs(args, persistentState)]. *)
Definition applyArgs (args : list text) (persistentState : BoltPersistentState) : M unit :=
  c <~ getConfig ;
  let fs := NewReadOnlyFS (fs c) in
  ts <~ getTargetState None ;
  c <~ getConfig ;
  let applyOptions := newApplyOptions c ts persistentState in
  if Nat.eqb (length args) 0 then
    TargetStateApply ts fs (mutator c) (Follow c) applyOptions
  else
    entries <~ getEntries ts args ;
    applyEntries entries fs (mutator c) (Follow c) applyOptions.

End CmdFunctions.

(** ** TAR system (package chezmoi) *)

Module tar.
(** [tar.Header.Typeflag]: the zero value and the three flags used. *)
Inductive flag := TypeZero | TypeReg | TypeDir | TypeSymlink.

(** [tar.Header] of archive/tar, the fields the TAR system uses. *)
Record Header := {
  Typeflag : flag;
  Name : text;
  Linkname : text;
  Size : Z;
  Mode : Z;
  Uid : Z;
  Gid : Z;
  Uname : text;
  Gname : text;
  ModTime : Z;
  AccessTime : Z;
  ChangeTime : Z;
}.

(** [tar.Writer]: its state, and the two methods that add to the
    archive. *)
Class Writer := {
  t : Type;
  WriteHeader : t -> Header -> option error * t;
  Write : t -> list Byte.byte -> (Z * option error) * t;
  Close : t -> option error * t;
}.
End tar.

(** [header := s.headerTemplate] followed by the assignments of
    WriteFile. *)
Definition fileHeader (headerTemplate : tar.Header) (filename : text)
    (data : list Byte.byte) (perm : Z) : tar.Header :=
  {| tar.Typeflag := tar.TypeReg;
     tar.Name := filename;
     tar.Linkname := tar.Linkname headerTemplate;
     tar.Size := Z.of_nat (length data);
     tar.Mode := perm;
     tar.Uid := tar.Uid headerTemplate; tar.Gid := tar.Gid headerTemplate;
     tar.Uname := tar.Uname headerTemplate; tar.Gname := tar.Gname headerTemplate;
     tar.ModTime := tar.ModTime headerTemplate;
     tar.AccessTime := tar.AccessTime headerTemplate;
     tar.ChangeTime := tar.ChangeTime headerTemplate |}.

Definition dirHeader (headerTemplate : tar.Header) (name : text) (perm : Z)
  : tar.Header :=
  {| tar.Typeflag := tar.TypeDir;
     tar.Name := name ++ T "/";
     tar.Linkname := tar.Linkname headerTemplate;
     tar.Size := tar.Size headerTemplate;
     tar.Mode := perm;
     tar.Uid := tar.Uid headerTemplate; tar.Gid := tar.Gid headerTemplate;
     tar.Uname := tar.Uname headerTemplate; tar.Gname := tar.Gname headerTemplate;
     tar.ModTime := tar.ModTime headerTemplate;
     tar.AccessTime := tar.AccessTime headerTemplate;
     tar.ChangeTime := tar.ChangeTime headerTemplate |}.

Definition symlinkHeader (headerTemplate : tar.Header) (oldname newname : text)
  : tar.Header :=
  {| tar.Typeflag := tar.TypeSymlink;
     tar.Name := newname;
     tar.Linkname := oldname;
     tar.Size := tar.Size headerTemplate;
     tar.Mode := tar.Mode headerTemplate;
     tar.Uid := tar.Uid headerTemplate; tar.Gid := tar.Gid headerTemplate;
     tar.Uname := tar.Uname headerTemplate; tar.Gname := tar.Gname headerTemplate;
     tar.ModTime := tar.ModTime headerTemplate;
     tar.AccessTime := tar.AccessTime headerTemplate;
     tar.ChangeTime := tar.ChangeTime headerTemplate |}.

Section TARSystem.

Context `{tar.Writer}.

(** A TARSystem is a System that writes to a TAR archive.  The embedded
    [nullSystem], which answers the reading methods, is left out. *)
Record TARSystem := {
  w : tar.t;
  headerTemplate : tar.Header;
}.

Definition withWriter (s : TARSystem) (w' : tar.t) : TARSystem :=
  {| w := w'; headerTemplate := headerTemplate s |}.

(** Each method returns its error and the system as the call leaves it. *)

(** Chmod implements System.Chmod. *)
Definition Chmod (s : TARSystem) (name : text) (mode : Z) : option error * TARSystem :=
  (Some ErrPermission, s).

(** Close closes m. *)
Definition Close (s : TARSystem) : option error * TARSystem :=
  let '(err, w') := tar.Close (w s) in
  (err, withWriter s w').

(** Mkdir implements System.Mkdir. *)
Definition Mkdir (s : TARSystem) (name : text) (perm : Z) : option error * TARSystem :=
  let header := dirHeader (headerTemplate s) name perm in
  let '(err, w') := tar.WriteHeader (w s) header in
  (err, withWriter s w').

(** RemoveAll implements System.RemoveAll. *)
Definition RemoveAll (s : TARSystem) (name : text) : option error * TARSystem :=
  (Some ErrPermission, s).

(** Rename implements System.Rename. *)
Definition Rename (s : TARSystem) (oldpath newpath : text) : option error * TARSystem :=
  (Some ErrPermission, s).

(** WriteFile implements System.WriteFile. *)
Definition WriteFile (s : TARSystem) (filename : text) (data : list Byte.byte)
    (perm : Z) : option error * TARSystem :=
  let header := fileHeader (headerTemplate s) filename data perm in
  match tar.WriteHeader (w s) header with
  | (Some err, w') => (Some err, withWriter s w')
  | (None, w') =>
      let '((_, err), w'') := tar.Write w' data in
      (err, withWriter s w'')
  end.

(** RunScript implements System.RunScript. *)
Definition RunScript (s : TARSystem) (name : text) (data : list Byte.byte)
  : option error * TARSystem :=
  WriteFile s name data 448 (* 0o700 *).

(** WriteSymlink implements System.WriteSymlink. *)
Definition WriteSymlink (s : TARSystem) (oldname newname : text)
  : option error * TARSystem :=
  let header := symlinkHeader (headerTemplate s) oldname newname in
  let '(err, w') := tar.WriteHeader (w s) header in
  (err, withWriter s w').

End TARSystem.

(** An archive in memory: the members written so far, each a header and its
    body; a body longer than the size in the header is refused. *)
Record member := {
  memberHeader : tar.Header;
  memberBody : list Byte.byte;
}.

Definition appendBody (archive : list member) (data : list Byte.byte)
  : option (list member) :=
  match List.rev archive with
  | last :: before =>
      if Z.of_nat (length (memberBody last ++ data)) <=? tar.Size (memberHeader last)
      then Some (List.rev before ++
                 [{| memberHeader := memberHeader last;
                     memberBody := memberBody last ++ data |}])
      else None
  | [] => match data with [] => Some archive | _ => None end
  end.

#[global] Instance memoryWriter : tar.Writer := {|
  tar.t := list member;
  tar.WriteHeader := fun archive header =>
    (None, archive ++ [{| memberHeader := header; memberBody := [] |}]);
  tar.Write := fun archive data =>
    match appendBody archive data with
    | Some archive' => ((Z.of_nat (length data), None), archive')
    | None => ((0, Some (ErrOther (T "archive/tar: write too long"))), archive)
    end;
  tar.Close := fun archive => (None, archive);
|}.

(** A TAR system over an archive in memory. *)
Definition memoryTAR (archive : list member) (template : tar.Header)
  : @TARSystem memoryWriter :=
  {| w := archive; headerTemplate := template |}.

(** ** Source-name codec *)

(** [strings.HasPrefix], [strings.TrimPrefix], [strings.HasSuffix] and
    [strings.TrimSuffix]. *)
Fixpoint HasPrefix (s prefix : text) {struct prefix} : bool :=
  match prefix with
  | [] => true
  | p :: prefix' =>
      match s with
      | [] => false
      | r :: s' => Z.eqb r p && HasPrefix s' prefix'
      end
  end.

Definition TrimPrefix (s prefix : text) : text :=
  if HasPrefix s prefix then drop (length prefix) s else s.

Definition HasSuffix (s suffix : text) : bool :=
  HasPrefix (List.rev s) (List.rev suffix).

Definition TrimSuffix (s suffix : text) : text :=
  if HasSuffix s suffix then take (length s - length suffix) s else s.

(** Modelled from the spec: the markers of the source naming convention
    (spec 4.1 and 6; internal/chezmoi/attributes.go is not among the
    sources).  The spec fixes that there are such markers and that they are
    emitted in one fixed order; the spelling is that of chezmoi's documented
    source state attributes. *)
Definition dotPrefix : text := Eval vm_compute in T "dot_".
Definition emptyPrefix : text := Eval vm_compute in T "empty_".
Definition encryptedPrefix : text := Eval vm_compute in T "encrypted_".
Definition exactPrefix : text := Eval vm_compute in T "exact_".
Definition executablePrefix : text := Eval vm_compute in T "executable_".
Definition oncePrefix : text := Eval vm_compute in T "once_".
Definition privatePrefix : text := Eval vm_compute in T "private_".
Definition runPrefix : text := Eval vm_compute in T "run_".
Definition symlinkPrefix : text := Eval vm_compute in T "symlink_".
Definition TemplateSuffix : text := Eval vm_compute in T ".tmpl".
Definition dot : text := Eval vm_compute in T ".".

Module DirAttributes.
(** The record TestDirAttributes builds. *)
Record t := {
  Name : text;
  Exact : bool;
  Private : bool;
}.
End DirAttributes.

Inductive SourceFileType :=
| SourceFileTypeFile
| SourceFileTypeScript
| SourceFileTypeSymlink.

Module FileAttributes.
(** The record TestFileAttributes builds. *)
Record t := {
  Type_ : SourceFileType;
  Name : text;
  Empty : bool;
  Encrypted : bool;
  Executable : bool;
  Once : bool;
  Private : bool;
  Template : bool;
}.
End FileAttributes.

(** A target name with a leading dot is written with the dot marker. *)
Definition dotName (name : text) : text :=
  if HasPrefix name dot then dotPrefix ++ TrimPrefix name dot else name.

Definition undotName (name : text) : text :=
  if HasPrefix name dotPrefix then dot ++ TrimPrefix name dotPrefix else name.

(** Modelled from the spec: [ParseDirAttributes], "a pure string
    decomposition using recognized prefix/suffix markers for each flag". *)
Definition ParseDirAttributes (sourceName : text) : DirAttributes.t :=
  let name := sourceName in
  let exact := HasPrefix name exactPrefix in
  let name := TrimPrefix name exactPrefix in
  let private := HasPrefix name privatePrefix in
  let name := TrimPrefix name privatePrefix in
  {| DirAttributes.Name := undotName name;
     DirAttributes.Exact := exact;
     DirAttributes.Private := private |}.

(** Modelled from the spec: [DirAttributes.SourceName], "the canonical
    encoding always emits markers in one fixed order". *)
Definition DirSourceName (da : DirAttributes.t) : text :=
  (if DirAttributes.Exact da then exactPrefix else [])
  ++ (if DirAttributes.Private da then privatePrefix else [])
  ++ dotName (DirAttributes.Name da).

(** Modelled from the spec: [ParseFileAttributes]; "a distinct top-level
    prefix distinguishing Script entries from File/Symlink entries, and a
    marker distinguishing Symlink from File", then the flags of the kind,
    the dot marker and the template suffix. *)
Definition ParseFileAttributes (sourceName : text) : FileAttributes.t :=
  let name := sourceName in
  let tail (name : text) : text * bool :=
    let name := undotName name in
    (TrimSuffix name TemplateSuffix, HasSuffix name TemplateSuffix) in
  if HasPrefix name runPrefix then
    let name := TrimPrefix name runPrefix in
    let once := HasPrefix name oncePrefix in
    let name := TrimPrefix name oncePrefix in
    {| FileAttributes.Type_ := SourceFileTypeScript;
       FileAttributes.Name := fst (tail name);
       FileAttributes.Empty := false; FileAttributes.Encrypted := false;
       FileAttributes.Executable := false; FileAttributes.Once := once;
       FileAttributes.Private := false;
       FileAttributes.Template := snd (tail name) |}
  else if HasPrefix name symlinkPrefix then
    let name := TrimPrefix name symlinkPrefix in
    {| FileAttributes.Type_ := SourceFileTypeSymlink;
       FileAttributes.Name := fst (tail name);
       FileAttributes.Empty := false; FileAttributes.Encrypted := false;
       FileAttributes.Executable := false; FileAttributes.Once := false;
       FileAttributes.Private := false;
       FileAttributes.Template := snd (tail name) |}
  else
    let encrypted := HasPrefix name encryptedPrefix in
    let name := TrimPrefix name encryptedPrefix in
    let private := HasPrefix name privatePrefix in
    let name := TrimPrefix name privatePrefix in
    let empty := HasPrefix name emptyPrefix in
    let name := TrimPrefix name emptyPrefix in
    let executable := HasPrefix name executablePrefix in
    let name := TrimPrefix name executablePrefix in
    {| FileAttributes.Type_ := SourceFileTypeFile;
       FileAttributes.Name := fst (tail name);
       FileAttributes.Empty := empty; FileAttributes.Encrypted := encrypted;
       FileAttributes.Executable := executable; FileAttributes.Once := false;
       FileAttributes.Private := private;
       FileAttributes.Template := snd (tail name) |}.

(** Modelled from the spec: [FileAttributes.SourceName]. *)
Definition FileSourceName (fa : FileAttributes.t) : text :=
  match FileAttributes.Type_ fa with
  | SourceFileTypeFile =>
      (if FileAttributes.Encrypted fa then encryptedPrefix else [])
      ++ (if FileAttributes.Private fa then privatePrefix else [])
      ++ (if FileAttributes.Empty fa then emptyPrefix else [])
      ++ (if FileAttributes.Executable fa then executablePrefix else [])
  | SourceFileTypeScript =>
      runPrefix ++ (if FileAttributes.Once fa then oncePrefix else [])
  | SourceFileTypeSymlink => symlinkPrefix
  end
  ++ dotName (FileAttributes.Name fa)
  ++ (if FileAttributes.Template fa then TemplateSuffix else []).

(** The prefixes that parsing a directory name and a file name looks
    for. *)
Definition dirPrefixes : list text :=
  [exactPrefix; privatePrefix; dotPrefix].

Definition filePrefixes : list text :=
  [runPrefix; oncePrefix; symlinkPrefix; encryptedPrefix; privatePrefix;
   emptyPrefix; executablePrefix; dotPrefix].

Definition startsWithNone (prefixes : list text) (name : text) : bool :=
  forallb (fun prefix => negb (HasPrefix name prefix)) prefixes.

(** Syntactically valid attribute records.  No marker can be read out of
    the target name: it starts with no prefix that parsing looks for and,
    for a file, does not end in the template suffix.  The flags are those of
    the kind of the entry, as TestFileAttributes combines them: Empty,
    Encrypted, Executable and Private for a file, Once for a script, and
    Template for each kind. *)
Definition validDirAttributes (da : DirAttributes.t) : bool :=
  startsWithNone dirPrefixes (DirAttributes.Name da).

Definition validFileAttributes (fa : FileAttributes.t) : bool :=
  startsWithNone filePrefixes (FileAttributes.Name fa)
  && negb (HasSuffix (FileAttributes.Name fa) TemplateSuffix)
  && match FileAttributes.Type_ fa with
     | SourceFileTypeFile => negb (FileAttributes.Once fa)
     | SourceFileTypeScript =>
         negb (FileAttributes.Empty fa || FileAttributes.Encrypted fa
               || FileAttributes.Executable fa || FileAttributes.Private fa)
     | SourceFileTypeSymlink =>
         negb (FileAttributes.Empty fa || FileAttributes.Encrypted fa
               || FileAttributes.Executable fa || FileAttributes.Private fa
               || FileAttributes.Once fa)
     end.

(** Canonically encoded source names: the encodings of the valid
    records. *)
Definition canonicalDirName (s : text) : Prop :=
  exists da, validDirAttributes da = true /\ s = DirSourceName da.

Definition canonicalFileName (s : text) : Prop :=
  exists fa, validFileAttributes fa = true /\ s = FileSourceName fa.

(** The records of TestDirAttributes and TestFileAttributes. *)
Definition bools : list bool := [false; true].

Definition testDirAttributes : list DirAttributes.t :=
  name ← [T "dir"; T ".dir"];
  exact ← bools;
  private ← bools;
  [{| DirAttributes.Name := name; DirAttributes.Exact := exact;
      DirAttributes.Private := private |}].

Definition testFileAttributes : list FileAttributes.t :=
  (name ← [T "name"; T ".name"];
   empty ← bools; encrypted ← bools; executable ← bools;
   private ← bools; template ← bools;
   [{| FileAttributes.Type_ := SourceFileTypeFile; FileAttributes.Name := name;
       FileAttributes.Empty := empty; FileAttributes.Encrypted := encrypted;
       FileAttributes.Executable := executable; FileAttributes.Once := false;
       FileAttributes.Private := private; FileAttributes.Template := template |}])
  ++ (once ← bools;
      [{| FileAttributes.Type_ := SourceFileTypeScript; FileAttributes.Name := T "name";
          FileAttributes.Empty := false; FileAttributes.Encrypted := false;
          FileAttributes.Executable := false; FileAttributes.Once := once;
          FileAttributes.Private := false; FileAttributes.Template := false |}])
  ++ (name ← [T ".name"; T "name"];
      [{| FileAttributes.Type_ := SourceFileTypeSymlink; FileAttributes.Name := name;
          FileAttributes.Empty := false; FileAttributes.Encrypted := false;
          FileAttributes.Executable := false; FileAttributes.Once := false;
          FileAttributes.Private := false; FileAttributes.Template := false |}]).

(** The marker of a flag, when the flag is set. *)
Definition flagPrefix (b : bool) (p : text) : text := if b then p else [].

(** What a source name holds after the markers of the kind and of the flags:
    the target name with its dot marker, then the template suffix. *)
Definition nameTail (n : text) (t : bool) : text :=
  dotName n ++ (if t then TemplateSuffix else []).

(** ** A host for running examples *)

Fixpoint dropWhileNotSlash (s : text) : text :=
  match s with
  | [] => []
  | r :: s' => if Z.eqb r slash then s else dropWhileNotSlash s'
  end.

(** Three-part comparison of versions without pre-release. *)
Definition versionLess (a b : semver) : bool :=
  (Major a <? Major b)
  || ((Major a =? Major b)
      && ((Minor a <? Minor b)
          || ((Minor a =? Minor b) && (Patch a <? Patch b)))).

Definition version (major minor patch : Z) : semver :=
  {| Major := major; Minor := minor; Patch := patch;
     PreRelease := []; Metadata := [] |}.

(** The source directory of the example host, as Populate reads it, and
    the targets written so far. *)
Record host := {
  versionFile : option semver;
  ignoreFile : list text;
  sourceEntries : list Entry;
  written : list text;
}.

Definition hostWrite (w : host) (target : text) : host :=
  {| versionFile := versionFile w; ignoreFile := ignoreFile w;
     sourceEntries := sourceEntries w; written := written w ++ [target] |}.

Definition hostPopulate (ts : TargetState.t) (w : host) : TargetState.t :=
  {| TargetState.DestDir := TargetState.DestDir ts;
     TargetState.Entries := sourceEntries w;
     TargetState.GPG := TargetState.GPG ts;
     TargetState.MinVersion := versionFile w;
     TargetState.SourceDir := TargetState.SourceDir ts;
     TargetState.TargetIgnore := {| patterns := map parsePatternLine (ignoreFile w) |};
     TargetState.TemplateData := TargetState.TemplateData ts;
     TargetState.TemplateFuncs := TargetState.TemplateFuncs ts;
     TargetState.TemplateOptions := TargetState.TemplateOptions ts;
     TargetState.Umask := TargetState.Umask ts |}.

(** On the example host a script fails and every other entry is written. *)
#[global] Instance exampleRuntime : Runtime := {|
  World := host;
  GOARCH := T "amd64";
  GOOS := T "linux";
  osStat := fun _ _ => Some ErrNotExist;
  osUserHomeDir := fun _ => Ok (T "/home/user");
  osHostname := fun _ => Ok (T "host.example.com");
  userCurrent := fun _ =>
    Ok {| user.Uid := T "1000"; user.Gid := T "1000"; user.Username := T "user" |};
  userLookupGroupId := fun _ _ => Err (ErrOther (T "unknown group"));
  filepathAbs := fun path _ => Ok path;
  filepathDir := fun path =>
    List.rev (drop 1 (dropWhileNotSlash (List.rev path)));
  filepathJoin := fun elems => Join elems (T "/");
  runeToLower := asciiToLower;
  runeToTitle := asciiToUpper;
  viperSupportedExts := [T "json"; T "toml"; T "yaml"];
  Version := Some (version 1 8 0);
  LessThan := versionLess;
  getOSRelease := fun _ _ =>
    Ok (Some [(T "ID", T "debian"); (T "VERSION_ID", T "10")]);
  getKernelInfo := fun _ _ => Ok None;
  Populate := fun ts _ _ w => (Ok (hostPopulate ts w), w);
  Get := fun ts _ targetPath _ =>
    Ok (List.find (fun entry => bool_decide (TargetPath entry = targetPath))
                  (TargetState.Entries ts));
  Apply := fun entry _ _ _ _ w =>
    match Kind entry with
    | KScript => (Some (ErrOther (T "exit status 1")), w)
    | _ => (None, hostWrite w (TargetPath entry))
    end;
  openBolt := fun _ _ _ _ _ => Ok ∅;
|}.

Definition exampleConfig : Config :=
  {| configFile := T "/home/user/.config/chezmoi/chezmoi.toml";
     fs := OSFS;
     mutator := MutatorHandle 1;
     SourceDir := T "/home/user/.local/share/chezmoi";
     DestDir := T "/home/user";
     Umask := 18;
     DryRun := false; Follow := false; Remove := false; Verbose := false;
     GPG := {| chezmoi.Command := T "gpg"; chezmoi.Recipient := [] |};
     GPGRecipient := [];
     Template := {| Options := [T "missingkey=error"] |};
     Data := ∅;
     templateFuncs := Some {[ T "include" := TemplateFunc 1 ]};
     Stdout := WriterHandle 1;
     bds := {| ConfigHome := T "/home/user/.config"; ConfigDirs := [T "/home/user/.config"];
               DataHome := T "/home/user/.local/share";
               DataDirs := [T "/home/user/.local/share"] |};
     scriptStateBucket := T "script" |}.

Definition dryRunConfig : Config :=
  {| configFile := configFile exampleConfig; fs := fs exampleConfig;
     mutator := mutator exampleConfig; SourceDir := SourceDir exampleConfig;
     DestDir := DestDir exampleConfig; Umask := Umask exampleConfig;
     DryRun := true; Follow := false; Remove := false; Verbose := false;
     GPG := GPG exampleConfig; GPGRecipient := GPGRecipient exampleConfig;
     Template := Template exampleConfig; Data := Data exampleConfig;
     templateFuncs := templateFuncs exampleConfig; Stdout := Stdout exampleConfig;
     bds := bds exampleConfig; scriptStateBucket := scriptStateBucket exampleConfig |}.

Definition bashrc : Entry := {| TargetPath := T "/home/user/.bashrc"; Kind := KFile |}.
Definition install : Entry := {| TargetPath := T "/home/user/install.sh"; Kind := KScript |}.
Definition vimrc : Entry := {| TargetPath := T "/home/user/.vimrc"; Kind := KFile |}.

Definition exampleHost (minVersion : option semver) : host :=
  {| versionFile := minVersion; ignoreFile := [];
     sourceEntries := [bashrc; install; vimrc]; written := [] |}.

Definition exampleState (c : Config) (minVersion : option semver) : State :=
  {| config := c; world := exampleHost minVersion; events := [] |}.

Definition exampleStore : BoltPersistentState :=
  {| boltFS := OSFS; boltPath := T "/home/user/.config/chezmoi/chezmoistate.boltdb";
     boltPerm := 18; boltOptions := None; boltDB := ∅ |}.

(** The handle and the mutator each collaborator is given, for a
    configuration with file system [fs0] and mutator [m0]. *)
Definition wellHanded (fs0 : FS) (m0 : Mutator) (e : event) : Prop :=
  match e with
  | CallGetOSRelease f | CallGetKernelInfo f | CallGet f _
  | CallNewBoltPersistentState f _ _ _ => f = fs0
  | CallPopulate f _ => f = NewReadOnlyFS fs0
  | CallTargetStateApply f m _ _ | CallEntryApply _ f m _ _ =>
      f = NewReadOnlyFS fs0 /\ m = m0
  | Reported _ _ => True
  end.

(** The targets reported as failed, in order. *)
Definition reportedTargets (events : list event) : list text :=
  flat_map (fun e => match e with Reported targetPath _ => [targetPath] | _ => [] end)
           events.

(** The calls that build the target state and that apply it: Populate and
    the two Apply. *)
Definition applySide (e : event) : bool :=
  match e with
  | CallPopulate _ _ | CallTargetStateApply _ _ _ _ | CallEntryApply _ _ _ _ _ => true
  | _ => false
  end.

(** The value of a result, with a default for the error. *)
Definition okOr {A} (default : A) (r : result A) : A :=
  match r with Ok a => a | Err _ => default end.

(** The target state of the example host and the state in which
    getTargetState leaves the configuration there. *)
Definition exampleTargetState : TargetState.t :=
  okOr (NewTargetState [] (GPG exampleConfig) [] ∅ None [] 0)
       (fst (getTargetState None (exampleState exampleConfig None))).

Definition exampleStatePopulated : State :=
  snd (getTargetState None (exampleState exampleConfig None)).

(** ** Specifications of the methods *)

Section Keeps.

Context `{Runtime}.

(** [keeps fs0 m0 Q m]: run from a configuration with file system [fs0]
    and mutator [m0], the computation leaves both in place and adds only
    events that satisfy [Q]. *)
Definition keeps (fs0 : FS) (m0 : Mutator) (Q : event -> Prop) {A} (m : M A) : Prop :=
  forall s r s',
    fs (config s) = fs0 -> mutator (config s) = m0 ->
    m s = (r, s') ->
    fs (config s') = fs0 /\ mutator (config s') = m0 /\
    exists evs, events s' = events s ++ evs /\ Forall Q evs.

(** The state after [entry.Apply] has been called in [s] and left the
    host as [w']. *)
Definition afterApply (fs' : FS) (m : Mutator) (follow : bool)
    (opts : ApplyOptions.t) (entry : Entry) (s : State) (w' : World) : State :=
  {| config := config s; world := w';
     events := events s ++ [CallEntryApply entry fs' m follow opts] |}.

End Keeps.

(** Events of the stages that read the host and the source state. *)
Definition readOnlyEvent (fs0 : FS) (m0 : Mutator) (e : event) : Prop :=
  wellHanded fs0 m0 e /\ handedMutator e = None /\ reportedTargets [e] = [].

(** ** Further definitions *)

(** The number of occurrences of a rune, [strings.Count(s, string(r))]. *)
Definition countRune (r : rune) (s : text) : nat :=
  length (List.filter (fun x => Z.eqb x r) s).

Section NamedTargetsDefs.

Context `{Runtime}.

(** What getEntries finds for an argument on the host [w]: the entry that
    [ts.Get] returns for the absolute path of the argument. *)
Definition found (ts : TargetState.t) (fs0 : FS) (w : World) (arg : text) (entry : Entry)
  : Prop :=
  exists targetPath,
    filepathAbs arg w = Ok targetPath /\ Get ts fs0 targetPath w = Ok (Some entry).

(** Why getEntries fails at an argument: [filepath.Abs] or [ts.Get] fails,
    or [ts.Get] returns no entry. *)
Definition notFound (ts : TargetState.t) (fs0 : FS) (w : World) (arg : text) (err : error)
  : Prop :=
  filepathAbs arg w = Err err \/
  exists targetPath,
    filepathAbs arg w = Ok targetPath /\
    (Get ts fs0 targetPath w = Err err \/
     (Get ts fs0 targetPath w = Ok None /\ err = ErrNotInSourceState arg)).

End NamedTargetsDefs.

(** [data[key] = value] under a condition. *)
Definition putIf (key : text) (o : option value) (data : gmap text value)
  : gmap text value :=
  match o with Some v => <[key := v]> data | None => data end.

Section DefaultDataDefs.

Context `{Runtime}.

(** The keys that getDefaultData may set under a condition, and their
    values on the host. *)
Definition groupValue (w : World) (currentUser : user.User) : option value :=
  match userLookupGroupId (user.Gid currentUser) w with
  | Ok group => Some (str (user.Name group))
  | Err _ => None
  end.

Definition osReleaseValue (w : World) (fs0 : FS) : option value :=
  match getOSRelease fs0 w with
  | Ok (Some visit) =>
      Some (VOther (SStringMap
                      (upperSnakeCaseToCamelCaseMapIn runeToLower runeToTitle visit)))
  | _ => None
  end.

Definition kernelValue (w : World) (fs0 : FS) : option value :=
  match getKernelInfo fs0 w with
  | Ok (Some kernelInfo) => Some (VOther (SStringMap kernelInfo))
  | _ => None
  end.

End DefaultDataDefs.

(** A configuration whose data sets the key chezmoi, and one with a GPG
    recipient of the old kind. *)
Definition shadowConfig : Config :=
  {| configFile := configFile exampleConfig; fs := fs exampleConfig;
     mutator := mutator exampleConfig; SourceDir := SourceDir exampleConfig;
     DestDir := DestDir exampleConfig; Umask := Umask exampleConfig;
     DryRun := false; Follow := false; Remove := false; Verbose := false;
     GPG := GPG exampleConfig; GPGRecipient := GPGRecipient exampleConfig;
     Template := Template exampleConfig;
     Data := {[ T "chezmoi" := str (T "mine"); T "email" := str (T "me@example.com") ]};
     templateFuncs := templateFuncs exampleConfig; Stdout := Stdout exampleConfig;
     bds := bds exampleConfig; scriptStateBucket := scriptStateBucket exampleConfig |}.


(** ** Mutations, commands and the terminal *)

(** [os.FileInfo], as far as the configuration looks at it. *)
Record FileInfo := {
  IsDir : bool;
}.

Inductive Reader := ReaderHandle (id : N).

Module exec.
(** [exec.Cmd] of os/exec (Go 1.13), the fields that [exec.Command], run
    and output set. *)
Record Cmd := {
  Path : text;
  Args : list text;
  Dir : text;
  Stdin : option Reader;
  Stdout : option Writer;
  Stderr : option Writer;
  lookPathErr : option error;
}.

(** The path of [exec.Command(name, ...)]: a name without path separators,
    one that [filepath.Base] returns as it is, is looked up with
    [exec.LookPath]; the path found replaces the name, an error leaves the
    name and is kept in the command. *)
Definition commandPath (base : text -> text) (lookPath : text -> result text)
    (name : text) : text :=
  if bool_decide (base name = name) then
    match lookPath name with
    | Ok lp => lp
    | Err _ => name
    end
  else name.

Definition commandPathErr (base : text -> text) (lookPath : text -> result text)
    (name : text) : option error :=
  if bool_decide (base name = name) then
    match lookPath name with
    | Ok _ => None
    | Err err => Some err
    end
  else None.

(** [exec.Command(name, arg...)], with [filepath.Base] and [exec.LookPath]
    on the host as it is at the call. *)
Definition Command (base : text -> text) (lookPath : text -> result text)
    (name : text) (arg : list text) : Cmd :=
  {| Path := commandPath base lookPath name; Args := name :: arg; Dir := [];
     Stdin := None; Stdout := None; Stderr := None;
     lookPathErr := commandPathErr base lookPath name |}.

Definition withDir (cmd : Cmd) (dir : text) : Cmd :=
  {| Path := Path cmd; Args := Args cmd; Dir := dir;
     Stdin := Stdin cmd; Stdout := Stdout cmd; Stderr := Stderr cmd;
     lookPathErr := lookPathErr cmd |}.

Definition withStdio (cmd : Cmd) (stdin : Reader) (stdout stderr : Writer) : Cmd :=
  {| Path := Path cmd; Args := Args cmd; Dir := Dir cmd;
     Stdin := Some stdin; Stdout := Some stdout; Stderr := Some stderr;
     lookPathErr := lookPathErr cmd |}.
End exec.

(** The [VCS] interface of package cmd, the methods the configuration
    calls.  A nil slice of arguments is [None]. *)
Record VCS := {
  AddArgs : text -> option (list text);
  CommitArgs : text -> list text;
  ParseStatusOutput : text -> result value;
  PushArgs : option (list text);
  StatusArgs : list text;
}.

Record sourceVCSConfig := {
  Command : text;
  AutoCommit : bool;
  AutoPush : bool;
  NotGit : bool;
}.

(** The fields of Config that the functions above do not use and the ones
    below do; a configuration is a [Config] together with these. *)
Record ConfigMore := {
  err : option error;
  SourceVCS : sourceVCSConfig;
  Stdin : Reader;
  Stderr : Writer;
}.

(** A template after [template.New(name).Funcs(funcs).Parse(text)]. *)
Record parsedTemplate := {
  templateName : text;
  templateFuncMap : option (gmap text templateFunc);
  templateText : text;
}.

(** What the functions below call in addition: the environment, the file
    system and the mutator of the configuration, the standard output of the
    process, the packages os/exec, strings and text/template, and the
    tables [vcses] and [assets] of package cmd.  [stringsTrimSpace] and
    [stringsSplitChars] are [strings.TrimSpace(s)] and
    [strings.Split(s, "")] on the bytes of a string; both decode UTF-8. *)
Class Machine `{Runtime} := {
  osGetenv : text -> World -> text;
  filepathBase : text -> text;
  execLookPath : text -> World -> result text;
  stringsTrimSpace : list Byte.byte -> list Byte.byte;
  stringsSplitChars : list Byte.byte -> list (list Byte.byte);
  fsStat : FS -> text -> World -> result FileInfo;
  fsRawPath : FS -> text -> World -> result text;
  chezmoiIsPrivate : FS -> text -> bool -> World -> result bool;
  mutatorChmod : Mutator -> text -> Z -> World -> option error * World;
  mutatorMkdir : Mutator -> text -> Z -> World -> option error * World;
  vfsMkdirAll : Mutator -> text -> Z -> World -> option error * World;
  mutatorRunCmd : Mutator -> exec.Cmd -> World -> option error * World;
  mutatorIdempotentCmdOutput : Mutator -> exec.Cmd -> World -> result text * World;
  fmtPrintf : list Byte.byte -> World -> option error * World;
  templateParse : text -> option (gmap text templateFunc) -> text -> option error;
  templateExecute : parsedTemplate -> value -> result text;
  vcses : gmap text VCS;
  assets : gmap text text;
}.

(** What the configuration asks the mutator and the terminal to do. *)
Inductive action :=
| DoChmod (mutator : Mutator) (name : text) (mode : Z)
| DoMkdirAll (mutator : Mutator) (path : text) (perm : Z)
| DoMkdir (mutator : Mutator) (name : text) (perm : Z)
| DoRunCmd (mutator : Mutator) (cmd : exec.Cmd)
| DoCmdOutput (mutator : Mutator) (cmd : exec.Cmd)
| DoPrintf (output : list Byte.byte).

Section Sys.

Context `{Machine}.

(** The host and what has been asked of it so far, each request with the
    error it returned. *)
Record Sys := {
  machine : World;
  done : list (action * option error);
}.

(** A function returning [(A, error)] that reads and changes the host; the
    receiver is not changed by the functions below and is an argument. *)
Definition IO (A : Type) : Type := Sys -> result A * Sys.

Definition retS {A} (a : A) : IO A := fun s => (Ok a, s).
Definition failS {A} (e : error) : IO A := fun s => (Err e, s).
Definition bindS {A B} (m : IO A) (k : A -> IO B) : IO B :=
  fun s => match m s with
           | (Ok a, s') => k a s'
           | (Err e, s') => (Err e, s')
           end.
(** A call that reads the host. *)
Definition askS {A} (f : World -> A) : IO A := fun s => (Ok (f (machine s)), s).
(** A call that reads the host and returns [(A, error)]. *)
Definition tryS {A} (f : World -> result A) : IO A := fun s => (f (machine s), s).
(** A call that changes the host and returns an error or nil. *)
Definition doS (a : action) (f : World -> option error * World) : IO unit :=
  fun s => let '(e, w) := f (machine s) in
           (match e with Some e => Err e | None => Ok tt end,
            {| machine := w; done := done s ++ [(a, e)] |}).
(** A call that changes the host and returns [(A, error)]. *)
Definition doOutS {A} (a : action) (f : World -> result A * World) : IO A :=
  fun s => let '(r, w) := f (machine s) in
           (r, {| machine := w;
                  done := done s ++ [(a, match r with Ok _ => None | Err e => Some e end)] |}).

End Sys.

Notation "x <~~ m ; k" := (bindS m (fun x => k))
  (at level 20, m at level 100, k at level 200, only parsing).

(** [x &^ y]. *)
Definition andNot (x y : Z) : Z := Z.ldiff x y.

(** ** The source directory, commands and the editor
       (cmd/config.go, lines 209-302, 379-389 and 473-543) *)



Definition commitMessageTemplateAsset : text :=
  T "assets/templates/COMMIT_MESSAGE.tmpl".

(** [B "abc"] is the bytes of the Go string literal ["abc"]. *)
Definition B (s : string) : list Byte.byte := list_byte_of_string s.

Section Commands.

Context `{Machine}.

(** ensureNoError ensures that no error was encountered when loading c. *)
Definition ensureNoError (more : ConfigMore) : option error :=
  match err more with
  | Some _ => Some (ErrOther (T "config contains errors, aborting"))
  | None => None
  end.

Definition ensureSourceDirectory (c : Config) : IO unit :=
  info <~~ askS (fsStat (fs c) (SourceDir c));
  match info with
  | Ok info =>
      if IsDir info then
        private <~~ tryS (chezmoiIsPrivate (fs c) (SourceDir c) true);
        if negb private then
          doS (DoChmod (mutator c) (SourceDir c) (andNot 448 (FileMode (Umask c))))
              (mutatorChmod (mutator c) (SourceDir c) (andNot 448 (FileMode (Umask c))))
        else retS tt
      else failS (ErrOther (SourceDir c ++ T ": not a directory"))
  | Err err =>
      if IsNotExist err then
        _ <~~ doS (DoMkdirAll (mutator c) (filepathDir (SourceDir c))
                              (andNot 511 (FileMode (Umask c))))
                  (vfsMkdirAll (mutator c) (filepathDir (SourceDir c))
                               (andNot 511 (FileMode (Umask c))));
        doS (DoMkdir (mutator c) (SourceDir c) (andNot 448 (FileMode (Umask c))))
            (mutatorMkdir (mutator c) (SourceDir c) (andNot 448 (FileMode (Umask c))))
      else failS err
  end.



Definition getVCS (more : ConfigMore) : result VCS :=
  match vcses !! filepathBase (Command (SourceVCS more)) with
  | Some vcs => Ok vcs
  | None => Err (ErrOther (Command (SourceVCS more) ++ T ": unsupported source VCS command"))
  end.

Definition getAsset (name : text) : result text :=
  match assets !! name with
  | Some asset => Ok asset
  | None => Err (ErrOther (name ++ T ": not found"))
  end.

(** The command of run and output, with [cmd.Dir] set when [dir] is not
    empty. *)
Definition commandIn (c : Config) (dir name : text) (argv : list text) : IO exec.Cmd :=
  cmd <~~ askS (fun w => exec.Command filepathBase (fun file => execLookPath file w)
                                      name argv);
  if negb (isEmpty dir) then
    rawPath <~~ tryS (fsRawPath (fs c) dir);
    retS (exec.withDir cmd rawPath)
  else retS cmd.

Definition output (c : Config) (dir name : text) (argv : list text) : IO text :=
  cmd <~~ commandIn c dir name argv;
  doOutS (DoCmdOutput (mutator c) cmd) (mutatorIdempotentCmdOutput (mutator c) cmd).

(** run runs name argv... in dir. *)
Definition run (c : Config) (more : ConfigMore) (dir name : text) (argv : list text)
  : IO unit :=
  cmd <~~ commandIn c dir name argv;
  let cmd := exec.withStdio cmd (Stdin more) (Stdout c) (Stdout c) in
  doS (DoRunCmd (mutator c) cmd) (mutatorRunCmd (mutator c) cmd).


Definition liftS {A} (r : result A) : IO A := fun s => (r, s).

Definition autoCommit (c : Config) (more : ConfigMore) (vcs : VCS) : IO unit :=
  match AddArgs vcs (T ".") with
  | None => failS (ErrOther (Command (SourceVCS more) ++ T ": autocommit not supported"))
  | Some addArgs =>
      _ <~~ run c more (SourceDir c) (Command (SourceVCS more)) addArgs;
      output <~~ output c (SourceDir c) (Command (SourceVCS more)) (StatusArgs vcs);
      status <~~ liftS (ParseStatusOutput vcs output);
      commitMessageText <~~ liftS (getAsset commitMessageTemplateAsset);
      commitMessageTmpl <~~
        liftS (match templateParse (T "commit_message") (templateFuncs c) commitMessageText with
               | Some err => Err err
               | None => Ok {| templateName := T "commit_message";
                               templateFuncMap := templateFuncs c;
                               templateText := commitMessageText |}
               end);
      sb <~~ liftS (templateExecute commitMessageTmpl status);
      run c more (SourceDir c) (Command (SourceVCS more)) (CommitArgs vcs sb)
  end.

Definition autoPush (c : Config) (more : ConfigMore) (vcs : VCS) : IO unit :=
  match PushArgs vcs with
  | None => failS (ErrOther (Command (SourceVCS more) ++ T ": autopush not supported"))
  | Some pushArgs => run c more (SourceDir c) (Command (SourceVCS more)) pushArgs
  end.

Definition autoCommitAndAutoPush (c : Config) (more : ConfigMore) : IO unit :=
  vcs <~~ liftS (getVCS more);
  if DryRun c then retS tt
  else
    _ <~~ (if AutoCommit (SourceVCS more) || AutoPush (SourceVCS more)
           then autoCommit c more vcs else retS tt);
    if AutoPush (SourceVCS more) then autoPush c more vcs else retS tt.

(** [strings.Join] on the bytes of strings. *)
Fixpoint JoinBytes (pieces : list (list Byte.byte)) (sep : list Byte.byte)
  : list Byte.byte :=
  match pieces with
  | [] => []
  | [piece] => piece
  | piece :: pieces' => piece ++ sep ++ JoinBytes pieces' sep
  end.

(** The text prompt prints:
    [fmt.Sprintf("%s [%s]? ", s, strings.Join(strings.Split(choices, ""), ","))]. *)
Definition promptText (s choices : list Byte.byte) : list Byte.byte :=
  s ++ B " [" ++ JoinBytes (stringsSplitChars choices) (B ",") ++ B "]? ".

(** prompt, on the bytes of its strings.  [reads] are the results of the
    calls of [r.ReadString('\n')] in order; the loop has no bound of its
    own, and a run that needs more reads than [reads] has is [None].
    [len(line) == 1] is a line of one byte, and [strings.IndexByte] looks
    for that byte among the bytes of [choices]. *)
Fixpoint prompt (s choices : list Byte.byte) (reads : list (result (list Byte.byte)))
    (sys : Sys) : option (result Byte.byte * Sys) :=
  match doS (DoPrintf (promptText s choices)) (fmtPrintf (promptText s choices)) sys with
  | (Err err, sys') => Some (Err err, sys')
  | (Ok _, sys') =>
      match reads with
      | [] => None
      | Err err :: _ => Some (Err err, sys')
      | Ok line :: reads' =>
          match stringsTrimSpace line with
          | [b] =>
              if existsb (Byte.eqb b) choices then Some (Ok b, sys')
              else prompt s choices reads' sys'
          | _ => prompt s choices reads' sys'
          end
      end
  end.

End Commands.

Section DefaultDirs.

Context `{Runtime}.

(** getDefaultSourceDir: the first existing [dataDir/chezmoi], the XDG
    default otherwise. *)
Definition getDefaultSourceDir (bds : BaseDirectorySpecification) (w : World) : text :=
  let candidates :=
    map (fun dataDir => filepathJoin [dataDir; T "chezmoi"]) (DataDirs bds) in
  match List.find (fun path => exists_ path w) candidates with
  | Some sourceDir => sourceDir
  | None => filepathJoin [DataHome bds; T "chezmoi"]
  end.

End DefaultDirs.

(** ** Calls on a TAR system *)

(** The writing methods of a System, as the one who applies a target state
    calls them. *)
Inductive systemCall :=
| CallChmod (name : text) (mode : Z)
| CallMkdir (name : text) (perm : Z)
| CallRemoveAll (name : text)
| CallRename (oldpath newpath : text)
| CallRunScript (name : text) (data : list Byte.byte)
| CallWriteFile (filename : text) (data : list Byte.byte) (perm : Z)
| CallWriteSymlink (oldname newname : text).

Section SystemCalls.

Context `{tar.Writer}.

Definition perform (s : TARSystem) (call : systemCall) : option error * TARSystem :=
  match call with
  | CallChmod name mode => Chmod s name mode
  | CallMkdir name perm => Mkdir s name perm
  | CallRemoveAll name => RemoveAll s name
  | CallRename oldpath newpath => Rename s oldpath newpath
  | CallRunScript name data => RunScript s name data
  | CallWriteFile filename data perm => WriteFile s filename data perm
  | CallWriteSymlink oldname newname => WriteSymlink s oldname newname
  end.

(** The calls one after the other, whatever each returns; the errors in
    order and the system at the end. *)
Fixpoint performAll (s : TARSystem) (calls : list systemCall)
  : list (option error) * TARSystem :=
  match calls with
  | [] => ([], s)
  | call :: calls' =>
      let '(err, s') := perform s call in
      let '(errs, s'') := performAll s' calls' in
      (err :: errs, s'')
  end.

End SystemCalls.

(** The calls a TAR system refuses: Chmod, RemoveAll and Rename. *)
Definition refused (call : systemCall) : bool :=
  match call with
  | CallChmod _ _ | CallRemoveAll _ | CallRename _ _ => true
  | _ => false
  end.

(** ** Properties of the requests *)

Section Requests.

Context `{Machine}.

(** A request ensureSourceDirectory may make: of the configuration's
    mutator, on the source directory with no bit outside 0o700, or on its
    parent with no bit outside 0o777, and with no bit of the umask. *)
Definition permissionRequest (c : Config) (a : action) : Prop :=
  match a with
  | DoChmod m name mode | DoMkdir m name mode =>
      m = mutator c /\ name = SourceDir c /\
      Z.ldiff mode 448 = 0 /\ Z.land mode (FileMode (Umask c)) = 0
  | DoMkdirAll m path perm =>
      m = mutator c /\ path = filepathDir (SourceDir c) /\
      Z.ldiff perm 511 = 0 /\ Z.land perm (FileMode (Umask c)) = 0
  | _ => False
  end.

(** The command of an action, if it is one. *)
Definition commandOf (a : action) : option exec.Cmd :=
  match a with
  | DoRunCmd _ cmd | DoCmdOutput _ cmd => Some cmd
  | _ => None
  end.

(** A command of the source VCS, made on the host [w]: run by the
    configuration's mutator, with [SourceVCS.Command] as its name
    ([Args[0]]), in the raw path that the source directory has on [w]. *)
Definition vcsCommand (c : Config) (more : ConfigMore) (w : World) (a : action) : Prop :=
  match a with
  | DoRunCmd m cmd | DoCmdOutput m cmd =>
      m = mutator c /\
      (exists argv, exec.Args cmd = Command (SourceVCS more) :: argv) /\
      (if isEmpty (SourceDir c) then exec.Dir cmd = []
       else fsRawPath (fs c) (SourceDir c) w = Ok (exec.Dir cmd))
  | _ => False
  end.

(** The request [a], made on the host [w], returned [e] and left the host
    [w']. *)
Definition performed (a : action) (w : World) (e : option error) (w' : World) : Prop :=
  match a with
  | DoChmod m name mode => mutatorChmod m name mode w = (e, w')
  | DoMkdirAll m path perm => vfsMkdirAll m path perm w = (e, w')
  | DoMkdir m name perm => mutatorMkdir m name perm w = (e, w')
  | DoRunCmd m cmd => mutatorRunCmd m cmd w = (e, w')
  | DoCmdOutput m cmd =>
      exists r, mutatorIdempotentCmdOutput m cmd w = (r, w') /\
                e = match r with Ok _ => None | Err err => Some err end
  | DoPrintf output => fmtPrintf output w = (e, w')
  end.

(** [trace Q w new w']: the requests [new] were made one after the other,
    the first on the host [w], each next one on the host the one before
    left, and the last left [w']; [Q] holds of each request and the host it
    was made on. *)
Fixpoint trace (Q : World -> action -> Prop) (w : World)
    (new : list (action * option error)) (w' : World) : Prop :=
  match new with
  | [] => w' = w
  | (a, e) :: rest =>
      Q w a /\ exists w1, performed a w e w1 /\ trace Q w1 rest w'
  end.

(** The arguments of the command of a request. *)
Definition requested (a : action) : list text :=
  match commandOf a with
  | Some cmd => exec.Args cmd
  | None => []
  end.

(** The requests that returned nil. *)
Definition succeeded (request : action * option error) : Prop := snd request = None.

(** [follows bound Q m]: the computation makes at most [bound] requests,
    one after the other on the host, each of them satisfies [Q] on the host
    it is made on, every request but the last one returned nil, and so did
    the last one when the computation returns no error. *)
Definition follows (bound : nat) (Q : World -> action -> Prop) {A} (m : IO A) : Prop :=
  forall s r s',
    m s = (r, s') ->
    exists new,
      done s' = done s ++ new /\ (length new <= bound)%nat /\
      trace Q (machine s) new (machine s') /\
      Forall succeeded (removelast new) /\
      ((exists a, r = Ok a) -> Forall succeeded new).

(** A line that prompt takes as the answer [b], and one it asks again
    after. *)
Definition answers (choices line : list Byte.byte) (b : Byte.byte) : Prop :=
  stringsTrimSpace line = [b] /\ In b choices.

Definition rejected (choices line : list Byte.byte) : Prop :=
  forall b, ~ answers choices line b.

End Requests.

(** ** A machine for running examples *)

Definition gitVCS : VCS :=
  {| AddArgs := fun path => Some [T "add"; path];
     CommitArgs := fun message => [T "commit"; T "--message"; message];
     ParseStatusOutput := fun output => Ok (str output);
     PushArgs := Some [T "push"];
     StatusArgs := [T "status"; T "--porcelain=v2"] |}.

(** [strings.TrimSpace] where every byte is ASCII. *)
Definition asciiSpace (b : Byte.byte) : bool :=
  existsb (Byte.eqb b) [Byte.x09; Byte.x0a; Byte.x0b; Byte.x0c; Byte.x0d; Byte.x20].

Fixpoint trimLeftAscii (s : list Byte.byte) : list Byte.byte :=
  match s with
  | b :: rest => if asciiSpace b then trimLeftAscii rest else s
  | [] => []
  end.

Definition trimAscii (s : list Byte.byte) : list Byte.byte :=
  List.rev (trimLeftAscii (List.rev (trimLeftAscii s))).

(** On the example machine EDITOR is set and VISUAL is not, a path exists
    once it has been written, programs are found in /usr/bin, the input is
    ASCII and every command succeeds. *)
#[global] Instance exampleMachine : @Machine exampleRuntime := {|
  osGetenv := fun name _ =>
    if bool_decide (name = T "EDITOR") then T "code  --wait" else [];
  filepathBase := fun path => List.last (Split path slash) [];
  execLookPath := fun file _ => Ok (T "/usr/bin/" ++ file);
  stringsTrimSpace := trimAscii;
  stringsSplitChars := map (fun b => [b]);
  fsStat := fun _ path w =>
    if bool_decide (path ∈ written w) then Ok {| IsDir := true |} else Err ErrNotExist;
  fsRawPath := fun _ path _ => Ok path;
  chezmoiIsPrivate := fun _ _ _ _ => Ok false;
  mutatorChmod := fun _ _ _ w => (None, w);
  mutatorMkdir := fun _ name _ w => (None, hostWrite w name);
  vfsMkdirAll := fun _ path _ w => (None, hostWrite w path);
  mutatorRunCmd := fun _ _ w => (None, w);
  mutatorIdempotentCmdOutput := fun _ _ w => (Ok (T "1 .M dot_bashrc"), w);
  fmtPrintf := fun _ w => (None, w);
  templateParse := fun _ _ _ => None;
  templateExecute := fun tmpl _ => Ok (templateText tmpl);
  vcses := {[ T "git" := gitVCS ]};
  assets := {[ commitMessageTemplateAsset := T "Update dotfiles" ]};
|}.

Definition exampleMore : ConfigMore :=
  {| err := None;
     SourceVCS := {| Command := T "/usr/bin/git"; AutoCommit := false;
                     AutoPush := true; NotGit := false |};
     Stdin := ReaderHandle 0;
     Stderr := WriterHandle 2 |}.

Definition exampleSys : Sys := {| machine := exampleHost None; done := [] |}.

(** The arguments of the commands of autoCommit and autoPush, in the order
    of the source: add, status, commit with [message], push. *)
Definition vcsPlan (more : ConfigMore) (vcs : VCS) (message : text) : list (list text) :=
  [Command (SourceVCS more) :: default [] (AddArgs vcs (T "."));
   Command (SourceVCS more) :: StatusArgs vcs;
   Command (SourceVCS more) :: CommitArgs vcs message;
   Command (SourceVCS more) :: default [] (PushArgs vcs)].

(** ** Properties of the case conversion *)

Lemma Split_nonempty s sep : Split s sep <> [].
Proof.
  destruct s as [|r rest]; simpl; [discriminate|].
  destruct (Z.eqb r sep); [discriminate|].
  destruct (Split rest sep); discriminate.
Qed.

Lemma Join_Split s sep : Join (Split s sep) [sep] = s.
Proof.
  induction s as [|r rest IH]; simpl; [reflexivity|].
  destruct (Z.eqb_spec r sep) as [->|Hne].
  - pose proof (Split_nonempty rest sep) as Hn.
    destruct (Split rest sep) as [|w ws]; [contradiction|].
    simpl in *. now rewrite IH.
  - pose proof (Split_nonempty rest sep) as Hn.
    destruct (Split rest sep) as [|w ws]; [contradiction|].
    destruct ws as [|w' ws]; simpl in *; now rewrite <- IH.
Qed.

Lemma Split_sep_free s sep : Forall (fun w => ~ In sep w) (Split s sep).
Proof.
  induction s as [|r rest IH]; simpl.
  - constructor; [tauto | constructor].
  - destruct (Z.eqb_spec r sep) as [->|Hne].
    + constructor; [simpl; tauto | exact IH].
    + destruct (Split rest sep) as [|w ws].
      * constructor; [|constructor]. simpl. intros [H|[]]. congruence.
      * inversion IH; subst. constructor; [|assumption].
        simpl. intros [H|H]; [congruence | contradiction].
Qed.

Lemma Join_nil_sep words : Join words [] = concat words.
Proof.
  induction words as [|w ws IH]; [reflexivity|].
  destruct ws as [|w' ws]; simpl in *.
  - now rewrite app_nil_r.
  - now rewrite IH.
Qed.

Section CaseConversionFacts.

Variable unicodeToLower : rune -> rune.
Variable unicodeToTitle : rune -> rune.

Local Abbreviation range := (camelRange unicodeToLower unicodeToTitle).
Local Abbreviation later := (laterWord unicodeToLower unicodeToTitle).
Local Abbreviation camel := (upperSnakeCaseToCamelCase unicodeToLower unicodeToTitle).

(** Past index 0 the loop rewrites the remaining words one by one and
    leaves the words before them alone. *)
Lemma camelRange_later rest : forall pre : list text,
  pre <> [] ->
  range (length rest) (length pre) (pre ++ rest)
  = pre ++ map later rest.
Proof.
  induction rest as [|word rest IH]; intros pre Hpre; simpl.
  - reflexivity.
  - rewrite lookup_app_r by lia. rewrite Nat.sub_diag. simpl.
    assert (Hstep : camelStep unicodeToLower unicodeToTitle
                      (length pre) word (pre ++ word :: rest)
                    = (pre ++ [later word]) ++ rest).
    { unfold camelStep, laterWord.
      destruct (Nat.eqb_spec (length pre) 0) as [H0|_].
      { destruct pre; [contradiction | discriminate]. }
      rewrite <- app_assoc. simpl.
      destruct (isWellKnownAbbreviation word); simpl; [reflexivity|].
      rewrite insert_app_r_alt by lia. now rewrite Nat.sub_diag. }
    rewrite Hstep.
    replace (S (length pre)) with (length (pre ++ [later word]))
      by (rewrite length_app; simpl; lia).
    rewrite IH by (now destruct pre).
    now rewrite <- app_assoc.
Qed.

Lemma camelRange_words first rest :
  range (length (first :: rest)) 0 (first :: rest)
  = ToLower unicodeToLower first :: map later rest.
Proof.
  simpl. unfold camelStep. simpl.
  apply (camelRange_later rest [ToLower unicodeToLower first]).
  discriminate.
Qed.

Lemma camel_words s :
  camel s = camelCaseOfWords unicodeToLower unicodeToTitle (Split s underscore).
Proof.
  unfold upperSnakeCaseToCamelCase.
  pose proof (Split_nonempty s underscore) as Hn.
  destruct (Split s underscore) as [|first later]; [contradiction|].
  rewrite camelRange_words, Join_nil_sep. reflexivity.
Qed.

(** What the fold over the visited entries leaves in the result. *)
Lemma camelMap_fold_elem (visit : list (text * text)) :
  forall (acc : gmap text text) (k' v : text),
  foldl (fun result kv => <[camel kv.1 := kv.2]> result) acc visit !! k' = Some v ->
  acc !! k' = Some v \/ exists k, (k, v) ∈ visit /\ k' = camel k.
Proof.
  induction visit as [|[k0 v0] visit IH]; intros acc k' v H; simpl in H.
  - now left.
  - apply IH in H as [H|(k & Hin & ->)].
    + destruct (decide (camel k0 = k')) as [<-|Hne].
      * rewrite lookup_insert_eq in H. injection H as ->.
        right. exists k0. split; [left | reflexivity].
      * rewrite lookup_insert_ne in H by assumption. now left.
    + right. exists k. split; [now right | reflexivity].
Qed.

Lemma camelMap_fold_dom (visit : list (text * text)) :
  forall (acc : gmap text text) (k' : text),
  is_Some (acc !! k') \/ (exists k v, (k, v) ∈ visit /\ k' = camel k) ->
  is_Some (foldl (fun result kv => <[camel kv.1 := kv.2]> result) acc visit !! k').
Proof.
  induction visit as [|[k0 v0] visit IH]; intros acc k' H; simpl.
  - destruct H as [H|(k & v & Hin & _)]; [assumption|].
    now apply elem_of_nil in Hin.
  - apply IH.
    destruct (decide (camel k0 = k')) as [<-|Hne].
    + left. rewrite lookup_insert_eq. eauto.
    + destruct H as [H|(k & v & Hin & ->)].
      * left. now rewrite lookup_insert_ne.
      * apply elem_of_cons in Hin as [Heq|Hin].
        -- injection Heq as -> ->. contradiction.
        -- right. eauto.
Qed.

End CaseConversionFacts.

Example camel_version_id :
  upperSnakeCaseToCamelCase asciiToLower asciiToUpper (T "VERSION_ID") = T "versionID".
Proof. vm_compute. reflexivity. Qed.

Example camel_pretty_name :
  upperSnakeCaseToCamelCase asciiToLower asciiToUpper (T "PRETTY_NAME") = T "prettyName".
Proof. vm_compute. reflexivity. Qed.

Example camel_id_first :
  upperSnakeCaseToCamelCase asciiToLower asciiToUpper (T "ID_LIKE__x") = T "idLikeX".
Proof. vm_compute. reflexivity. Qed.


Lemma isWellKnownAbbreviation_true word :
  isWellKnownAbbreviation word = true <->
  word = T "ANSI" \/ word = T "CPE" \/ word = T "ID" \/ word = T "URL".
Proof.
  unfold isWellKnownAbbreviation, wellKnownAbbreviations.
  rewrite bool_decide_eq_true, !elem_of_union, !elem_of_singleton. tauto.
Qed.

(** C8. upperSnakeCaseToCamelCase splits its argument on underscores (the
    fields joined by underscores give the argument back and hold no
    underscore), lowercases the first word, keeps a later word that is one
    of ANSI, CPE, ID, URL, title-cases the lowercased form of any other
    later word (its first rune goes through unicode.ToLower and then
    unicode.ToTitle, the others through unicode.ToLower), and concatenates
    the words.  upperSnakeCaseToCamelCaseMap,
    in whatever order the map is visited, yields a map whose keys are the
    converted keys of the argument and whose values are values of the
    argument under the key they belonged to; where no two keys convert to
    the same key, every entry [(k, v)] becomes the entry [(camel k, v)]. *)
Theorem upperSnakeCaseToCamelCase_words
    (unicodeToLower unicodeToTitle : rune -> rune) :
  let camel := upperSnakeCaseToCamelCase unicodeToLower unicodeToTitle in
  (forall s : text,
      let words := Split s underscore in
      Join words [underscore] = s /\
      Forall (fun w => ~ In underscore w) words /\
      exists first later,
        words = first :: later /\
        camel s = map unicodeToLower first
                  ++ concat (map (laterWord unicodeToLower unicodeToTitle) later)) /\
  (forall word : text,
      (word = T "ANSI" \/ word = T "CPE" \/ word = T "ID" \/ word = T "URL" ->
       laterWord unicodeToLower unicodeToTitle word = word) /\
      (~ (word = T "ANSI" \/ word = T "CPE" \/ word = T "ID" \/ word = T "URL") ->
       laterWord unicodeToLower unicodeToTitle word
       = match word with
         | [] => []
         | r :: runes => unicodeToTitle (unicodeToLower r) :: map unicodeToLower runes
         end)) /\
  (forall (m : gmap text text) (visit : list (text * text)),
      visit ≡ₚ map_to_list m ->
      let result := upperSnakeCaseToCamelCaseMapIn unicodeToLower unicodeToTitle visit in
      (forall k v, m !! k = Some v -> is_Some (result !! camel k)) /\
      (forall k' v, result !! k' = Some v -> exists k, m !! k = Some v /\ k' = camel k) /\
      ((forall k1 k2, is_Some (m !! k1) -> is_Some (m !! k2) ->
                      camel k1 = camel k2 -> k1 = k2) ->
       forall k v, m !! k = Some v -> result !! camel k = Some v)).
Proof.
  intros camel. split; [|split].
  - intros s words. split; [apply Join_Split|]. split; [apply Split_sep_free|].
    pose proof (Split_nonempty s underscore) as Hn.
    pose proof (camel_words unicodeToLower unicodeToTitle s) as Hc.
    fold words in Hn, Hc. destruct words as [|first later]; [contradiction|].
    exists first, later. split; [reflexivity | exact Hc].
  - intros word. unfold laterWord. split; intros H.
    + apply isWellKnownAbbreviation_true in H. now rewrite H.
    + destruct (isWellKnownAbbreviation word) eqn:E.
      * apply isWellKnownAbbreviation_true in E. contradiction.
      * destruct word as [|r runes]; reflexivity.
  - intros m visit Hperm result.
    assert (Hin : forall k v, (k, v) ∈ visit <-> m !! k = Some v).
    { intros k v. rewrite Hperm. apply elem_of_map_to_list. }
    assert (Hdom : forall k v, m !! k = Some v -> is_Some (result !! camel k)).
    { intros k v Hk. apply camelMap_fold_dom. right. exists k, v.
      split; [now apply Hin | reflexivity]. }
    assert (Hval : forall k' v, result !! k' = Some v ->
                                exists k, m !! k = Some v /\ k' = camel k).
    { intros k' v Hr. apply camelMap_fold_elem in Hr as [Hr|(k & Hk & ->)].
      - now rewrite lookup_empty in Hr.
      - exists k. split; [now apply Hin | reflexivity]. }
    split; [exact Hdom|]. split; [exact Hval|].
    intros Hinj k v Hk. destruct (Hdom k v Hk) as [v' Hv'].
    destruct (Hval _ _ Hv') as (k2 & Hk2 & Heq).
    assert (k = k2) as <- by (apply Hinj; eauto).
    congruence.
Qed.

Lemma upperSnakeCaseToCamelCase_words_witness :
  upperSnakeCaseToCamelCaseMapIn asciiToLower asciiToUpper
    [(T "VERSION_ID", T "20")] !! T "versionID" = Some (T "20") /\
  upperSnakeCaseToCamelCaseMapIn asciiToLower asciiToUpper
    [(T "PRETTY_NAME", T "Debian")] !! T "prettyName" = Some (T "Debian").
Proof.
  pose proof (upperSnakeCaseToCamelCase_words asciiToLower asciiToUpper) as H.
  destruct H as (_ & _ & H). split.
  - specialize (H {[ T "VERSION_ID" := T "20" ]} [(T "VERSION_ID", T "20")]).
    destruct H as (_ & _ & H).
    + now rewrite map_to_list_singleton.
    + apply (H ltac:(intros k1 k2 [? [<- _]%lookup_singleton_Some]
                       [? [<- _]%lookup_singleton_Some] _; reflexivity)
               (T "VERSION_ID") (T "20")).
      apply lookup_singleton_eq.
  - specialize (H {[ T "PRETTY_NAME" := T "Debian" ]} [(T "PRETTY_NAME", T "Debian")]).
    destruct H as (_ & _ & H).
    + now rewrite map_to_list_singleton.
    + apply (H ltac:(intros k1 k2 [? [<- _]%lookup_singleton_Some]
                       [? [<- _]%lookup_singleton_Some] _; reflexivity)
               (T "PRETTY_NAME") (T "Debian")).
      apply lookup_singleton_eq.
Defined.

(** ** validateKeys *)

Section ValueInduction.

Variable P : value -> Prop.
Hypothesis HMap : forall entries,
  Forall (fun kv => P (snd kv)) entries -> P (VMap entries).
Hypothesis HSlice : forall elems, Forall P elems -> P (VSlice elems).
Hypothesis HOther : forall s, P (VOther s).

Lemma value_nested_ind : forall data : value, P data.
Proof.
  fix IH 1. intros [entries|elems|s].
  - apply HMap.
    induction entries as [|kv entries IHe]; constructor; [apply IH | exact IHe].
  - apply HSlice.
    induction elems as [|v elems IHe]; constructor; [apply IH | exact IHe].
  - apply HOther.
Qed.

End ValueInduction.

Lemma find_append {A} (f : A -> bool) (l1 l2 : list A) :
  List.find f (l1 ++ l2)
  = match List.find f l1 with Some x => Some x | None => List.find f l2 end.
Proof.
  induction l1 as [|x l1 IH]; simpl; [reflexivity|].
  now destruct (f x).
Qed.

(** validateKeys stops at the first key, in visiting order, that the
    regular expression rejects. *)
Lemma validateKeys_first_rejected (re : text -> bool) (data : value) :
  validateKeys data re
  = option_map ErrInvalidKey (List.find (fun key => negb (re key)) (reachedKeys data)).
Proof.
  induction data as [entries IH|elems IH|s] using value_nested_ind.
  - simpl. induction entries as [|[key v] entries IHe]; [reflexivity|].
    inversion IH as [|? ? Hv Hrest]; subst. simpl in Hv. simpl.
    destruct (re key); simpl; [|reflexivity].
    rewrite find_append, Hv.
    destruct (List.find _ (reachedKeys v)); simpl; [reflexivity|].
    now apply IHe.
  - simpl. induction elems as [|v elems IHe]; [reflexivity|].
    inversion IH as [|? ? Hv Hrest]; subst. simpl.
    rewrite find_append, Hv.
    destruct (List.find _ (reachedKeys v)); simpl; [reflexivity|].
    now apply IHe.
  - reflexivity.
Qed.

Lemma find_none_forall {A} (f : A -> bool) (l : list A) :
  List.find (fun x => negb (f x)) l = None <-> Forall (fun x => f x = true) l.
Proof.
  induction l as [|x l IH]; simpl.
  - split; [constructor | reflexivity].
  - destruct (f x) eqn:E; simpl.
    + rewrite IH. split; [now constructor | now inversion 1].
    + split; [discriminate | inversion 1; congruence].
Qed.

Lemma find_some_split {A} (f : A -> bool) (l : list A) (x : A) :
  List.find (fun x => negb (f x)) l = Some x ->
  exists before after,
    l = before ++ x :: after /\ Forall (fun y => f y = true) before /\ f x = false.
Proof.
  induction l as [|y l IH]; simpl; [discriminate|].
  destruct (f y) eqn:E; simpl.
  - intros H. destruct (IH H) as (before & after & -> & Hb & Hx).
    exists (y :: before), after. repeat split; [now constructor | assumption].
  - intros [= <-]. exists [], l. repeat split; [constructor | assumption].
Qed.

Lemma identifierRegexp_true isLetter isDecimalDigit (key : text) :
  identifierRegexp isLetter isDecimalDigit key = true <->
  exists r rs,
    key = r :: rs /\
    (isLetter r = true \/ r = underscore) /\
    Forall (fun r => isLetter r = true \/ isDecimalDigit r = true \/ r = underscore) rs.
Proof.
  destruct key as [|r rs]; simpl.
  - split; [discriminate | intros (? & ? & [=] & _)].
  - rewrite andb_true_iff, orb_true_iff, Z.eqb_eq, forallb_forall.
    split.
    + intros [Hr Hrs]. exists r, rs. repeat split; [assumption|].
      apply List.Forall_forall. intros x Hx. specialize (Hrs x Hx).
      rewrite !orb_true_iff, Z.eqb_eq in Hrs. tauto.
    + intros (r' & rs' & [= <- <-] & Hr & Hrs). split; [assumption|].
      rewrite List.Forall_forall in Hrs.
      intros x Hx. specialize (Hrs x Hx).
      rewrite !orb_true_iff, Z.eqb_eq. tauto.
Qed.

(** C10. validateKeys returns nil exactly when every key of every map
    reached through nested [map[string]interface{}] and [[]interface{}]
    values matches the regular expression; the identifier expression
    matches a letter or underscore followed by letters, decimal digits or
    underscores; a value that is neither such a map nor such a slice is
    accepted; and an error names the first rejected key in visiting order. *)
Theorem validateKeys_identifier_keys
    (isLetter isDecimalDigit : rune -> bool) (data : value) :
  let re := identifierRegexp isLetter isDecimalDigit in
  (validateKeys data re = None <->
   Forall (fun key => re key = true) (reachedKeys data)) /\
  (forall key, re key = true <->
     exists r rs,
       key = r :: rs /\
       (isLetter r = true \/ r = underscore) /\
       Forall (fun r => isLetter r = true \/ isDecimalDigit r = true \/ r = underscore) rs) /\
  (forall s, validateKeys (VOther s) re = None) /\
  (forall err, validateKeys data re = Some err ->
     exists before key after,
       reachedKeys data = before ++ key :: after /\
       Forall (fun k => re k = true) before /\
       re key = false /\
       err = ErrInvalidKey key).
Proof.
  intros re. rewrite validateKeys_first_rejected.
  split; [|split; [|split]].
  - rewrite <- find_none_forall.
    destruct (List.find _ (reachedKeys data)); simpl; split; congruence.
  - apply identifierRegexp_true.
  - reflexivity.
  - intros err H.
    destruct (List.find _ (reachedKeys data)) as [key|] eqn:E; [|discriminate].
    injection H as <-. apply find_some_split in E as (before & after & ? & ? & ?).
    exists before, key, after. auto.
Qed.

Example validateKeys_nested_ok :
  validateKeys
    (VMap [(T "email", VOther (SString (T "a@b")));
           (T "hosts", VSlice [VMap [(T "name_1", VOther SNil)]; VOther (SInt 3)])])
    (identifierRegexp asciiIsLetter asciiIsDigit) = None.
Proof. reflexivity. Qed.

Example validateKeys_nested_bad :
  validateKeys
    (VMap [(T "email", VOther (SString (T "a@b")));
           (T "hosts", VSlice [VMap [(T "1name", VOther SNil)]; VMap [(T "x-y", VOther SNil)]])])
    (identifierRegexp asciiIsLetter asciiIsDigit) = Some (ErrInvalidKey (T "1name")).
Proof. reflexivity. Qed.

(** ** Ignore matcher *)

Lemma Match_fold_last (path : text) (post : list (text * bool)) :
  forall ignored : bool,
  Forall (fun pn => globMatch (fst pn) path = false) post ->
  foldl (fun ignored '(pattern, negated) =>
           if globMatch pattern path then negb negated else ignored)
        ignored post = ignored.
Proof.
  induction post as [|[pattern negated] post IH]; intros ignored H; simpl.
  - reflexivity.
  - inversion H as [|? ? Hp Hpost]; subst. simpl in Hp. rewrite Hp. now apply IH.
Qed.

(** C5. Match returns the outcome of the last pattern, in file order, that
    matches the path: true for a plain pattern, false for a negated one;
    false when no pattern matches.  For ["foo/*"; "!foo/keep.txt"] the path
    foo/a.txt is ignored and foo/keep.txt is not. *)
Theorem Match_last_pattern_wins :
  (forall (before after : list (text * bool)) (pattern : text) (negated : bool)
          (path : text),
      globMatch pattern path = true ->
      Forall (fun pn => globMatch (fst pn) path = false) after ->
      Match {| patterns := before ++ (pattern, negated) :: after |} path
      = negb negated) /\
  (forall (ps : PatternSet) (path : text),
      Forall (fun pn => globMatch (fst pn) path = false) (patterns ps) ->
      Match ps path = false) /\
  (let ps := {| patterns := map parsePatternLine [T "foo/*"; T "!foo/keep.txt"] |} in
   Match ps (T "foo/a.txt") = true /\ Match ps (T "foo/keep.txt") = false).
Proof.
  split; [|split].
  - intros before after pattern negated path Hm Hafter.
    unfold Match. simpl. rewrite foldl_app. simpl. rewrite Hm.
    now apply Match_fold_last.
  - intros ps path H. unfold Match. now apply Match_fold_last.
  - split; reflexivity.
Qed.

Lemma Match_last_pattern_wins_witness :
  Match {| patterns := [(T "*.txt", false); (T "keep.*", true); (T "*.md", false)] |}
        (T "keep.txt") = false.
Proof.
  apply (proj1 Match_last_pattern_wins
           [(T "*.txt", false)] [(T "*.md", false)] (T "keep.*") true (T "keep.txt")).
  - reflexivity.
  - repeat constructor.
Defined.

(** ** addTemplateFunc *)

(** The registry of a configuration: a nil map has no entries. *)
Lemma addTemplateFunc_fresh (c : Config) (key : text) (value : templateFunc) :
  (forall funcs, templateFuncs c = Some funcs -> funcs !! key = None) ->
  exists funcs',
    addTemplateFunc c key value = Returned (withTemplateFuncs c (Some funcs')) /\
    funcs' !! key = Some value /\
    forall other, other <> key ->
      funcs' !! other = match templateFuncs c with
                        | Some funcs => funcs !! other
                        | None => None
                        end.
Proof.
  intros Hfresh. unfold addTemplateFunc.
  destruct (templateFuncs c) as [funcs|] eqn:E.
  - rewrite (Hfresh funcs eq_refl). eexists. split; [reflexivity|].
    split; [apply lookup_insert_eq|].
    intros other Hne. now rewrite lookup_insert_ne.
  - rewrite lookup_empty. eexists. split; [reflexivity|].
    split; [apply lookup_insert_eq|].
    intros other Hne. rewrite lookup_insert_ne by congruence. apply lookup_empty.
Qed.

(** C7. addTemplateFunc panics when the key is already in the function
    registry; otherwise it returns, and in the configuration it leaves the
    registry (allocated first when it was nil) holds the pair, holds every
    other key as before, and no other field has changed: with a fresh key
    the panic is not reached. *)
Theorem addTemplateFunc_panics_on_duplicate
    (c : Config) (key : text) (value : templateFunc) :
  (forall funcs old,
      templateFuncs c = Some funcs -> funcs !! key = Some old ->
      addTemplateFunc c key value
      = Panicked (T "Config.addTemplateFunc: " ++ key ++ T " already defined")) /\
  ((forall funcs, templateFuncs c = Some funcs -> funcs !! key = None) ->
   (forall message, addTemplateFunc c key value <> Panicked message) /\
   exists c' funcs',
     addTemplateFunc c key value = Returned c' /\
     templateFuncs c' = Some funcs' /\
     funcs' !! key = Some value /\
     (forall other, other <> key ->
        funcs' !! other = match templateFuncs c with
                          | Some funcs => funcs !! other
                          | None => None
                          end) /\
     configFile c' = configFile c /\ fs c' = fs c /\ mutator c' = mutator c /\
     SourceDir c' = SourceDir c /\ DestDir c' = DestDir c /\ Umask c' = Umask c /\
     DryRun c' = DryRun c /\ Follow c' = Follow c /\ Remove c' = Remove c /\
     Verbose c' = Verbose c /\ GPG c' = GPG c /\ GPGRecipient c' = GPGRecipient c /\
     Template c' = Template c /\ Data c' = Data c /\ Stdout c' = Stdout c /\
     bds c' = bds c /\ scriptStateBucket c' = scriptStateBucket c).
Proof.
  split.
  - unfold addTemplateFunc. intros funcs old -> ->. reflexivity.
  - intros Hfresh. split.
    + intros message. unfold addTemplateFunc. destruct (templateFuncs c) as [funcs|].
      * now rewrite (Hfresh funcs eq_refl).
      * now rewrite lookup_empty.
    + destruct (addTemplateFunc_fresh c key value Hfresh) as (funcs' & Hrun & Hkey & Hother).
      exists (withTemplateFuncs c (Some funcs')), funcs'.
      split; [exact Hrun|]. split; [reflexivity|]. split; [exact Hkey|].
      split; [exact Hother|]. repeat split.
Qed.

(** ** TAR system *)

Lemma appendBody_new_member (archive : list member) (header : tar.Header)
    (data : list Byte.byte) :
  tar.Size header = Z.of_nat (length data) ->
  appendBody (archive ++ [{| memberHeader := header; memberBody := [] |}]) data
  = Some (archive ++ [{| memberHeader := header; memberBody := data |}]).
Proof.
  intros Hsize. unfold appendBody.
  rewrite rev_app_distr. simpl. rewrite Hsize, Z.leb_refl.
  now rewrite rev_involutive.
Qed.

(** C9. Chmod, RemoveAll and Rename of the TAR system return the
    permission error and leave the archive as it was.  RunScript runs
    nothing: it is WriteFile with mode 0700, which writes a header of a
    regular file with the script's name, the length of its body and mode
    0700, and then the body; on an archive in memory the result is one more
    member, that file. *)
Theorem TARSystem_no_mutation_no_execution `{tar.Writer} (s : TARSystem) :
  (forall name mode, Chmod s name mode = (Some ErrPermission, s)) /\
  (forall name, RemoveAll s name = (Some ErrPermission, s)) /\
  (forall oldpath newpath, Rename s oldpath newpath = (Some ErrPermission, s)) /\
  (forall name data,
      let header := fileHeader (headerTemplate s) name data (7 * 64) in
      tar.Typeflag header = tar.TypeReg /\
      tar.Name header = name /\
      tar.Size header = Z.of_nat (length data) /\
      tar.Mode header = 7 * 64 /\
      RunScript s name data = WriteFile s name data (7 * 64) /\
      RunScript s name data
      = match tar.WriteHeader (w s) header with
        | (Some err, w') => (Some err, withWriter s w')
        | (None, w') => (snd (fst (tar.Write w' data)),
                         withWriter s (snd (tar.Write w' data)))
        end) /\
  (forall (archive : list member) (template : tar.Header) name data,
      RunScript (memoryTAR archive template) name data
      = (None,
         memoryTAR (archive ++ [{| memberHeader := fileHeader template name data (7 * 64);
                                   memberBody := data |}])
                   template)).
Proof.
  repeat split.
  - unfold RunScript, WriteFile. simpl.
    destruct (tar.WriteHeader (w s) _) as [[err|] w']; [reflexivity|].
    now destruct (tar.Write w' data) as [[n err] w''].
  - intros archive template name data.
    unfold RunScript, WriteFile, memoryTAR. simpl.
    rewrite appendBody_new_member by reflexivity. reflexivity.
Qed.

Example TARSystem_script_member :
  snd (@RunScript memoryWriter
         {| w := []; headerTemplate :=
              {| tar.Typeflag := tar.TypeZero; tar.Name := []; tar.Linkname := [];
                 tar.Size := 0; tar.Mode := 0; tar.Uid := 1000; tar.Gid := 1000;
                 tar.Uname := T "user"; tar.Gname := T "user";
                 tar.ModTime := 0; tar.AccessTime := 0; tar.ChangeTime := 0 |} |}
         (T "install.sh") [Byte.x23; Byte.x21])
  = {| w := [{| memberHeader :=
                  {| tar.Typeflag := tar.TypeReg; tar.Name := T "install.sh";
                     tar.Linkname := []; tar.Size := 2; tar.Mode := 448;
                     tar.Uid := 1000; tar.Gid := 1000;
                     tar.Uname := T "user"; tar.Gname := T "user";
                     tar.ModTime := 0; tar.AccessTime := 0; tar.ChangeTime := 0 |};
                memberBody := [Byte.x23; Byte.x21] |}];
       headerTemplate :=
         {| tar.Typeflag := tar.TypeZero; tar.Name := []; tar.Linkname := [];
            tar.Size := 0; tar.Mode := 0; tar.Uid := 1000; tar.Gid := 1000;
            tar.Uname := T "user"; tar.Gname := T "user";
            tar.ModTime := 0; tar.AccessTime := 0; tar.ChangeTime := 0 |} |}.
Proof. reflexivity. Qed.

(** ** Source-name codec *)

Lemma HasPrefix_app (p s : text) : HasPrefix (p ++ s) p = true.
Proof. induction p as [|a p IH]; simpl; [reflexivity|]. now rewrite Z.eqb_refl. Qed.

Lemma TrimPrefix_app (p s : text) : TrimPrefix (p ++ s) p = s.
Proof.
  unfold TrimPrefix. rewrite HasPrefix_app.
  induction p as [|a p IH]; simpl; [reflexivity | exact IH].
Qed.

Lemma TrimPrefix_none (s p : text) : HasPrefix s p = false -> TrimPrefix s p = s.
Proof. unfold TrimPrefix. now intros ->. Qed.

Lemma HasPrefix_before_dot (p : text) :
  ~ In 46 p -> forall n r : text, HasPrefix (n ++ 46 :: r) p = HasPrefix n p.
Proof.
  induction p as [|a p IH]; intros Hp n r.
  - reflexivity.
  - destruct n as [|b n]; cbn [HasPrefix app].
    + destruct (Z.eqb_spec 46 a) as [<-|_]; [|reflexivity].
      exfalso. apply Hp. now left.
    + rewrite IH; [reflexivity|]. intros Hin. apply Hp. now right.
Qed.

Lemma HasSuffix_app (n sfx : text) : HasSuffix (n ++ sfx) sfx = true.
Proof. unfold HasSuffix. rewrite rev_app_distr. apply HasPrefix_app. Qed.

Lemma TrimSuffix_app (n sfx : text) : TrimSuffix (n ++ sfx) sfx = n.
Proof.
  unfold TrimSuffix. rewrite HasSuffix_app, length_app.
  replace (length n + length sfx - length sfx)%nat with (length n) by lia.
  now rewrite take_app_length.
Qed.

Lemma startsWithNone_prefix (prefixes : list text) (n p : text) :
  startsWithNone prefixes n = true -> In p prefixes -> HasPrefix n p = false.
Proof.
  unfold startsWithNone. rewrite forallb_forall.
  intros H Hin. apply negb_true_iff. now apply H.
Qed.

(** A prefix without a dot that is not at the head of the target name, and
    not at the head of the dot marker, is not at the head of what the name
    is written as. *)
Lemma nameTail_no_prefix (n : text) (t : bool) (p : text) :
  HasPrefix n p = false ->
  ~ In 46 p ->
  (forall x, HasPrefix (dotPrefix ++ x) p = false) ->
  HasPrefix (nameTail n t) p = false.
Proof.
  intros Hn Hp Hdot. unfold nameTail, dotName.
  destruct (HasPrefix n dot) eqn:E.
  - rewrite <- app_assoc. apply Hdot.
  - destruct t.
    + change TemplateSuffix with (46 :: T "tmpl").
      now rewrite HasPrefix_before_dot.
    + now rewrite app_nil_r.
Qed.

Lemma undotName_nameTail (n : text) (t : bool) :
  HasPrefix n dotPrefix = false ->
  undotName (nameTail n t) = n ++ (if t then TemplateSuffix else []).
Proof.
  intros Hn. unfold nameTail, dotName, undotName.
  destruct n as [|r n'].
  - now destruct t.
  - cbn [HasPrefix dot]. destruct (Z.eqb_spec r 46) as [->|Hr]; cbn [andb].
    + rewrite <- app_assoc, HasPrefix_app, TrimPrefix_app. reflexivity.
    + assert (H : HasPrefix ((r :: n') ++ (if t then TemplateSuffix else [])) dotPrefix = false).
      { destruct t.
        - change TemplateSuffix with (46 :: T "tmpl").
          rewrite HasPrefix_before_dot by (vm_compute; intuition discriminate).
          assumption.
        - now rewrite app_nil_r. }
      now rewrite H.
Qed.

Lemma suffix_read_back (n : text) (t : bool) :
  HasSuffix n TemplateSuffix = false ->
  let name := n ++ (if t then TemplateSuffix else []) in
  TrimSuffix name TemplateSuffix = n /\ HasSuffix name TemplateSuffix = t.
Proof.
  intros Hn. destruct t; cbn zeta.
  - now rewrite TrimSuffix_app, HasSuffix_app.
  - rewrite app_nil_r. unfold TrimSuffix. now rewrite Hn.
Qed.

Lemma HasPrefix_flag (b : bool) (p rest : text) :
  HasPrefix rest p = false -> HasPrefix (flagPrefix b p ++ rest) p = b.
Proof. destruct b; simpl; [intros _; apply HasPrefix_app | trivial]. Qed.

Lemma TrimPrefix_flag (b : bool) (p rest : text) :
  HasPrefix rest p = false -> TrimPrefix (flagPrefix b p ++ rest) p = rest.
Proof.
  destruct b; simpl; [intros _; apply TrimPrefix_app | apply TrimPrefix_none].
Qed.

Lemma HasPrefix_other (b : bool) (p q rest : text) :
  (forall x, HasPrefix (q ++ x) p = false) ->
  HasPrefix rest p = false ->
  HasPrefix (flagPrefix b q ++ rest) p = false.
Proof. destruct b; simpl; auto. Qed.

(** No marker [p] at the head of flag markers other than [p] followed by a
    tail without [p]. *)
Ltac no_prefix :=
  repeat (apply HasPrefix_other; [intros; reflexivity|]);
  first [assumption | reflexivity].

Ltac read_flags :=
  repeat first [ rewrite HasPrefix_flag by no_prefix
               | rewrite TrimPrefix_flag by no_prefix ].

(** The tail of a source name starts with none of the prefixes that the
    target name starts with none of, the dot marker apart. *)
Ltac tail_free H p :=
  apply nameTail_no_prefix;
  [ apply (startsWithNone_prefix _ _ p H); simpl; tauto
  | vm_compute; intuition discriminate
  | intros; reflexivity ].

Lemma ParseDirAttributes_SourceName (da : DirAttributes.t) :
  validDirAttributes da = true -> ParseDirAttributes (DirSourceName da) = da.
Proof.
  destruct da as [n exact private]. unfold validDirAttributes.
  cbn [DirAttributes.Name]. intros Hn.
  assert (He : HasPrefix (nameTail n false) exactPrefix = false)
    by tail_free Hn exactPrefix.
  assert (Hp : HasPrefix (nameTail n false) privatePrefix = false)
    by tail_free Hn privatePrefix.
  assert (Hundot : undotName (nameTail n false) = n).
  { rewrite undotName_nameTail, app_nil_r; [reflexivity|].
    apply (startsWithNone_prefix _ _ _ Hn). simpl. tauto. }
  unfold nameTail in *. rewrite app_nil_r in *.
  unfold ParseDirAttributes, DirSourceName.
  cbn [DirAttributes.Name DirAttributes.Exact DirAttributes.Private].
  change (if exact then exactPrefix else []) with (flagPrefix exact exactPrefix).
  change (if private then privatePrefix else []) with (flagPrefix private privatePrefix).
  read_flags. now rewrite Hundot.
Qed.

Lemma ParseFileAttributes_SourceName (fa : FileAttributes.t) :
  validFileAttributes fa = true -> ParseFileAttributes (FileSourceName fa) = fa.
Proof.
  destruct fa as [type n empty encrypted executable once private template].
  unfold validFileAttributes. cbn [FileAttributes.Type_ FileAttributes.Name
    FileAttributes.Empty FileAttributes.Encrypted FileAttributes.Executable
    FileAttributes.Once FileAttributes.Private FileAttributes.Template].
  rewrite !andb_true_iff, negb_true_iff. intros [[Hn Hsfx] Hflags].
  assert (Hrun : HasPrefix (nameTail n template) runPrefix = false)
    by tail_free Hn runPrefix.
  assert (Hsym : HasPrefix (nameTail n template) symlinkPrefix = false)
    by tail_free Hn symlinkPrefix.
  assert (Henc : HasPrefix (nameTail n template) encryptedPrefix = false)
    by tail_free Hn encryptedPrefix.
  assert (Hpriv : HasPrefix (nameTail n template) privatePrefix = false)
    by tail_free Hn privatePrefix.
  assert (Hempty : HasPrefix (nameTail n template) emptyPrefix = false)
    by tail_free Hn emptyPrefix.
  assert (Hexec : HasPrefix (nameTail n template) executablePrefix = false)
    by tail_free Hn executablePrefix.
  assert (Honce : HasPrefix (nameTail n template) oncePrefix = false)
    by tail_free Hn oncePrefix.
  assert (Hundot : undotName (nameTail n template)
                   = n ++ (if template then TemplateSuffix else [])).
  { apply undotName_nameTail. apply (startsWithNone_prefix _ _ _ Hn). simpl. tauto. }
  destruct (suffix_read_back n template Hsfx) as [Htrim Hsuffix].
  unfold ParseFileAttributes, FileSourceName.
  cbn [FileAttributes.Type_ FileAttributes.Name
    FileAttributes.Empty FileAttributes.Encrypted FileAttributes.Executable
    FileAttributes.Once FileAttributes.Private FileAttributes.Template].
  fold (nameTail n template).
  destruct type.
  - (* file *)
    apply negb_true_iff in Hflags. subst once.
    change (if encrypted then encryptedPrefix else []) with (flagPrefix encrypted encryptedPrefix).
    change (if private then privatePrefix else []) with (flagPrefix private privatePrefix).
    change (if empty then emptyPrefix else []) with (flagPrefix empty emptyPrefix).
    change (if executable then executablePrefix else []) with (flagPrefix executable executablePrefix).
    rewrite <- !app_assoc.
    replace (HasPrefix _ runPrefix) with false by (symmetry; no_prefix).
    replace (HasPrefix _ symlinkPrefix) with false by (symmetry; no_prefix).
    read_flags. cbn [fst snd].
    now rewrite Hundot, Htrim, Hsuffix.
  - (* script *)
    apply negb_true_iff in Hflags.
    repeat (apply orb_false_iff in Hflags as [Hflags ?]). subst.
    change (if once then oncePrefix else []) with (flagPrefix once oncePrefix).
    rewrite <- !app_assoc, HasPrefix_app, TrimPrefix_app.
    read_flags. cbn [fst snd].
    now rewrite Hundot, Htrim, Hsuffix.
  - (* symlink *)
    apply negb_true_iff in Hflags.
    repeat (apply orb_false_iff in Hflags as [Hflags ?]). subst.
    replace (HasPrefix _ runPrefix) with false by reflexivity.
    rewrite HasPrefix_app, TrimPrefix_app. cbn [fst snd].
    now rewrite Hundot, Htrim, Hsuffix.
Qed.

(** C1. Parsing the source name of a valid directory or file attribute
    record gives the record back, and encoding the parse of a canonically
    encoded source name gives the name back. *)
Theorem attribute_codec_round_trip :
  (forall da, validDirAttributes da = true ->
              ParseDirAttributes (DirSourceName da) = da) /\
  (forall fa, validFileAttributes fa = true ->
              ParseFileAttributes (FileSourceName fa) = fa) /\
  (forall s, canonicalDirName s -> DirSourceName (ParseDirAttributes s) = s) /\
  (forall s, canonicalFileName s -> FileSourceName (ParseFileAttributes s) = s).
Proof.
  repeat split.
  - apply ParseDirAttributes_SourceName.
  - apply ParseFileAttributes_SourceName.
  - intros s (da & Hda & ->). now rewrite ParseDirAttributes_SourceName.
  - intros s (fa & Hfa & ->). now rewrite ParseFileAttributes_SourceName.
Qed.

Lemma attribute_codec_round_trip_witness :
  ParseFileAttributes (T "private_executable_dot_profile.tmpl")
  = {| FileAttributes.Type_ := SourceFileTypeFile; FileAttributes.Name := T ".profile";
       FileAttributes.Empty := false; FileAttributes.Encrypted := false;
       FileAttributes.Executable := true; FileAttributes.Once := false;
       FileAttributes.Private := true; FileAttributes.Template := true |}.
Proof.
  apply (proj1 (proj2 attribute_codec_round_trip)
           {| FileAttributes.Type_ := SourceFileTypeFile;
              FileAttributes.Name := T ".profile";
              FileAttributes.Empty := false; FileAttributes.Encrypted := false;
              FileAttributes.Executable := true; FileAttributes.Once := false;
              FileAttributes.Private := true; FileAttributes.Template := true |}).
  reflexivity.
Defined.

(** TestDirAttributes and TestFileAttributes, on the records they build. *)
Example TestDirAttributes :
  forallb validDirAttributes testDirAttributes = true /\
  map (fun da => ParseDirAttributes (DirSourceName da)) testDirAttributes
  = testDirAttributes.
Proof. split; vm_compute; reflexivity. Qed.

Example TestFileAttributes :
  length testFileAttributes = 68%nat /\
  forallb validFileAttributes testFileAttributes = true /\
  map (fun fa => ParseFileAttributes (FileSourceName fa)) testFileAttributes
  = testFileAttributes.
Proof. repeat split; vm_compute; reflexivity. Qed.

(** Outside the valid records a marker in the target name is read as a
    flag. *)
Example private_name_not_valid :
  ParseDirAttributes
    (DirSourceName {| DirAttributes.Name := T "private_x";
                      DirAttributes.Exact := false; DirAttributes.Private := false |})
  = {| DirAttributes.Name := T "x";
       DirAttributes.Exact := false; DirAttributes.Private := true |}.
Proof. vm_compute. reflexivity. Qed.

(** ** What the configuration hands over *)

Section CmdFacts.

Context `{Runtime}.
Variable fs0 : FS.
Variable m0 : Mutator.

Variable Q : event -> Prop.

Lemma keeps_same {A} (m : M A) :
  (forall s, exists r, m s = (r, s)) -> keeps fs0 m0 Q m.
Proof.
  intros Hm s r s' Hfs Hmut Hrun.
  destruct (Hm s) as [r' Hr]. rewrite Hr in Hrun. injection Hrun as <- <-.
  repeat split; [assumption..|]. exists []. split; [now rewrite app_nil_r | constructor].
Qed.

Lemma keeps_ret {A} (a : A) : keeps fs0 m0 Q (ret a).
Proof. apply keeps_same. intros s. now exists (Ok a). Qed.

Lemma keeps_fail {A} (err : error) : keeps fs0 m0 Q (@fail _ A err).
Proof. apply keeps_same. intros s. now exists (Err err). Qed.

Lemma keeps_ask {A} (f : World -> A) : keeps fs0 m0 Q (ask f).
Proof. apply keeps_same. intros s. now eexists. Qed.

Lemma keeps_try {A} (f : World -> result A) : keeps fs0 m0 Q (try f).
Proof. apply keeps_same. intros s. now eexists. Qed.

Lemma keeps_act {A} (f : World -> A * World) : keeps fs0 m0 Q (act f).
Proof.
  intros s r s' Hfs Hmut Hrun. unfold act in Hrun.
  destruct (f (world s)) as [a w']. injection Hrun as <- <-. simpl.
  repeat split; [assumption..|]. exists []. split; [now rewrite app_nil_r | constructor].
Qed.

Lemma keeps_emit (e : event) : Q e -> keeps fs0 m0 Q (emit e).
Proof.
  intros He s r s' Hfs Hmut Hrun. injection Hrun as <- <-. simpl.
  repeat split; [assumption..|]. exists [e]. split; [reflexivity | now constructor].
Qed.

Lemma keeps_setConfig (c : Config) :
  fs c = fs0 -> mutator c = m0 -> keeps fs0 m0 Q (setConfig c).
Proof.
  intros Hc1 Hc2 s r s' Hfs Hmut Hrun. injection Hrun as <- <-. simpl.
  repeat split; [assumption..|]. exists []. split; [now rewrite app_nil_r | constructor].
Qed.

Lemma keeps_bind {A B} (m : M A) (k : A -> M B) :
  keeps fs0 m0 Q m -> (forall a, keeps fs0 m0 Q (k a)) -> keeps fs0 m0 Q (bind m k).
Proof.
  intros Hm Hk s r s' Hfs Hmut Hrun. unfold bind in Hrun.
  destruct (m s) as [[a|err] s1] eqn:E.
  - destruct (Hm _ _ _ Hfs Hmut E) as (Hfs1 & Hmut1 & evs1 & Hev1 & HQ1).
    destruct (Hk a _ _ _ Hfs1 Hmut1 Hrun) as (Hfs2 & Hmut2 & evs2 & Hev2 & HQ2).
    repeat split; [assumption..|]. exists (evs1 ++ evs2).
    split; [now rewrite Hev2, Hev1, app_assoc | now apply Forall_app].
  - injection Hrun as <- <-. exact (Hm _ _ _ Hfs Hmut E).
Qed.

(** The configuration read by [getConfig] has [fs0] and [m0]. *)
Lemma keeps_bind_getConfig {B} (k : Config -> M B) :
  (forall c, fs c = fs0 -> mutator c = m0 -> keeps fs0 m0 Q (k c)) ->
  keeps fs0 m0 Q (bind getConfig k).
Proof.
  intros Hk s r s' Hfs Hmut Hrun. unfold bind, getConfig in Hrun.
  exact (Hk (config s) Hfs Hmut _ _ _ Hfs Hmut Hrun).
Qed.

End CmdFacts.

Lemma keeps_weaken `{Runtime} fs0 m0 (Q Q' : event -> Prop) {A} (m : M A) :
  (forall e, Q e -> Q' e) -> keeps fs0 m0 Q m -> keeps fs0 m0 Q' m.
Proof.
  intros HQ Hm s r s' Hfs Hmut Hrun.
  destruct (Hm _ _ _ Hfs Hmut Hrun) as (? & ? & evs & ? & HF).
  repeat split; [assumption..|]. exists evs. split; [assumption|].
  eapply Forall_impl; eauto.
Qed.

(** One step through a computation built from the pieces above. *)
Ltac keeps_step :=
  lazymatch goal with
  | |- keeps _ _ _ (bind getConfig _) =>
      apply keeps_bind_getConfig; intros ? ? ?
  | |- keeps _ _ _ (bind _ _) => apply keeps_bind; [|intros ?]
  | |- keeps _ _ _ (ret _) => apply keeps_ret
  | |- keeps _ _ _ (fail _) => apply keeps_fail
  | |- keeps _ _ _ (ask _) => apply keeps_ask
  | |- keeps _ _ _ (try _) => apply keeps_try
  | |- keeps _ _ _ (act _) => apply keeps_act
  | |- keeps _ _ _ (emit _) => apply keeps_emit
  | |- keeps _ _ _ (setConfig _) => apply keeps_setConfig
  | |- keeps _ _ _ (match ?x with _ => _ end) => destruct x
  | |- keeps _ _ _ (if ?b then _ else _) => destruct b
  end.

Section CmdHandles.

Context `{Runtime}.
Variable fs0 : FS.
Variable m0 : Mutator.

Lemma keeps_getDefaultData : keeps fs0 m0 (readOnlyEvent fs0 m0) getDefaultData.
Proof.
  unfold getDefaultData.
  repeat keeps_step; try (repeat split; simpl; congruence).
Qed.

Lemma keeps_getData : keeps fs0 m0 (readOnlyEvent fs0 m0) getData.
Proof.
  unfold getData. apply keeps_bind; [apply keeps_getDefaultData|].
  intros a. repeat keeps_step.
Qed.

Lemma keeps_populateTargetState po :
  keeps fs0 m0 (readOnlyEvent fs0 m0) (populateTargetState po).
Proof.
  unfold populateTargetState.
  keeps_step. apply keeps_bind; [apply keeps_getData|]. intros data.
  repeat keeps_step; try assumption; try (repeat split; simpl; congruence).
Qed.

Lemma keeps_getTargetState po : keeps fs0 m0 (readOnlyEvent fs0 m0) (getTargetState po).
Proof.
  unfold getTargetState. apply keeps_bind; [apply keeps_populateTargetState|].
  intros ts. unfold checkMinVersion. repeat keeps_step.
Qed.

End CmdHandles.

Section CmdLoops.

Context `{Runtime}.
Variable fs0 : FS.
Variable m0 : Mutator.

Lemma keeps_getEntriesLoop ts args : forall entries,
  keeps fs0 m0 (readOnlyEvent fs0 m0) (getEntriesLoop ts args entries).
Proof.
  induction args as [|arg args IH]; intros entries; simpl.
  - apply keeps_ret.
  - repeat keeps_step; try apply IH.
    repeat split; simpl; congruence.
Qed.

Lemma keeps_applyEntries entries follow opts :
  keeps fs0 m0 (wellHanded fs0 m0)
        (applyEntries entries (NewReadOnlyFS fs0) m0 follow opts).
Proof.
  induction entries as [|entry entries IH]; simpl.
  - apply keeps_ret.
  - unfold entryApply. repeat keeps_step; try apply IH. simpl. auto.
Qed.

Lemma keeps_applyEach entries follow opts : forall failed,
  keeps fs0 m0 (wellHanded fs0 m0)
        (applyEach entries (NewReadOnlyFS fs0) m0 follow opts failed).
Proof.
  induction entries as [|entry entries IH]; intros failed; simpl.
  - apply keeps_ret.
  - repeat keeps_step; try apply IH; simpl; auto.
Qed.

Lemma keeps_applyArgs args persistentState :
  keeps fs0 m0 (wellHanded fs0 m0) (applyArgs args persistentState).
Proof.
  unfold applyArgs.
  apply keeps_bind_getConfig. intros c Hfs _. rewrite Hfs.
  apply keeps_bind.
  { eapply keeps_weaken; [|apply keeps_getTargetState]. now intros e [He _]. }
  intros ts. apply keeps_bind_getConfig. intros c' _ Hmut. rewrite Hmut.
  destruct (Nat.eqb (length args) 0).
  - unfold TargetStateApply. keeps_step; [keeps_step; simpl; auto|].
    keeps_step; [apply keeps_applyEach|]. repeat keeps_step.
  - apply keeps_bind.
    + eapply keeps_weaken; [|apply keeps_getEntriesLoop]. now intros e [He _].
    + intros entries. apply keeps_applyEntries.
Qed.

End CmdLoops.

Lemma appliedEntries_app (a b : list event) :
  appliedEntries (a ++ b) = appliedEntries a ++ appliedEntries b.
Proof. apply flat_map_app. Qed.


Lemma appliedEntries_none (evs : list event) :
  Forall (fun e => handedMutator e = None) evs -> appliedEntries evs = [].
Proof.
  induction 1 as [|e evs He _ IH]; [reflexivity|].
  simpl. rewrite IH. now destruct e.
Qed.

Section ApplyLoops.

Context `{Runtime}.
Variables (fs' : FS) (m : Mutator) (follow : bool) (opts : ApplyOptions.t).

Lemma entryApply_run (entry : Entry) (s : State) :
  entryApply entry fs' m follow opts s
  = let '(err, w') := Apply entry fs' m follow opts (world s) in
    (match err with Some err => Err err | None => Ok tt end, afterApply fs' m follow opts entry s w').
Proof.
  unfold entryApply, bind, emit, act, afterApply. simpl.
  destruct (Apply entry fs' m follow opts (world s)) as [[err|] w']; reflexivity.
Qed.


Lemma applyEntries_applied (entries : list Entry) :
  forall (s2 s3 : State),
  applyEntries entries fs' m follow opts s2 = (Ok tt, s3) ->
  appliedEntries (events s3) = appliedEntries (events s2) ++ entries.
Proof.
  induction entries as [|e entries IH]; intros s2 s3 Hok.
  - injection Hok as <-. now rewrite app_nil_r.
  - simpl in Hok. unfold bind in Hok. rewrite entryApply_run in Hok.
    destruct (Apply e fs' m follow opts (world s2)) as [[err0|] w0]; [discriminate|].
    rewrite (IH _ _ Hok). unfold afterApply. simpl.
    rewrite appliedEntries_app. simpl. now rewrite <- app_assoc.
Qed.



End ApplyLoops.

(** ** Properties of the configuration *)

Lemma readOnlyEvent_no_mutation fs0 m0 (e : event) :
  readOnlyEvent fs0 m0 e ->
  handedMutator e = None /\
  forall f o, e = CallPopulate f o -> capableOfMutation f = false.
Proof.
  intros (Hw & Hm & _). split; [assumption|].
  intros f o ->. simpl in Hw. now subst.
Qed.

Lemma getTargetState_events `{Runtime} po (s : State) r (s' : State) :
  getTargetState po s = (r, s') ->
  fs (config s') = fs (config s) /\ mutator (config s') = mutator (config s) /\
  exists evs, events s' = events s ++ evs /\
              Forall (readOnlyEvent (fs (config s)) (mutator (config s))) evs.
Proof.
  intros Hrun.
  exact (keeps_getTargetState _ _ po s r s' eq_refl eq_refl Hrun).
Qed.

(** C3. When Populate has found a minimum version and the version of the
    program is less, getTargetState returns the version error and no target
    state, having handed no collaborator a mutator and Populate a handle
    that cannot mutate, and applyArgs returns that error without a call of
    Apply; when Populate has found no minimum version, getTargetState
    returns the target state. *)
Theorem getTargetState_min_version_gate `{Runtime}
    (populateOptions : option PopulateOptions) (s : State) :
  (forall ts s1 version minVersion,
      populateTargetState populateOptions s = (Ok ts, s1) ->
      Version = Some version ->
      TargetState.MinVersion ts = Some minVersion ->
      LessThan version minVersion = true ->
      getTargetState populateOptions s
      = (Err (ErrVersionTooOld version minVersion), s1) /\
      (exists evs,
          events s1 = events s ++ evs /\
          Forall (fun e => handedMutator e = None /\
                           forall f o, e = CallPopulate f o ->
                                       capableOfMutation f = false) evs) /\
      (populateOptions = None ->
       forall args persistentState,
         applyArgs args persistentState s
         = (Err (ErrVersionTooOld version minVersion), s1) /\
         appliedEntries (events s1) = appliedEntries (events s))) /\
  (forall ts s1,
      populateTargetState populateOptions s = (Ok ts, s1) ->
      TargetState.MinVersion ts = None ->
      getTargetState populateOptions s = (Ok ts, s1)).
Proof.
  split.
  - intros ts s1 version minVersion Hpop Hv Hmin Hless.
    assert (Hget : getTargetState populateOptions s
                   = (Err (ErrVersionTooOld version minVersion), s1)).
    { unfold getTargetState, bind. rewrite Hpop.
      unfold checkMinVersion. now rewrite Hv, Hmin, Hless. }
    destruct (getTargetState_events _ _ _ _ Hget) as (_ & _ & evs & Hev & HQ).
    split; [exact Hget|]. split.
    + exists evs. split; [exact Hev|].
      eapply Forall_impl; [exact HQ|]. intros e. apply readOnlyEvent_no_mutation.
    + intros -> args persistentState. split.
      * unfold applyArgs, bind at 1, getConfig. unfold bind at 1. now rewrite Hget.
      * rewrite Hev, appliedEntries_app, (appliedEntries_none evs), app_nil_r; [reflexivity|].
        eapply Forall_impl; [exact HQ|]. now intros e (_ & He & _).
  - intros ts s1 Hpop Hmin.
    unfold getTargetState, bind. rewrite Hpop.
    unfold checkMinVersion. rewrite Hmin. now destruct Version.
Qed.

Lemma getEntries_events `{Runtime} ts args (s : State) r (s' : State) :
  getEntries ts args s = (r, s') ->
  config s' = config s /\ appliedEntries (events s') = appliedEntries (events s).
Proof.
  unfold getEntries. generalize (@nil Entry) as entries. revert s.
  induction args as [|arg args IH]; intros s entries Hrun; simpl in Hrun.
  - now injection Hrun as <- <-.
  - unfold bind, try, getConfig, emit in Hrun. simpl in Hrun.
    destruct (filepathAbs arg (world s)) as [targetPath|err];
      [|now injection Hrun as <- <-].
    destruct (Get ts (fs (config s)) targetPath (world s)) as [[entry|]|err];
      simpl in Hrun.
    + apply IH in Hrun as [-> ->]. simpl.
      rewrite appliedEntries_app. simpl. now rewrite app_nil_r.
    + injection Hrun as <- <-. simpl.
      rewrite appliedEntries_app. simpl. now rewrite app_nil_r.
    + injection Hrun as <- <-. simpl.
      rewrite appliedEntries_app. simpl. now rewrite app_nil_r.
Qed.


(** C6, as amended. applyArgs and getTargetState wrap the file system of the
    configuration in the read-only adapter and hand that adapter to Populate,
    to TargetState.Apply and to every Entry.Apply, the two Apply together
    with the mutator of the configuration; no handle they give to these can
    mutate. *)
Theorem applyArgs_read_only_adapter `{Runtime} (s : State) :
  let fs0 := fs (config s) in
  let m0 := mutator (config s) in
  let adapter (e : event) : Prop :=
    match e with
    | CallPopulate f _ => f = NewReadOnlyFS fs0
    | CallTargetStateApply f m _ _ | CallEntryApply _ f m _ _ =>
        f = NewReadOnlyFS fs0 /\ m = m0
    | _ => True
    end in
  (forall populateOptions r s',
      getTargetState populateOptions s = (r, s') ->
      exists evs, events s' = events s ++ evs /\ Forall adapter evs) /\
  (forall args persistentState r s',
      applyArgs args persistentState s = (r, s') ->
      exists evs, events s' = events s ++ evs /\ Forall adapter evs) /\
  (forall e f, adapter e -> applySide e = true -> handedFS e = Some f ->
               capableOfMutation f = false).
Proof.
  intros fs0 m0 adapter.
  assert (Hweak : forall e, wellHanded fs0 m0 e -> adapter e).
  { intros e He. destruct e; simpl in *; auto. }
  split; [|split].
  - intros po r s' Hrun.
    destruct (getTargetState_events _ _ _ _ Hrun) as (_ & _ & evs & Hev & HQ).
    exists evs. split; [assumption|].
    eapply Forall_impl; [exact HQ|]. intros e (He & _). now apply Hweak.
  - intros args ps r s' Hrun.
    destruct (keeps_applyArgs fs0 m0 args ps s r s' eq_refl eq_refl Hrun)
      as (_ & _ & evs & Hev & HQ).
    exists evs. split; [assumption|].
    eapply Forall_impl; [exact HQ|]. exact Hweak.
  - intros e f He Hside Hf.
    destruct e; simpl in *; try discriminate.
    + injection Hf as <-. now subst.
    + injection Hf as <-. destruct He as [-> _]. reflexivity.
    + injection Hf as <-. destruct He as [-> _]. reflexivity.
Qed.

(** C6, as stated, fails: applying a named target hands TargetState.Get
    the file system of the configuration itself, which can mutate. *)
Lemma applyArgs_hands_Get_the_real_fs :
  exists e f,
    In e (events (snd (applyArgs [TargetPath bashrc] exampleStore
                                 (exampleState exampleConfig None)))) /\
    readSide e = true /\
    handedFS e = Some f /\
    capableOfMutation f = true.
Proof.
  exists (CallGet OSFS (TargetPath bashrc)), OSFS.
  split; [|repeat split].
  vm_compute. tauto.
Qed.

Lemma getPersistentState_run `{Runtime} (options : option bolt.Options) (s : State) :
  getPersistentState options s
  = let c := config s in
    let options' :=
      if DryRun c
      then Some (setReadOnly (match options with None => emptyOptions | Some o => o end))
      else options in
    NewBoltPersistentState (fs c) (getPersistentStateFile c (world s))
                           (FileMode (Umask c)) options' s.
Proof. reflexivity. Qed.

(** C2. In a dry run getPersistentState opens the persistent state with
    the options it was given, or with empty options when it was given none,
    and with ReadOnly set in them; on the store it returns, Set and Delete
    fail with an error and change nothing. *)
Theorem getPersistentState_dry_run_read_only `{Runtime}
    (options : option bolt.Options) (s : State) :
  DryRun (config s) = true ->
  let c := config s in
  let given := match options with None => emptyOptions | Some o => o end in
  let forced :=
    {| bolt.Timeout := bolt.Timeout given; bolt.NoGrowSync := bolt.NoGrowSync given;
       bolt.NoFreelistSync := bolt.NoFreelistSync given; bolt.ReadOnly := true;
       bolt.MmapFlags := bolt.MmapFlags given;
       bolt.InitialMmapSize := bolt.InitialMmapSize given;
       bolt.PageSize := bolt.PageSize given; bolt.NoSync := bolt.NoSync given |} in
  let file := getPersistentStateFile c (world s) in
  getPersistentState options s
  = NewBoltPersistentState (fs c) file (FileMode (Umask c)) (Some forced) s /\
  (forall r s',
      getPersistentState options s = (r, s') ->
      events s' = events s ++ [CallNewBoltPersistentState (fs c) file (FileMode (Umask c))
                                                          (Some forced)]) /\
  (forall store s',
      getPersistentState options s = (Ok store, s') ->
      boltOptions store = Some forced /\
      (forall bucket key value,
          boltSet store bucket key value = (Some ErrDatabaseReadOnly, store)) /\
      (forall bucket key,
          boltDelete store bucket key = (Some ErrDatabaseReadOnly, store))).
Proof.
  intros Hdry c given forced file.
  assert (Hrun : getPersistentState options s
                 = NewBoltPersistentState (fs c) file (FileMode (Umask c)) (Some forced) s).
  { rewrite getPersistentState_run. cbv zeta. now rewrite Hdry. }
  rewrite Hrun. clear Hrun.
  split; [reflexivity|].
  unfold NewBoltPersistentState, bind, emit, try, ret. simpl.
  split.
  - intros r s' Hrun.
    destruct (openBolt _ _ _ _ _); now injection Hrun as <- <-.
  - intros store s' Hrun.
    destruct (openBolt _ _ _ _ _) as [db|err]; [|discriminate].
    injection Hrun as <- <-. unfold boltSet, boltDelete, boltReadOnly. simpl. auto.
Qed.

(** ** Running the configuration on the example host *)

Example apply_named_stops_at_script :
  let '(r, s') := applyArgs [TargetPath bashrc; TargetPath install; TargetPath vimrc]
                            exampleStore (exampleState exampleConfig None) in
  r = Err (ErrOther (T "exit status 1")) /\
  appliedEntries (events s') = [bashrc; install] /\
  written (world s') = [TargetPath bashrc].
Proof. vm_compute. repeat split. Qed.

Example apply_batch_goes_on :
  let '(r, s') := applyArgs [] exampleStore (exampleState exampleConfig None) in
  r = Err (ErrEntriesFailed [TargetPath install]) /\
  appliedEntries (events s') = [bashrc; install; vimrc] /\
  written (world s') = [TargetPath bashrc; TargetPath vimrc].
Proof. vm_compute. repeat split. Qed.

Example apply_version_too_old :
  let '(r, s') := applyArgs [] exampleStore
                            (exampleState exampleConfig (Some (version 1 9 0))) in
  r = Err (ErrVersionTooOld (version 1 8 0) (version 1 9 0)) /\
  appliedEntries (events s') = [] /\
  written (world s') = [].
Proof. vm_compute. repeat split. Qed.

(** The stages of a named apply on the example host. *)
Lemma example_getTargetState :
  getTargetState None (exampleState exampleConfig None)
  = (Ok exampleTargetState, exampleStatePopulated).
Proof. vm_compute. reflexivity. Qed.

Lemma getPersistentState_dry_run_read_only_witness :
  events (snd (getPersistentState None (exampleState dryRunConfig None)))
  = [CallNewBoltPersistentState OSFS
       (T "/home/user/.config/chezmoi/chezmoistate.boltdb") 18
       (Some (setReadOnly emptyOptions))].
Proof.
  apply (proj1 (proj2 (getPersistentState_dry_run_read_only
                         None (exampleState dryRunConfig None) eq_refl))
           (fst (getPersistentState None (exampleState dryRunConfig None)))
           (snd (getPersistentState None (exampleState dryRunConfig None)))).
  apply surjective_pairing.
Defined.

Lemma getTargetState_min_version_gate_witness :
  fst (getTargetState None (exampleState exampleConfig (Some (version 1 9 0))))
  = Err (ErrVersionTooOld (version 1 8 0) (version 1 9 0)).
Proof.
  pose (st := exampleState exampleConfig (Some (version 1 9 0))).
  pose (ts := okOr exampleTargetState (fst (populateTargetState None st))).
  assert (Hpop : populateTargetState None st = (Ok ts, snd (populateTargetState None st)))
    by (vm_compute; reflexivity).
  destruct (proj1 (getTargetState_min_version_gate None st)
              ts _ (version 1 8 0) (version 1 9 0) Hpop) as [Hget _];
    [reflexivity | vm_compute; reflexivity | reflexivity |].
  fold st. now rewrite Hget.
Defined.


Lemma addTemplateFunc_panics_on_duplicate_witness :
  addTemplateFunc exampleConfig (T "include") (TemplateFunc 2)
  = Panicked (T "Config.addTemplateFunc: include already defined") /\
  exists c' funcs',
    addTemplateFunc exampleConfig (T "lookPath") (TemplateFunc 2) = Returned c' /\
    templateFuncs c' = Some funcs' /\
    funcs' !! T "lookPath" = Some (TemplateFunc 2) /\
    funcs' !! T "include" = Some (TemplateFunc 1).
Proof.
  split.
  - apply (proj1 (addTemplateFunc_panics_on_duplicate exampleConfig (T "include")
                    (TemplateFunc 2))
             {[ T "include" := TemplateFunc 1 ]} (TemplateFunc 1)).
    + reflexivity.
    + apply lookup_singleton_eq.
  - destruct (proj2 (addTemplateFunc_panics_on_duplicate exampleConfig (T "lookPath")
                       (TemplateFunc 2)))
      as (_ & c' & funcs' & Hrun & Hfuncs & Hkey & Hother & _).
    + intros funcs [= <-]. apply lookup_singleton_ne. discriminate.
    + exists c', funcs'. split; [exact Hrun|]. split; [exact Hfuncs|].
      split; [exact Hkey|]. rewrite Hother by discriminate. apply lookup_singleton_eq.
Defined.

Lemma validateKeys_identifier_keys_witness :
  validateKeys (VMap [(T "a1", VSlice [VMap [(T "_b", VOther SNil)]])])
               (identifierRegexp asciiIsLetter asciiIsDigit) = None.
Proof.
  apply (proj1 (validateKeys_identifier_keys asciiIsLetter asciiIsDigit
                  (VMap [(T "a1", VSlice [VMap [(T "_b", VOther SNil)]])]))).
  repeat constructor.
Defined.

Lemma applyArgs_read_only_adapter_witness :
  Forall (fun e => applySide e = true ->
                   handedFS e = Some (NewReadOnlyFS OSFS))
         (events (snd (applyArgs [] exampleStore (exampleState exampleConfig None)))).
Proof.
  pose (st := exampleState exampleConfig None).
  destruct (proj1 (proj2 (applyArgs_read_only_adapter st))
              [] exampleStore
              (fst (applyArgs [] exampleStore st)) (snd (applyArgs [] exampleStore st))
              (surjective_pairing _))
    as (evs & Hev & HQ).
  fold st. rewrite Hev. simpl. eapply Forall_impl; [exact HQ|].
  intros e He Hside. destruct e; simpl in *; try discriminate.
  - now rewrite He.
  - destruct He as [-> _]. reflexivity.
  - destruct He as [-> _]. reflexivity.
Defined.

(** ** More on the case conversion *)

Lemma Split_lengths (s : text) (sep : rune) :
  (length s = list_sum (map (@length rune) (Split s sep)) + countRune sep s)%nat /\
  length (Split s sep) = S (countRune sep s).
Proof.
  unfold countRune.
  induction s as [|r rest [IH1 IH2]]; [split; reflexivity|].
  cbn [Split List.filter].
  destruct (Z.eqb r sep); cbn [length map list_sum].
  - simpl. split; lia.
  - pose proof (Split_nonempty rest sep) as Hn.
    destruct (Split rest sep) as [|w ws]; [contradiction|].
    simpl in *. split; lia.
Qed.

Section CamelFacts.

Variable unicodeToLower : rune -> rune.
Variable unicodeToTitle : rune -> rune.

Lemma laterWord_length (word : text) :
  length (laterWord unicodeToLower unicodeToTitle word) = length word.
Proof.
  unfold laterWord, titilize, ToLower.
  destruct (isWellKnownAbbreviation word); [reflexivity|].
  destruct word; simpl; [reflexivity|]. now rewrite length_map.
Qed.

Lemma concat_later_length (words : list text) :
  length (concat (map (laterWord unicodeToLower unicodeToTitle) words))
  = list_sum (map (@length rune) words).
Proof.
  induction words as [|w ws IH]; [reflexivity|].
  simpl. now rewrite length_app, laterWord_length, IH.
Qed.

(** X1. Counted in code points (runes, not bytes: a case conversion can
    change the UTF-8 width of a rune), upperSnakeCaseToCamelCase takes away
    the underscores and nothing else: the result has as many code points as
    the argument has code points other than underscores, and an argument
    without underscore is lowercased as a whole. *)
Theorem upperSnakeCaseToCamelCase_length (s : text) :
  (length (upperSnakeCaseToCamelCase unicodeToLower unicodeToTitle s)
   + countRune underscore s = length s)%nat /\
  (countRune underscore s = 0%nat ->
   upperSnakeCaseToCamelCase unicodeToLower unicodeToTitle s
   = ToLower unicodeToLower s).
Proof.
  rewrite camel_words.
  destruct (Split_lengths s underscore) as [Hlen Hcount].
  pose proof (Join_Split s underscore) as Hjoin.
  destruct (Split s underscore) as [|first later] eqn:E; [discriminate|].
  cbn [camelCaseOfWords map list_sum length] in *.
  split.
  - rewrite length_app, concat_later_length. unfold ToLower.
    rewrite length_map. simpl in Hlen. lia.
  - intros H0. rewrite H0 in Hcount. injection Hcount as Hlater.
    destruct later; [|discriminate]. simpl in *. subst first.
    now rewrite app_nil_r.
Qed.

Hypothesis lower_keeps : forall r, r <> underscore -> unicodeToLower r <> underscore.
Hypothesis title_keeps : forall r, r <> underscore -> unicodeToTitle r <> underscore.

Lemma ToLower_sep_free (w : text) :
  ~ In underscore w -> ~ In underscore (ToLower unicodeToLower w).
Proof.
  unfold ToLower. intros Hw Hin. apply in_map_iff in Hin as (r & Hr & Hin).
  apply (lower_keeps r); [|assumption]. intros ->. contradiction.
Qed.

Lemma laterWord_sep_free (w : text) :
  ~ In underscore w -> ~ In underscore (laterWord unicodeToLower unicodeToTitle w).
Proof.
  intros Hw. unfold laterWord.
  destruct (isWellKnownAbbreviation w); [assumption|].
  pose proof (ToLower_sep_free w Hw) as Hl.
  destruct (ToLower unicodeToLower w) as [|r rs]; [assumption|].
  simpl in *. intros [H|H].
  - apply (title_keeps r); [|assumption]. intros ->. apply Hl. now left.
  - apply Hl. now right.
Qed.

Lemma camel_sep_free (s : text) :
  ~ In underscore (upperSnakeCaseToCamelCase unicodeToLower unicodeToTitle s).
Proof.
  rewrite camel_words. pose proof (Split_sep_free s underscore) as Hfree.
  destruct (Split s underscore) as [|first later]; [tauto|].
  inversion Hfree as [|? ? Hfirst Hlater]; subst. simpl.
  rewrite in_app_iff. intros [H|H].
  - now apply (ToLower_sep_free first).
  - apply in_concat in H as (w & Hw & Hin).
    apply in_map_iff in Hw as (w0 & <- & Hw0).
    rewrite List.Forall_forall in Hlater.
    now apply (laterWord_sep_free w0 (Hlater w0 Hw0)).
Qed.

End CamelFacts.

(** X2. Where the case tables turn no other rune into an underscore, the
    result of upperSnakeCaseToCamelCase holds no underscore. *)
Theorem upperSnakeCaseToCamelCase_no_underscore
    (unicodeToLower unicodeToTitle : rune -> rune) :
  (forall r, r <> underscore -> unicodeToLower r <> underscore) ->
  (forall r, r <> underscore -> unicodeToTitle r <> underscore) ->
  forall s, ~ In underscore (upperSnakeCaseToCamelCase unicodeToLower unicodeToTitle s).
Proof. intros Hl Ht s. now apply camel_sep_free. Qed.

Lemma upperSnakeCaseToCamelCase_no_underscore_witness :
  ~ In underscore (upperSnakeCaseToCamelCase asciiToLower asciiToUpper (T "HOME_URL")).
Proof.
  apply (upperSnakeCaseToCamelCase_no_underscore asciiToLower asciiToUpper).
  - intros r Hr. unfold asciiToLower, underscore in *.
    destruct ((65 <=? r) && (r <=? 90)) eqn:E; [|assumption].
    apply andb_true_iff in E. lia.
  - intros r Hr. unfold asciiToUpper, underscore in *.
    destruct ((97 <=? r) && (r <=? 122)) eqn:E; [|assumption].
    apply andb_true_iff in E. lia.
Defined.

(** ** Named targets *)

Section NamedTargets.

Context `{Runtime}.

Lemma getEntriesLoop_run ts (args : list text) :
  forall (acc : list Entry) (s : State) r (s' : State),
  getEntriesLoop ts args acc s = (r, s') ->
  world s' = world s /\ config s' = config s /\
  match r with
  | Ok entries =>
      exists entries', entries = acc ++ entries' /\
                       Forall2 (found ts (fs (config s)) (world s)) args entries'
  | Err err =>
      exists before arg after entries',
        args = before ++ arg :: after /\
        Forall2 (found ts (fs (config s)) (world s)) before entries' /\
        notFound ts (fs (config s)) (world s) arg err
  end.
Proof.
  induction args as [|arg args IH]; intros acc s r s' Hrun; simpl in Hrun.
  - injection Hrun as <- <-. repeat split. exists []. rewrite app_nil_r. split; [reflexivity|constructor].
  - unfold bind, try, getConfig, emit in Hrun. simpl in Hrun.
    destruct (filepathAbs arg (world s)) as [targetPath|err] eqn:Eabs.
    2:{ injection Hrun as <- <-. repeat split.
        exists [], arg, args, []. repeat split; [constructor | now left]. }
    destruct (Get ts (fs (config s)) targetPath (world s)) as [[entry|]|err] eqn:Eget;
      simpl in Hrun.
    + apply IH in Hrun as (Hw & Hc & Hr). simpl in *. repeat split; [assumption..|].
      assert (Hfound : found ts (fs (config s)) (world s) arg entry)
        by (exists targetPath; auto).
      destruct r as [entries|err].
      * destruct Hr as (entries' & -> & HF). exists (entry :: entries').
        split; [now rewrite <- app_assoc | now constructor].
      * destruct Hr as (before & arg' & after & entries' & -> & HF & Hnot).
        exists (arg :: before), arg', after, (entry :: entries').
        repeat split; [now constructor | assumption].
    + injection Hrun as <- <-. simpl. repeat split.
      exists [], arg, args, []. repeat split; [constructor|].
      right. exists targetPath. auto.
    + injection Hrun as <- <-. simpl. repeat split.
      exists [], arg, args, []. repeat split; [constructor|].
      right. exists targetPath. auto.
Qed.

Lemma applyArgs_named_run (args : list text) persistentState (s : State) ts (s1 : State) :
  args <> [] ->
  getTargetState None s = (Ok ts, s1) ->
  applyArgs args persistentState s
  = bind (getEntries ts args)
         (fun entries =>
            applyEntries entries (NewReadOnlyFS (fs (config s))) (mutator (config s1))
                         (Follow (config s1))
                         (newApplyOptions (config s1) ts persistentState)) s1.
Proof.
  intros Hargs Hget.
  unfold applyArgs, bind at 1, getConfig. unfold bind at 1. rewrite Hget.
  unfold bind at 1.
  destruct args as [|arg args]; [contradiction|]. reflexivity.
Qed.

(** X3. With named targets applyArgs looks up every argument before it
    applies anything: when the lookup of one argument fails, that error is
    returned, no Apply has been called and the host is as getTargetState
    left it.  An argument that is not in the source state is named in the
    error as it was given. *)
Theorem applyArgs_looks_up_before_applying
    (args : list text) persistentState (s : State) ts (s1 : State) err (s2 : State) :
  args <> [] ->
  getTargetState None s = (Ok ts, s1) ->
  getEntries ts args s1 = (Err err, s2) ->
  applyArgs args persistentState s = (Err err, s2) /\
  appliedEntries (events s2) = appliedEntries (events s) /\
  world s2 = world s1 /\
  exists before arg after,
    args = before ++ arg :: after /\
    notFound ts (fs (config s1)) (world s1) arg err.
Proof.
  intros Hargs Hget Hentries.
  split; [|split; [|split]].
  - rewrite (applyArgs_named_run _ _ _ _ _ Hargs Hget). unfold bind. now rewrite Hentries.
  - destruct (getEntries_events _ _ _ _ _ Hentries) as [_ ->].
    destruct (getTargetState_events _ _ _ _ Hget) as (_ & _ & evs & -> & HQ).
    rewrite appliedEntries_app, (appliedEntries_none evs), app_nil_r; [reflexivity|].
    eapply Forall_impl; [exact HQ|]. now intros e (_ & He & _).
  - now destruct (getEntriesLoop_run _ _ _ _ _ _ Hentries) as (-> & _).
  - destruct (getEntriesLoop_run _ _ _ _ _ _ Hentries)
      as (_ & _ & before & arg & after & _ & -> & _ & Hnot).
    eauto.
Qed.

(** X4. When applyArgs with named targets returns nil, it has applied the
    entries of the arguments in the order of the arguments, one for each
    mention of a target. *)
Theorem applyArgs_applies_in_argument_order
    (args : list text) persistentState (s : State) ts (s1 s' : State) :
  args <> [] ->
  getTargetState None s = (Ok ts, s1) ->
  applyArgs args persistentState s = (Ok tt, s') ->
  exists entries,
    Forall2 (found ts (fs (config s1)) (world s1)) args entries /\
    appliedEntries (events s') = appliedEntries (events s) ++ entries.
Proof.
  intros Hargs Hget Hrun.
  rewrite (applyArgs_named_run _ _ _ _ _ Hargs Hget) in Hrun. unfold bind in Hrun.
  destruct (getEntries ts args s1) as [[entries|err] s2] eqn:Hentries; [|discriminate].
  destruct (getEntriesLoop_run _ _ _ _ _ _ Hentries) as (_ & _ & entries' & -> & HF).
  exists entries'. split; [exact HF|].
  rewrite (applyEntries_applied _ _ _ _ _ _ _ Hrun).
  destruct (getEntries_events _ _ _ _ _ Hentries) as [_ ->].
  destruct (getTargetState_events _ _ _ _ Hget) as (_ & _ & evs & -> & HQ).
  rewrite appliedEntries_app, (appliedEntries_none evs), app_nil_r; [reflexivity|].
  eapply Forall_impl; [exact HQ|]. now intros e (_ & He & _).
Qed.

End NamedTargets.

Lemma applyArgs_looks_up_before_applying_witness :
  fst (applyArgs [TargetPath bashrc; T "/home/user/.missing"] exampleStore
                 (exampleState exampleConfig None))
  = Err (ErrNotInSourceState (T "/home/user/.missing")).
Proof.
  pose (args := [TargetPath bashrc; T "/home/user/.missing"]).
  destruct (applyArgs_looks_up_before_applying
              args exampleStore (exampleState exampleConfig None)
              exampleTargetState exampleStatePopulated
              (ErrNotInSourceState (T "/home/user/.missing"))
              (snd (getEntries exampleTargetState args exampleStatePopulated)))
    as [Hrun _].
  - discriminate.
  - exact example_getTargetState.
  - vm_compute. reflexivity.
  - fold args. now rewrite Hrun.
Defined.

Lemma applyArgs_applies_in_argument_order_witness :
  exists entries,
    Forall2 (found exampleTargetState OSFS (world exampleStatePopulated))
            [TargetPath vimrc; TargetPath bashrc; TargetPath vimrc] entries /\
    appliedEntries
      (events (snd (applyArgs [TargetPath vimrc; TargetPath bashrc; TargetPath vimrc]
                              exampleStore (exampleState exampleConfig None))))
    = entries.
Proof.
  apply (applyArgs_applies_in_argument_order
           [TargetPath vimrc; TargetPath bashrc; TargetPath vimrc] exampleStore
           (exampleState exampleConfig None) exampleTargetState exampleStatePopulated).
  - discriminate.
  - exact example_getTargetState.
  - vm_compute. reflexivity.
Defined.

(** ** Template data *)

Section DataFacts.

Context `{Runtime}.

Lemma first_field_prefix (s : text) (sep : rune) :
  ~ In sep (hd [] (Split s sep)) /\
  (s = hd [] (Split s sep) \/ exists rest, s = hd [] (Split s sep) ++ sep :: rest).
Proof.
  split.
  - pose proof (Split_sep_free s sep) as HF.
    destruct (Split s sep); [simpl; tauto|]. now inversion HF.
  - pose proof (Join_Split s sep) as HJ.
    destruct (Split s sep) as [|w [|w' ws]]; simpl in *; [now left | now left|].
    right. eexists. symmetry. exact HJ.
Qed.

Lemma lookup_putIf_eq key o data :
  data !! key = None -> putIf key o data !! key = o.
Proof. destruct o; simpl; [intros _; apply lookup_insert_eq | trivial]. Qed.

Lemma lookup_putIf_ne key key' o data :
  key <> key' -> putIf key o data !! key' = data !! key'.
Proof. destruct o; simpl; [apply lookup_insert_ne | trivial]. Qed.

Lemma getDefaultData_value (s : State) (data : gmap text value) (s' : State) :
  getDefaultData s = (Ok data, s') ->
  let w := world s in
  let c := config s in
  world s' = w /\ config s' = c /\
  exists currentUser homedir hostname,
    userCurrent w = Ok currentUser /\
    osUserHomeDir w = Ok homedir /\
    osHostname w = Ok hostname /\
    data
    = putIf (T "kernel") (kernelValue w (fs c))
        (putIf (T "osRelease") (osReleaseValue w (fs c))
           (<[T "hostname" := str (hd [] (Split hostname 46))]>
              (<[T "fullHostname" := str hostname]>
                 (<[T "homedir" := str homedir]>
                    (putIf (T "group") (groupValue w currentUser)
                       (<[T "username" := str (user.Username currentUser)]>
                          (<[T "sourceDir" := str (SourceDir c)]>
                             (<[T "os" := str GOOS]> {[ T "arch" := str GOARCH ]})))))))).
Proof.
  unfold getDefaultData, bind, getConfig, try, ask, emit, ret, fail.
  unfold kernelValue, osReleaseValue, groupValue.
  cbn [config world events].
  destruct (userCurrent (world s)) as [currentUser|]; [|discriminate].
  destruct (osUserHomeDir (world s)) as [homedir|]; [|discriminate].
  destruct (osHostname (world s)) as [hostname|]; [|discriminate].
  cbn [config world events].
  intros Hrun. cbv zeta.
  assert (Hs : world s' = world s /\ config s' = config s /\
               data = putIf (T "kernel") (kernelValue (world s) (fs (config s)))
                 (putIf (T "osRelease") (osReleaseValue (world s) (fs (config s)))
                   (<[T "hostname" := str (hd [] (Split hostname 46))]>
                     (<[T "fullHostname" := str hostname]>
                       (<[T "homedir" := str homedir]>
                         (putIf (T "group") (groupValue (world s) currentUser)
                           (<[T "username" := str (user.Username currentUser)]>
                             (<[T "sourceDir" := str (SourceDir (config s))]>
                               (<[T "os" := str GOOS]> {[ T "arch" := str GOARCH ]}))))))))).
  { unfold kernelValue, osReleaseValue, groupValue. revert Hrun.
    destruct (userLookupGroupId _ _) as [group|];
      (destruct (getOSRelease _ _) as [[visit|]|e]; cbn [config world events negb];
       [ | | destruct (IsNotExist e); cbn [config world events negb]; [|discriminate] ]);
      (destruct (getKernelInfo _ _) as [[kernelInfo|]|]; cbn [config world events];
       [ | |discriminate]);
      intros [= <- <-]; repeat split. }
  destruct Hs as (Hw & Hc & Hd).
  split; [exact Hw|]. split; [exact Hc|].
  exists currentUser, homedir, hostname. repeat split. exact Hd.
Qed.

Ltac key_ne := let Heq := fresh in intros Heq; vm_compute in Heq; discriminate Heq.

(** The value of a key after the assignments of getDefaultData. *)
Ltac lookup_key :=
  repeat first [ rewrite lookup_putIf_eq
               | rewrite lookup_putIf_ne by key_ne
               | rewrite lookup_insert_eq
               | rewrite lookup_insert_ne by key_ne
               | rewrite lookup_singleton_eq
               | rewrite lookup_singleton_ne by key_ne ];
  try reflexivity.

(** X5. The data getDefaultData returns: arch, os, sourceDir, username,
    homedir, fullHostname and hostname are always set, hostname being the
    full host name up to its first dot; group, osRelease and kernel are set
    exactly when the lookup of the group succeeded, when an os-release file
    was read and when kernel information was found.  The call changes
    neither the host nor the configuration. *)
Theorem getDefaultData_keys (s : State) (data : gmap text value) (s' : State) :
  getDefaultData s = (Ok data, s') ->
  let w := world s in
  let c := config s in
  world s' = w /\ config s' = c /\
  exists currentUser homedir hostname,
    userCurrent w = Ok currentUser /\
    osUserHomeDir w = Ok homedir /\
    osHostname w = Ok hostname /\
    data !! T "arch" = Some (str GOARCH) /\
    data !! T "os" = Some (str GOOS) /\
    data !! T "sourceDir" = Some (str (SourceDir c)) /\
    data !! T "username" = Some (str (user.Username currentUser)) /\
    data !! T "homedir" = Some (str homedir) /\
    data !! T "fullHostname" = Some (str hostname) /\
    (exists short,
        data !! T "hostname" = Some (str short) /\
        ~ In 46 short /\
        (hostname = short \/ exists domain, hostname = short ++ 46 :: domain)) /\
    data !! T "group"
    = match userLookupGroupId (user.Gid currentUser) w with
      | Ok group => Some (str (user.Name group))
      | Err _ => None
      end /\
    data !! T "osRelease"
    = match getOSRelease (fs c) w with
      | Ok (Some visit) =>
          Some (VOther (SStringMap
                          (upperSnakeCaseToCamelCaseMapIn runeToLower runeToTitle visit)))
      | _ => None
      end /\
    data !! T "kernel"
    = match getKernelInfo (fs c) w with
      | Ok (Some kernelInfo) => Some (VOther (SStringMap kernelInfo))
      | _ => None
      end.
Proof.
  intros Hrun w c.
  destruct (getDefaultData_value s data s' Hrun)
    as (Hw & Hc & currentUser & homedir & hostname & Hu & Hh & Hn & ->).
  split; [exact Hw|]. split; [exact Hc|].
  exists currentUser, homedir, hostname.
  fold w c in Hu, Hh, Hn |- *.
  split; [exact Hu|]. split; [exact Hh|]. split; [exact Hn|].
  split; [lookup_key|]. split; [lookup_key|]. split; [lookup_key|].
  split; [lookup_key|]. split; [lookup_key|]. split; [lookup_key|].
  split.
  { exists (hd [] (Split hostname 46)). split; [lookup_key|].
    apply first_field_prefix. }
  split; [lookup_key|]. split; lookup_key.
Qed.

(** X6. getDefaultData fails only when the current user, the home directory
    or the host name cannot be found, when reading the os-release file fails
    with an error other than its absence, or when the kernel information
    cannot be read: a failed lookup of the group and a missing os-release
    file are passed over. *)
Theorem getDefaultData_succeeds_iff (s : State) :
  let w := world s in
  let c := config s in
  (exists data s', getDefaultData s = (Ok data, s')) <->
  (exists currentUser, userCurrent w = Ok currentUser) /\
  (exists homedir, osUserHomeDir w = Ok homedir) /\
  (exists hostname, osHostname w = Ok hostname) /\
  (forall err, getOSRelease (fs c) w = Err err -> IsNotExist err = true) /\
  (forall err, getKernelInfo (fs c) w <> Err err).
Proof.
  cbv zeta. unfold getDefaultData, bind, getConfig, try, ask, emit, ret, fail.
  cbn [config world events].
  destruct (userCurrent (world s)) as [currentUser|e1].
  2:{ split; [intros (? & ? & [=]) | intros ((? & [=]) & _)]. }
  destruct (osUserHomeDir (world s)) as [homedir|e2].
  2:{ split; [intros (? & ? & [=]) | intros (_ & (? & [=]) & _)]. }
  destruct (osHostname (world s)) as [hostname|e3].
  2:{ split; [intros (? & ? & [=]) | intros (_ & _ & (? & [=]) & _)]. }
  cbn [config world events].
  destruct (userLookupGroupId _ _) as [group|];
    destruct (getOSRelease _ _) as [[visit|]|e];
    try destruct (IsNotExist e) eqn:En;
    cbn [config world events negb];
    destruct (getKernelInfo _ _) as [[kernelInfo|]|e'];
    cbn [config world events negb];
    (split;
     [ intros (data & s' & Hrun);
       (split; [eauto|]); (split; [eauto|]); (split; [eauto|]);
       (split; intros err' Herr; try discriminate Herr; try discriminate Hrun);
       injection Herr as <-; assumption
     | intros (_ & _ & _ & Hos & Hk);
       try (exfalso; apply (Hk e'); reflexivity);
       try (specialize (Hos e eq_refl); congruence);
       eexists _, _; reflexivity ]).
Qed.

Lemma getDefaultData_state (s : State) r (s' : State) :
  getDefaultData s = (r, s') -> world s' = world s /\ config s' = config s.
Proof.
  unfold getDefaultData, bind, getConfig, try, ask, emit, ret, fail.
  cbn [config world events].
  destruct (userCurrent (world s)); [|now intros [= <- <-]].
  destruct (osUserHomeDir (world s)); [|now intros [= <- <-]].
  destruct (osHostname (world s)); [|now intros [= <- <-]].
  cbn [config world events].
  destruct (userLookupGroupId _ _);
    destruct (getOSRelease _ _) as [[visit|]|e];
    try destruct (IsNotExist e);
    cbn [config world events negb];
    try destruct (getKernelInfo _ _) as [[kernelInfo|]|e'];
    cbn [config world events negb];
    now intros [= <- <-].
Qed.


(** X7. The data of the templates is the data of the configuration
    together with the key chezmoi for the default data: every key of the
    configuration keeps its value, also chezmoi when the configuration sets
    it, and no other key is added. *)
Theorem getData_configuration_wins (s : State) (data : gmap text value) (s' : State) :
  getData s = (Ok data, s') ->
  let c := config s in
  exists defaultData,
    getDefaultData s = (Ok defaultData, s') /\
    (forall key v, Data c !! key = Some v -> data !! key = Some v) /\
    (forall key, key <> T "chezmoi" -> data !! key = Data c !! key) /\
    (Data c !! T "chezmoi" = None ->
     data !! T "chezmoi" = Some (VMap (map_to_list defaultData))).
Proof.
  unfold getData, bind, getConfig, ret.
  destruct (getDefaultData s) as [[defaultData|err] s1] eqn:E; [|discriminate].
  intros [= <- <-]. cbv zeta.
  destruct (getDefaultData_state _ _ _ E) as [_ Hc]. rewrite Hc.
  exists defaultData. split; [reflexivity|]. split; [|split].
  - intros key v Hk. now apply lookup_union_Some_l.
  - intros key Hne. apply lookup_union_l.
    apply lookup_singleton_ne. intros Heq. apply Hne. symmetry. exact Heq.
  - intros Hnone. rewrite lookup_union_r by assumption. apply lookup_singleton_eq.
Qed.


End DataFacts.

Lemma getDefaultData_keys_witness :
  world (snd (getDefaultData (exampleState exampleConfig None)))
  = exampleHost None.
Proof.
  pose (st := exampleState exampleConfig None).
  apply (getDefaultData_keys st (okOr ∅ (fst (getDefaultData st)))
                             (snd (getDefaultData st))).
  vm_compute. reflexivity.
Defined.

Lemma getData_configuration_wins_witness :
  okOr ∅ (fst (getData (exampleState shadowConfig None))) !! T "chezmoi"
  = Some (str (T "mine")).
Proof.
  pose (st := exampleState shadowConfig None).
  destruct (getData_configuration_wins st (okOr ∅ (fst (getData st))) (snd (getData st)))
    as (defaultData & _ & Hkeep & _).
  - vm_compute. reflexivity.
  - apply Hkeep. vm_compute. reflexivity.
Defined.


Lemma andNot_within (x y : Z) : Z.ldiff (andNot x y) x = 0.
Proof.
  unfold andNot. apply Z.bits_inj'. intros n Hn.
  rewrite !Z.ldiff_spec, Z.testbit_0_l.
  destruct (Z.testbit x n), (Z.testbit y n); reflexivity.
Qed.

Lemma andNot_clear (x y : Z) : Z.land (andNot x y) y = 0.
Proof.
  unfold andNot. apply Z.bits_inj'. intros n Hn.
  rewrite Z.land_spec, Z.ldiff_spec, Z.testbit_0_l.
  destruct (Z.testbit x n), (Z.testbit y n); reflexivity.
Qed.

Lemma Forall_removelast {A} (P : A -> Prop) (l : list A) :
  Forall P l -> Forall P (removelast l).
Proof.
  induction 1 as [|x [|y rest] Hx Hrest IH]; cbn [removelast]; constructor; auto.
Qed.

Section Follows.
Context `{Machine}.

Lemma doS_run (a : action) (f : World -> option error * World) (s : Sys) :
  doS a f s =
    (match fst (f (machine s)) with Some e => Err e | None => Ok tt end,
     {| machine := snd (f (machine s)); done := done s ++ [(a, fst (f (machine s)))] |}).
Proof. unfold doS. destruct (f (machine s)); reflexivity. Qed.

Lemma trace_app (Q : World -> action -> Prop) (new1 new2 : list (action * option error))
    (w w1 w2 : World) :
  trace Q w new1 w1 -> trace Q w1 new2 w2 -> trace Q w (new1 ++ new2) w2.
Proof.
  revert w. induction new1 as [|[a e] new1 IH]; intros w; cbn [trace app].
  - intros ->. auto.
  - intros (HQ & w' & Hdone & Hrest) H2. split; [exact HQ|].
    exists w'. split; [exact Hdone|]. apply IH; assumption.
Qed.

(** What holds of every request of a trace, whatever the host. *)
Lemma trace_Forall (Q : World -> action -> Prop) (P : action -> Prop)
    (new : list (action * option error)) (w w' : World) :
  (forall w0 a, Q w0 a -> P a) ->
  trace Q w new w' -> Forall P (map fst new).
Proof.
  intros HQP. revert w. induction new as [|[a e] new IH]; intros w; cbn [trace map fst].
  - constructor.
  - intros (HQ & w1 & _ & Hrest). constructor; [exact (HQP _ _ HQ)|exact (IH _ Hrest)].
Qed.

Lemma follows_quiet (bound : nat) (Q : World -> action -> Prop) {A} (m : IO A) :
  (forall s, snd (m s) = s) -> follows bound Q m.
Proof.
  intros Hquiet s r s' Hrun. specialize (Hquiet s). rewrite Hrun in Hquiet.
  cbn in Hquiet. subst s'. exists []. rewrite app_nil_r. cbn.
  repeat split; auto with arith.
Qed.

Lemma follows_ret (bound : nat) (Q : World -> action -> Prop) {A} (a : A) :
  follows bound Q (retS a).
Proof. apply follows_quiet. reflexivity. Qed.

Lemma follows_fail (bound : nat) (Q : World -> action -> Prop) {A} (e : error) :
  follows bound Q (failS e : IO A).
Proof. apply follows_quiet. reflexivity. Qed.

Lemma follows_lift (bound : nat) (Q : World -> action -> Prop) {A} (r : result A) :
  follows bound Q (liftS r).
Proof. apply follows_quiet. reflexivity. Qed.

Lemma follows_ask (bound : nat) (Q : World -> action -> Prop) {A} (f : World -> A) :
  follows bound Q (askS f).
Proof. apply follows_quiet. reflexivity. Qed.

Lemma follows_try (bound : nat) (Q : World -> action -> Prop) {A}
    (f : World -> result A) :
  follows bound Q (tryS f).
Proof. apply follows_quiet. reflexivity. Qed.

Lemma follows_do (Q : World -> action -> Prop) (a : action)
    (f : World -> option error * World) :
  (forall w, Q w a) ->
  (forall w, performed a w (fst (f w)) (snd (f w))) ->
  follows 1 Q (doS a f).
Proof.
  intros HQ Hf s r s' Hrun. rewrite doS_run in Hrun. injection Hrun as <- <-.
  eexists [_]. cbn [done machine length trace removelast].
  split; [reflexivity|]. split; [auto|]. split; [|split].
  - split; [apply HQ|]. eexists. split; [apply Hf|reflexivity].
  - constructor.
  - intros [[] Hok]. constructor; [|constructor]. unfold succeeded. cbn.
    destruct (fst (f (machine s))); [discriminate|reflexivity].
Qed.

Lemma follows_weaken (n n' : nat) (Q : World -> action -> Prop) {A} (m : IO A) :
  (n <= n')%nat -> follows n Q m -> follows n' Q m.
Proof.
  intros Hle Hm s r s' Hrun. destruct (Hm s r s' Hrun) as (new & Hd & Hlen & Hrest).
  exists new. split; [exact Hd|]. split; [lia|exact Hrest].
Qed.

Lemma follows_bind (n1 n2 : nat) (Q : World -> action -> Prop) {A B}
    (m : IO A) (k : A -> IO B) :
  follows n1 Q m -> (forall a, follows n2 Q (k a)) -> follows (n1 + n2) Q (bindS m k).
Proof.
  intros Hm Hk s r s' Hrun. unfold bindS in Hrun.
  destruct (m s) as [[a|e] s1] eqn:Hms.
  - destruct (Hm _ _ _ Hms) as (new1 & Hd1 & Hlen1 & HQ1 & _ & Hok1).
    destruct (Hk a _ _ _ Hrun) as (new2 & Hd2 & Hlen2 & HQ2 & Hlast2 & Hok2).
    assert (Hall1 : Forall succeeded new1) by (apply Hok1; eauto).
    exists (new1 ++ new2). rewrite Hd2, Hd1, <- app_assoc, length_app.
    split; [reflexivity|]. split; [lia|].
    split; [exact (trace_app _ _ _ _ _ _ HQ1 HQ2)|]. split.
    + destruct new2 as [|p new2'].
      * rewrite app_nil_r. apply Forall_removelast. exact Hall1.
      * rewrite removelast_app by discriminate. apply Forall_app. auto.
    + intros Hok. apply Forall_app. auto.
  - injection Hrun as <- <-.
    destruct (Hm _ _ _ Hms) as (new1 & Hd1 & Hlen1 & HQ1 & Hlast1 & Hok1).
    exists new1. split; [exact Hd1|]. split; [lia|]. split; [exact HQ1|].
    split; [exact Hlast1|]. intros [b Hb]. discriminate.
Qed.

End Follows.

Section EnsureFacts.
Context `{Machine}.

Lemma ensureSourceDirectory_follows (c : Config) :
  follows 2 (fun _ => permissionRequest c) (ensureSourceDirectory c).
Proof.
  assert (Hchmod : permissionRequest c
            (DoChmod (mutator c) (SourceDir c) (andNot 448 (FileMode (Umask c)))))
    by (unfold permissionRequest; repeat split; auto using andNot_within, andNot_clear).
  assert (Hmkdir : permissionRequest c
            (DoMkdir (mutator c) (SourceDir c) (andNot 448 (FileMode (Umask c)))))
    by (unfold permissionRequest; repeat split; auto using andNot_within, andNot_clear).
  assert (Hall : permissionRequest c
            (DoMkdirAll (mutator c) (filepathDir (SourceDir c))
                        (andNot 511 (FileMode (Umask c)))))
    by (unfold permissionRequest; repeat split; auto using andNot_within, andNot_clear).
  unfold ensureSourceDirectory.
  apply (follows_bind 0 2); [apply follows_ask|]. intros [info|e].
  - destruct (IsDir info); [|apply follows_fail].
    apply (follows_bind 0 2); [apply follows_try|]. intros [|]; cbn [negb].
    + apply follows_ret.
    + apply (follows_weaken 1); [lia|]. apply follows_do; [auto|].
      intros w. apply surjective_pairing.
  - destruct (IsNotExist e); [|apply follows_fail].
    apply (follows_bind 1 1).
    + apply follows_do; [auto|]. intros w. apply surjective_pairing.
    + intros _. apply follows_do; [auto|]. intros w. apply surjective_pairing.
Qed.

(** X9. ensureSourceDirectory makes at most two requests, all of them of the
    configuration's mutator: Chmod or Mkdir of the source directory with a
    mode inside 0o700, MkdirAll of its parent with a mode inside 0o777, and
    never with a bit of the umask.  Every request but the last returned
    nil, and so did the last when ensureSourceDirectory returns nil. *)
Theorem ensureSourceDirectory_modes (c : Config) (s s' : Sys) (r : result unit) :
  ensureSourceDirectory c s = (r, s') ->
  exists new,
    done s' = done s ++ new /\ (length new <= 2)%nat /\
    Forall (permissionRequest c) (map fst new) /\
    Forall succeeded (removelast new) /\
    (r = Ok tt -> Forall succeeded new).
Proof.
  intros Hrun. destruct (ensureSourceDirectory_follows c s r s' Hrun)
    as (new & Hd & Hlen & HQ & Hlast & Hok).
  exists new. split; [exact Hd|]. split; [exact Hlen|].
  split; [apply (trace_Forall _ _ _ _ _ (fun _ a HQa => HQa) HQ)|].
  split; [exact Hlast|]. intros ->. apply Hok. eauto.
Qed.

(** X10. What ensureSourceDirectory asks for, case by case.  A directory
    that is private, a failing IsPrivate, a path that is not a directory
    (the error is "<SourceDir>: not a directory") and a Stat error other
    than not-exist lead to no request and leave the host as it was; a
    directory that is not private leads to one Chmod; a missing path leads
    to MkdirAll of the parent and, only when that returned nil, to Mkdir of
    the source directory. *)
Theorem ensureSourceDirectory_requests (c : Config) (s s' : Sys) (r : result unit) :
  ensureSourceDirectory c s = (r, s') ->
  let chmod := DoChmod (mutator c) (SourceDir c) (andNot 448 (FileMode (Umask c))) in
  let mkdirAll := DoMkdirAll (mutator c) (filepathDir (SourceDir c))
                             (andNot 511 (FileMode (Umask c))) in
  let mkdir := DoMkdir (mutator c) (SourceDir c) (andNot 448 (FileMode (Umask c))) in
  match fsStat (fs c) (SourceDir c) (machine s) with
  | Ok info =>
      if IsDir info then
        match chezmoiIsPrivate (fs c) (SourceDir c) true (machine s) with
        | Ok true => r = Ok tt /\ s' = s
        | Ok false => exists e, done s' = done s ++ [(chmod, e)]
        | Err e => r = Err e /\ s' = s
        end
      else r = Err (ErrOther (SourceDir c ++ T ": not a directory")) /\ s' = s
  | Err e =>
      if IsNotExist e then
        (exists e', done s' = done s ++ [(mkdirAll, Some e')] /\ r = Err e') \/
        (exists e', done s' = done s ++ [(mkdirAll, None); (mkdir, e')])
      else r = Err e /\ s' = s
  end.
Proof.
  unfold ensureSourceDirectory, bindS, askS, tryS, retS, failS. intros Hrun. cbn zeta.
  destruct (fsStat (fs c) (SourceDir c) (machine s)) as [info|e].
  - destruct (IsDir info).
    + destruct (chezmoiIsPrivate (fs c) (SourceDir c) true (machine s)) as [[|]|e].
      * injection Hrun as <- <-. auto.
      * cbn [negb] in Hrun. rewrite doS_run in Hrun. injection Hrun as _ <-. cbn. eauto.
      * injection Hrun as <- <-. auto.
    + injection Hrun as <- <-. auto.
  - destruct (IsNotExist e).
    + rewrite doS_run in Hrun.
      destruct (fst (vfsMkdirAll _ _ _ _)) as [e'|] eqn:Hall.
      * injection Hrun as <- <-. cbn. left. eauto.
      * rewrite doS_run in Hrun. injection Hrun as _ <-. cbn.
        rewrite <- app_assoc. right. eauto.
    + injection Hrun as <- <-. auto.
Qed.

End EnsureFacts.






Section EditorFacts.
Context `{Machine}.




Lemma commandIn_run (c : Config) (dir name : text) (argv : list text) (s : Sys) :
  let cmd := exec.Command filepathBase (fun file => execLookPath file (machine s))
                          name argv in
  commandIn c dir name argv s =
    if isEmpty dir then (Ok cmd, s)
    else match fsRawPath (fs c) dir (machine s) with
         | Ok rawPath => (Ok (exec.withDir cmd rawPath), s)
         | Err e => (Err e, s)
         end.
Proof.
  unfold commandIn, bindS, askS, tryS, retS. destruct (isEmpty dir); cbn [negb];
    [reflexivity|].
  destruct (fsRawPath (fs c) dir (machine s)); reflexivity.
Qed.

(** The command that run and output build, when they get to build one. *)
Lemma commandIn_shape (c : Config) (dir name : text) (argv : list text) (s s' : Sys)
    (r : result exec.Cmd) :
  commandIn c dir name argv s = (r, s') ->
  s' = s /\
  match r with
  | Ok cmd =>
      exec.Path cmd
        = exec.commandPath filepathBase (fun file => execLookPath file (machine s)) name /\
      exec.lookPathErr cmd
        = exec.commandPathErr filepathBase (fun file => execLookPath file (machine s)) name /\
      exec.Args cmd = name :: argv /\
      exec.Stdin cmd = None /\ exec.Stdout cmd = None /\ exec.Stderr cmd = None /\
      (if isEmpty dir then exec.Dir cmd = []
       else fsRawPath (fs c) dir (machine s) = Ok (exec.Dir cmd))
  | Err e => isEmpty dir = false /\ fsRawPath (fs c) dir (machine s) = Err e
  end.
Proof.
  rewrite commandIn_run. cbv zeta. destruct (isEmpty dir) eqn:Hdir.
  - intros [= <- <-]. cbn. auto 10.
  - destruct (fsRawPath (fs c) dir (machine s)) as [rawPath|e]; intros [= <- <-]; cbn; auto 10.
Qed.

(** X12. run either fails on the raw path of a non-empty [dir] and then runs
    nothing, or hands the mutator exactly one command: [name] with [argv]
    as arguments, standard input from the configuration, standard output
    and standard error both to the configuration's Stdout, in the raw path
    of [dir] (no directory for an empty [dir]); its result is the one of
    RunCmd.  The path of the command is [name] when it has a path
    separator, and otherwise what LookPath finds for it on the host, or
    [name] with the error of LookPath kept in the command. *)
Theorem run_command (c : Config) (more : ConfigMore) (dir name : text)
    (argv : list text) (s s' : Sys) (r : result unit) :
  run c more dir name argv s = (r, s') ->
  (exists e, dir <> [] /\ fsRawPath (fs c) dir (machine s) = Err e /\ r = Err e /\ s' = s) \/
  (exists cmd e,
     done s' = done s ++ [(DoRunCmd (mutator c) cmd, e)] /\
     exec.Args cmd = name :: argv /\
     exec.Stdin cmd = Some (Stdin more) /\
     exec.Stdout cmd = Some (Stdout c) /\ exec.Stderr cmd = Some (Stdout c) /\
     (if isEmpty dir then exec.Dir cmd = []
      else fsRawPath (fs c) dir (machine s) = Ok (exec.Dir cmd)) /\
     (if bool_decide (filepathBase name = name) then
        match execLookPath name (machine s) with
        | Ok lp => exec.Path cmd = lp /\ exec.lookPathErr cmd = None
        | Err err => exec.Path cmd = name /\ exec.lookPathErr cmd = Some err
        end
      else exec.Path cmd = name /\ exec.lookPathErr cmd = None) /\
     (e, machine s') = mutatorRunCmd (mutator c) cmd (machine s) /\
     r = match e with Some e => Err e | None => Ok tt end).
Proof.
  unfold run, bindS. intros Hrun.
  destruct (commandIn c dir name argv s) as [[cmd|e] s1] eqn:Hcmd;
    apply commandIn_shape in Hcmd as [-> Hshape].
  - rewrite doS_run in Hrun. injection Hrun as <- <-. right.
    destruct Hshape as (Hpath & Herr & Hargs & _ & _ & _ & Hdir).
    eexists _, _. cbn [done machine]. split; [reflexivity|].
    cbn [exec.withStdio exec.Args exec.Stdin exec.Stdout exec.Stderr exec.Dir exec.Path
         exec.lookPathErr].
    split; [exact Hargs|]. split; [reflexivity|]. split; [reflexivity|].
    split; [reflexivity|]. split; [exact Hdir|]. split.
    + rewrite Hpath, Herr. unfold exec.commandPath, exec.commandPathErr.
      destruct (bool_decide (filepathBase name = name)); [|auto].
      destruct (execLookPath name (machine s)); auto.
    + split; [|reflexivity]. destruct (mutatorRunCmd _ _ _); reflexivity.
  - injection Hrun as <- <-. left. destruct Hshape as [Hdir Hraw].
    exists e. repeat split; auto. intros ->. discriminate.
Qed.


End EditorFacts.

Section VCSFacts.
Context `{Machine}.

Lemma run_steps (c : Config) (more : ConfigMore) (dir name : text)
    (argv : list text) (s s' : Sys) (r : result unit) :
  run c more dir name argv s = (r, s') ->
  (exists e, dir <> [] /\ fsRawPath (fs c) dir (machine s) = Err e /\ r = Err e /\ s' = s) \/
  (exists cmd e,
     done s' = done s ++ [(DoRunCmd (mutator c) cmd, e)] /\
     exec.Args cmd = name :: argv /\
     (if isEmpty dir then exec.Dir cmd = []
      else fsRawPath (fs c) dir (machine s) = Ok (exec.Dir cmd)) /\
     mutatorRunCmd (mutator c) cmd (machine s) = (e, machine s') /\
     r = match e with Some e => Err e | None => Ok tt end).
Proof.
  unfold run, bindS. intros Hrun.
  destruct (commandIn c dir name argv s) as [[cmd|e] s1] eqn:Hcmd;
    apply commandIn_shape in Hcmd as [-> Hshape].
  - rewrite doS_run in Hrun. injection Hrun as <- <-. right.
    destruct Hshape as (_ & _ & Hargs & _ & _ & _ & Hdir).
    eexists _, _. cbn [done machine]. split; [reflexivity|].
    split; [exact Hargs|]. split; [exact Hdir|]. split; [|reflexivity].
    apply surjective_pairing.
  - injection Hrun as <- <-. left. destruct Hshape as [Hdir Hraw].
    exists e. repeat split; auto. intros ->. discriminate.
Qed.

Lemma output_steps (c : Config) (dir name : text)
    (argv : list text) (s s' : Sys) (r : result text) :
  output c dir name argv s = (r, s') ->
  (exists e, dir <> [] /\ fsRawPath (fs c) dir (machine s) = Err e /\ r = Err e /\ s' = s) \/
  (exists cmd,
     done s' = done s ++
       [(DoCmdOutput (mutator c) cmd, match r with Ok _ => None | Err e => Some e end)] /\
     exec.Args cmd = name :: argv /\
     exec.Stdin cmd = None /\ exec.Stdout cmd = None /\ exec.Stderr cmd = None /\
     (if isEmpty dir then exec.Dir cmd = []
      else fsRawPath (fs c) dir (machine s) = Ok (exec.Dir cmd)) /\
     mutatorIdempotentCmdOutput (mutator c) cmd (machine s) = (r, machine s')).
Proof.
  unfold output, bindS. intros Hrun.
  destruct (commandIn c dir name argv s) as [[cmd|e] s1] eqn:Hcmd;
    apply commandIn_shape in Hcmd as [-> Hshape].
  - unfold doOutS in Hrun.
    destruct (mutatorIdempotentCmdOutput (mutator c) cmd (machine s)) as [r0 w'] eqn:Hout.
    injection Hrun as <- <-. right. exists cmd. cbn [done machine].
    destruct Hshape as (_ & _ & ? & ? & ? & ? & ?). repeat split; auto.
  - injection Hrun as <- <-. left. destruct Hshape as [Hdir Hraw].
    exists e. repeat split; auto. intros ->. discriminate.
Qed.

Lemma run_follows (Q : World -> action -> Prop) (c : Config) (more : ConfigMore)
    (dir name : text) (argv : list text) :
  (forall cmd w,
     exec.Args cmd = name :: argv ->
     (if isEmpty dir then exec.Dir cmd = [] else fsRawPath (fs c) dir w = Ok (exec.Dir cmd)) ->
     Q w (DoRunCmd (mutator c) cmd)) ->
  follows 1 Q (run c more dir name argv).
Proof.
  intros HQ s r s' Hrun.
  apply run_steps in Hrun
    as [(e & _ & _ & -> & ->)|(cmd & e & Hd & Hargs & Hdir & Hdone & ->)].
  - exists []. rewrite app_nil_r. cbn. repeat split; auto.
  - eexists [_]. split; [exact Hd|]. cbn [length trace removelast].
    split; [auto|]. split; [|split].
    + split; [apply HQ; assumption|]. exists (machine s'). split; [exact Hdone|reflexivity].
    + constructor.
    + intros [a Ha]. destruct e; [discriminate|]. repeat constructor.
Qed.

Lemma output_follows (Q : World -> action -> Prop) (c : Config)
    (dir name : text) (argv : list text) :
  (forall cmd w,
     exec.Args cmd = name :: argv ->
     (if isEmpty dir then exec.Dir cmd = [] else fsRawPath (fs c) dir w = Ok (exec.Dir cmd)) ->
     Q w (DoCmdOutput (mutator c) cmd)) ->
  follows 1 Q (output c dir name argv).
Proof.
  intros HQ s r s' Hrun.
  apply output_steps in Hrun
    as [(e & _ & _ & -> & ->)|(cmd & Hd & Hargs & _ & _ & _ & Hdir & Hdone)].
  - exists []. rewrite app_nil_r. cbn. repeat split; auto.
  - eexists [_]. split; [exact Hd|]. cbn [length trace removelast].
    split; [auto|]. split; [|split].
    + split; [apply HQ; assumption|]. exists (machine s').
      split; [|reflexivity]. exists r. split; [exact Hdone|reflexivity].
    + constructor.
    + intros [a ->]. repeat constructor.
Qed.

Lemma autoCommit_follows (c : Config) (more : ConfigMore) (vcs : VCS) :
  follows 3 (vcsCommand c more) (autoCommit c more vcs).
Proof.
  unfold autoCommit. destruct (AddArgs vcs (T ".")) as [addArgs|]; [|apply follows_fail].
  apply (follows_bind 1 2).
  { apply run_follows. intros cmd w Hargs Hdir. cbn. eauto. }
  intros _. apply (follows_bind 1 1).
  { apply output_follows. intros cmd w Hargs Hdir. cbn. eauto. }
  intros out. apply (follows_bind 0 1); [apply follows_lift|]. intros status.
  apply (follows_bind 0 1); [apply follows_lift|]. intros commitMessageText.
  apply (follows_bind 0 1); [apply follows_lift|]. intros tmpl.
  apply (follows_bind 0 1); [apply follows_lift|]. intros sb.
  apply run_follows. intros cmd w Hargs Hdir. cbn. eauto.
Qed.

Lemma autoPush_follows (c : Config) (more : ConfigMore) (vcs : VCS) :
  follows 1 (vcsCommand c more) (autoPush c more vcs).
Proof.
  unfold autoPush. destruct (PushArgs vcs) as [pushArgs|]; [|apply follows_fail].
  apply run_follows. intros cmd w Hargs Hdir. cbn. eauto.
Qed.

(** X14. The requests of autoCommitAndAutoPush are commands run one after
    the other by the configuration's mutator, each with SourceVCS.Command
    as its name and in the raw path that the source directory has on the
    host when the command is made; there are at most four, each but the
    last returned nil, and all did when the function returns nil. *)
Theorem autoCommitAndAutoPush_commands (c : Config) (more : ConfigMore) (s s' : Sys)
    (r : result unit) :
  autoCommitAndAutoPush c more s = (r, s') ->
  exists new,
    done s' = done s ++ new /\ (length new <= 4)%nat /\
    trace (vcsCommand c more) (machine s) new (machine s') /\
    Forall succeeded (removelast new) /\
    (r = Ok tt -> Forall succeeded new).
Proof.
  intros Hrun.
  assert (Hf : follows 4 (vcsCommand c more) (autoCommitAndAutoPush c more)).
  { unfold autoCommitAndAutoPush.
    apply (follows_bind 0 4); [apply follows_lift|]. intros vcs.
    destruct (DryRun c); [apply follows_ret|].
    apply (follows_bind 3 1).
    - destruct (AutoCommit (SourceVCS more) || AutoPush (SourceVCS more));
        [apply autoCommit_follows | apply follows_ret].
    - intros _. destruct (AutoPush (SourceVCS more));
        [apply autoPush_follows | apply follows_ret]. }
  destruct (Hf s r s' Hrun) as (new & Hd & Hlen & HQ & Hlast & Hok).
  exists new. repeat split; auto. intros ->. apply Hok. eauto.
Qed.

(** X15. In a dry run, and when neither AutoCommit nor AutoPush is set,
    autoCommitAndAutoPush runs nothing; it still fails when the base name of
    SourceVCS.Command is not a supported VCS. *)
Theorem autoCommitAndAutoPush_idle (c : Config) (more : ConfigMore) (s : Sys) :
  DryRun c = true \/
  (AutoCommit (SourceVCS more) = false /\ AutoPush (SourceVCS more) = false) ->
  autoCommitAndAutoPush c more s =
    (match vcses !! filepathBase (Command (SourceVCS more)) with
     | Some _ => Ok tt
     | None => Err (ErrOther (Command (SourceVCS more)
                              ++ T ": unsupported source VCS command"))
     end, s).
Proof.
  intros Hidle. unfold autoCommitAndAutoPush, bindS, liftS, getVCS, retS.
  destruct (vcses !! filepathBase (Command (SourceVCS more))) as [vcs|]; [|reflexivity].
  destruct (DryRun c); [reflexivity|].
  destruct Hidle as [Hdry|[-> ->]]; [discriminate|reflexivity].
Qed.

End VCSFacts.

Section VCSOrder.
Context `{Machine}.

Lemma autoCommit_plan (c : Config) (more : ConfigMore) (vcs : VCS) (s s' : Sys)
    (r : result unit) :
  autoCommit c more vcs s = (r, s') ->
  exists new n message,
    done s' = done s ++ new /\
    map (fun p => requested (fst p)) new = take n (vcsPlan more vcs message) /\
    (n <= 3)%nat /\
    (r = Ok tt -> n = 3%nat /\ is_Some (AddArgs vcs (T "."))).
Proof.
  unfold autoCommit. destruct (AddArgs vcs (T ".")) as [addArgs|] eqn:Hadd.
  2:{ intros [= <- <-]. exists [], 0%nat, []. rewrite app_nil_r. cbn.
      repeat split; auto with arith; discriminate. }
  assert (Hplan : forall message, vcsPlan more vcs message =
            [Command (SourceVCS more) :: addArgs;
             Command (SourceVCS more) :: StatusArgs vcs;
             Command (SourceVCS more) :: CommitArgs vcs message;
             Command (SourceVCS more) :: default [] (PushArgs vcs)])
    by (intros message; unfold vcsPlan; rewrite Hadd; reflexivity).
  unfold bindS at 1.
  destruct (run c more (SourceDir c) (Command (SourceVCS more)) addArgs s)
    as [[[]|e1] s1] eqn:Hrun1;
    apply run_steps in Hrun1
      as [(e & _ & _ & Hr & ->)|(cmd1 & e & Hd1 & Hargs1 & _ & _ & Hr)]; try discriminate.
  2:{ intros [= <- <-]. exists [], 0%nat, []. rewrite app_nil_r. cbn.
      repeat split; auto with arith; discriminate. }
  2:{ intros [= <- <-]. eexists [_], 1%nat, []. split; [exact Hd1|]. rewrite Hplan. cbn.
      unfold requested. cbn. rewrite Hargs1.
      repeat split; auto with arith; discriminate. }
  unfold bindS at 1.
  destruct (output c (SourceDir c) (Command (SourceVCS more)) (StatusArgs vcs) s1)
    as [[out|e2] s2] eqn:Hrun2;
    apply output_steps in Hrun2
      as [(e' & _ & _ & Hr2 & ->)|(cmd2 & Hd2 & Hargs2 & _)]; try discriminate.
  2:{ intros [= <- <-]. eexists [_], 1%nat, []. split; [exact Hd1|]. rewrite Hplan. cbn.
      unfold requested. cbn. rewrite Hargs1.
      repeat split; auto with arith; discriminate. }
  2:{ intros [= <- <-]. eexists [_; _], 2%nat, []. rewrite Hd2, Hd1, <- app_assoc.
      split; [reflexivity|]. rewrite Hplan. cbn. unfold requested. cbn. rewrite Hargs1, Hargs2.
      repeat split; auto with arith; discriminate. }
  assert (Hstop : forall e0, (Err e0 : result unit, s2) = (r, s') ->
            exists new n message,
              done s' = done s ++ new /\
              map (fun p => requested (fst p)) new = take n (vcsPlan more vcs message) /\
              (n <= 3)%nat /\ (r = Ok tt -> n = 3%nat /\ is_Some (Some addArgs))).
  { intros e0 [= <- <-]. eexists [_; _], 2%nat, []. rewrite Hd2, Hd1, <- app_assoc.
    split; [reflexivity|]. rewrite Hplan. cbn. unfold requested. cbn. rewrite Hargs1, Hargs2.
    repeat split; auto with arith; discriminate. }
  unfold bindS at 1, liftS at 1.
  destruct (ParseStatusOutput vcs out) as [status|e3]; [|apply Hstop].
  unfold bindS at 1, liftS at 1.
  destruct (getAsset commitMessageTemplateAsset) as [commitMessageText|e4]; [|apply Hstop].
  unfold bindS at 1, liftS at 1.
  destruct (templateParse (T "commit_message") (templateFuncs c) commitMessageText)
    as [e5|]; [apply Hstop|].
  unfold bindS at 1, liftS at 1.
  destruct (templateExecute _ status) as [sb|e6]; [|apply Hstop].
  intros Hrun3.
  apply run_steps in Hrun3
    as [(e7 & _ & _ & -> & ->)|(cmd3 & e8 & Hd3 & Hargs3 & _ & _ & Hr3)].
  - eexists [_; _], 2%nat, []. rewrite Hd2, Hd1, <- app_assoc.
    split; [reflexivity|]. rewrite Hplan. cbn. unfold requested. cbn. rewrite Hargs1, Hargs2.
    repeat split; auto with arith; discriminate.
  - eexists [_; _; _], 3%nat, sb. rewrite Hd3, Hd2, Hd1, <- !app_assoc.
    split; [reflexivity|]. rewrite Hplan. cbn. unfold requested. cbn.
    rewrite Hargs1, Hargs2, Hargs3.
    repeat split; eauto with arith.
Qed.

(** X16. The commands of autoCommitAndAutoPush are an initial part of: add,
    status, commit, push, each with the arguments the VCS gives.  Without
    AutoPush there is no push.  A run outside dry run that returns nil has
    made the first three when AutoCommit is set, and all four when AutoPush
    is set, also when AutoCommit is not; the VCS then supports add and
    push. *)
Theorem autoCommitAndAutoPush_order (c : Config) (more : ConfigMore) (vcs : VCS)
    (s s' : Sys) (r : result unit) :
  vcses !! filepathBase (Command (SourceVCS more)) = Some vcs ->
  autoCommitAndAutoPush c more s = (r, s') ->
  exists new n message,
    done s' = done s ++ new /\
    map (fun p => requested (fst p)) new = take n (vcsPlan more vcs message) /\
    (AutoPush (SourceVCS more) = false -> (n <= 3)%nat) /\
    (r = Ok tt -> DryRun c = false -> AutoCommit (SourceVCS more) = true -> (3 <= n)%nat) /\
    (r = Ok tt -> DryRun c = false -> AutoPush (SourceVCS more) = true ->
     n = 4%nat /\ is_Some (AddArgs vcs (T ".")) /\ is_Some (PushArgs vcs)).
Proof.
  intros Hvcs. unfold autoCommitAndAutoPush, bindS at 1, liftS, getVCS. rewrite Hvcs.
  destruct (DryRun c).
  { intros [= <- <-]. exists [], 0%nat, []. rewrite app_nil_r. cbn.
    repeat split; auto with arith; discriminate. }
  destruct (AutoPush (SourceVCS more)) eqn:Hpush; rewrite ?orb_true_r, ?orb_false_r.
  - unfold bindS.
    destruct (autoCommit c more vcs s) as [[[]|e1] s1] eqn:Hcommit;
      apply autoCommit_plan in Hcommit as (new1 & n1 & message & Hd1 & Hplan1 & Hn1 & Hok1).
    + destruct (Hok1 eq_refl) as [-> Hadd]. unfold autoPush.
      destruct (PushArgs vcs) as [pushArgs|] eqn:Hpargs.
      * intros Hrun.
        apply run_steps in Hrun
          as [(e & _ & _ & -> & ->)|(cmd & e & Hd & Hargs & _ & _ & Hr)].
        -- exists new1, 3%nat, message. split; [exact Hd1|]. split; [exact Hplan1|].
           repeat split; auto; discriminate.
        -- exists (new1 ++ [(DoRunCmd (mutator c) cmd, e)]), 4%nat, message.
           rewrite Hd, Hd1, <- app_assoc. split; [reflexivity|].
           split.
           { rewrite map_app, Hplan1. unfold vcsPlan, requested. cbn [map fst commandOf].
             rewrite Hargs, Hpargs. reflexivity. }
           split; [discriminate|]. split; [auto with arith|].
           intros _ _ _. split; [reflexivity|]. split; [exact Hadd|eauto].
      * intros [= <- <-]. exists new1, 3%nat, message. split; [exact Hd1|].
        split; [exact Hplan1|]. repeat split; auto; discriminate.
    + intros [= <- <-]. exists new1, n1, message. split; [exact Hd1|].
      split; [exact Hplan1|]. repeat split; auto; discriminate.
  - destruct (AutoCommit (SourceVCS more)) eqn:Hauto; unfold bindS.
    + destruct (autoCommit c more vcs s) as [[[]|e1] s1] eqn:Hcommit;
        apply autoCommit_plan in Hcommit as (new1 & n1 & message & Hd1 & Hplan1 & Hn1 & Hok1);
        intros [= <- <-]; exists new1, n1, message; (split; [exact Hd1|]);
        (split; [exact Hplan1|]); repeat split; auto; try discriminate.
      intros _ _ _. destruct (Hok1 eq_refl) as [-> _]. auto.
    + intros [= <- <-]. exists [], 0%nat, []. rewrite app_nil_r. cbn.
      repeat split; auto with arith; discriminate.
Qed.

End VCSOrder.

Section PromptFacts.
Context `{Machine}.

Lemma prompt_unfold (s choices : list Byte.byte) (reads : list (result (list Byte.byte))) (sys : Sys) :
  prompt s choices reads sys =
    match doS (DoPrintf (promptText s choices)) (fmtPrintf (promptText s choices)) sys with
    | (Err err, sys') => Some (Err err, sys')
    | (Ok _, sys') =>
        match reads with
        | [] => None
        | Err err :: _ => Some (Err err, sys')
        | Ok line :: reads' =>
            match stringsTrimSpace line with
            | [b] =>
                if existsb (Byte.eqb b) choices then Some (Ok b, sys')
                else prompt s choices reads' sys'
            | _ => prompt s choices reads' sys'
            end
        end
    end.
Proof. destruct reads; reflexivity. Qed.

Lemma existsb_eqb_In (b : Byte.byte) (choices : list Byte.byte) :
  existsb (Byte.eqb b) choices = true <-> In b choices.
Proof.
  rewrite existsb_exists. split.
  - intros (x & Hx & Heq). apply Byte.byte_dec_bl in Heq. subst. exact Hx.
  - intros Hin. exists b. split; [exact Hin | apply Byte.byte_dec_lb; reflexivity].
Qed.

(** The line is taken or rejected as the test of prompt says. *)
Lemma answers_test (choices line : list Byte.byte) :
  match stringsTrimSpace line with
  | [b] => if existsb (Byte.eqb b) choices
           then answers choices line b else rejected choices line
  | _ => rejected choices line
  end.
Proof.
  unfold rejected, answers.
  destruct (stringsTrimSpace line) as [|b [|b' rest]] eqn:Htrim.
  - intros b [Hb _]. discriminate.
  - destruct (existsb (Byte.eqb b) choices) eqn:Htest.
    + apply existsb_eqb_In in Htest. auto.
    + intros b0 ([= <-] & Hin). apply existsb_eqb_In in Hin.
      rewrite Hin in Htest. discriminate.
  - intros b0 [Hb _]. discriminate.
Qed.

(** X17. When prompt returns, it has printed the question once per line
    read (and once more if the last print failed), every print before the
    last succeeded and every line before the last was rejected.  A returned
    byte is a byte of [choices] and is the whole of the trimmed line last
    read; a returned error is the one of the last print or of the last
    read. *)
Theorem prompt_answer (s choices : list Byte.byte) (reads : list (result (list Byte.byte))) (sys sys' : Sys)
    (r : result Byte.byte) :
  prompt s choices reads sys = Some (r, sys') ->
  exists new k,
    done sys' = done sys ++ new /\ length new = S k /\
    Forall (fun p => fst p = DoPrintf (promptText s choices)) new /\
    Forall succeeded (removelast new) /\
    (forall j l, (j < k)%nat -> reads !! j = Some l ->
                 exists line, l = Ok line /\ rejected choices line) /\
    match r with
    | Ok b => Forall succeeded new /\
              exists line, reads !! k = Some (Ok line) /\ answers choices line b
    | Err e => List.last new (DoPrintf [], None) = (DoPrintf (promptText s choices), Some e) \/
               (Forall succeeded new /\ reads !! k = Some (Err e))
    end.
Proof.
  revert sys. induction reads as [|read reads' IH]; intros sys; rewrite prompt_unfold, doS_run.
  - destruct (fst (fmtPrintf _ _)) as [e|] eqn:Hprint; [|discriminate].
    intros [= <- <-]. eexists [_], 0%nat. cbn [done]. split; [reflexivity|].
    split; [reflexivity|]. split; [repeat constructor|]. split; [constructor|].
    split; [intros j l Hj; lia|]. left. reflexivity.
  - destruct (fst (fmtPrintf _ _)) as [e|] eqn:Hprint.
    { intros [= <- <-]. eexists [_], 0%nat. cbn [done]. split; [reflexivity|].
      split; [reflexivity|]. split; [repeat constructor|]. split; [constructor|].
      split; [intros j l Hj; lia|]. left. reflexivity. }
    destruct read as [line|e].
    2:{ intros [= <- <-]. eexists [_], 0%nat. cbn [done]. split; [reflexivity|].
        split; [reflexivity|]. split; [repeat constructor|]. split; [constructor|].
        split; [intros j l Hj; lia|]. right. split; [repeat constructor|reflexivity]. }
    pose proof (answers_test choices line) as Htest.
    assert (Hagain : rejected choices line ->
              prompt s choices reads'
                {| machine := snd (fmtPrintf (promptText s choices) (machine sys));
                   done := done sys ++ [(DoPrintf (promptText s choices), None)] |}
                = Some (r, sys') ->
              exists new k,
                done sys' = done sys ++ new /\ length new = S k /\
                Forall (fun p => fst p = DoPrintf (promptText s choices)) new /\
                Forall succeeded (removelast new) /\
                (forall j l, (j < k)%nat -> (Ok line :: reads') !! j = Some l ->
                             exists line, l = Ok line /\ rejected choices line) /\
                match r with
                | Ok b => Forall succeeded new /\
                          exists line0, (Ok line :: reads') !! k = Some (Ok line0) /\
                                        answers choices line0 b
                | Err e =>
                    List.last new (DoPrintf [], None)
                      = (DoPrintf (promptText s choices), Some e) \/
                    (Forall succeeded new /\ (Ok line :: reads') !! k = Some (Err e))
                end).
    { intros Hrej Hrun. apply IH in Hrun as (new & k & Hd & Hlen & Hall & Hlast & Hbefore & Hr).
      cbn [done] in Hd. rewrite <- app_assoc in Hd.
      exists ((DoPrintf (promptText s choices), None) :: new), (S k).
      split; [exact Hd|]. split; [cbn; lia|].
      split; [constructor; [reflexivity|exact Hall]|].
      split.
      { destruct new as [|p new']; [discriminate|]. cbn [removelast].
        constructor; [reflexivity|exact Hlast]. }
      split.
      { intros [|j] l Hj Hl.
        - injection Hl as <-. eauto.
        - apply (Hbefore j l); [lia|exact Hl]. }
      destruct r as [b|e].
      - destruct Hr as [Hsucc Hline]. split; [constructor; [reflexivity|exact Hsucc]|].
        exact Hline.
      - destruct Hr as [Hr|[Hsucc Hr]].
        + left. destruct new as [|p new']; [discriminate|]. exact Hr.
        + right. split; [constructor; [reflexivity|exact Hsucc]|exact Hr]. }
    destruct (stringsTrimSpace line) as [|b [|b' rest]] eqn:Htrim; [auto| |auto].
    destruct (existsb (Byte.eqb b) choices) eqn:Hacc; [|auto].
    intros [= <- <-]. eexists [_], 0%nat. cbn [done]. split; [reflexivity|].
    split; [reflexivity|]. split; [repeat constructor|]. split; [constructor|].
    split; [intros j l Hj; lia|]. split; [repeat constructor|].
    exists line. split; [reflexivity|exact Htest].
Qed.

(** X18. prompt returns once the input holds a read error (such as the end
    of the input) or a line that answers the question. *)
Theorem prompt_returns (s choices : list Byte.byte) (reads : list (result (list Byte.byte))) (sys : Sys)
    (k : nat) (read : result (list Byte.byte)) :
  reads !! k = Some read ->
  match read with
  | Ok line => exists b, answers choices line b
  | Err _ => True
  end ->
  exists r sys', prompt s choices reads sys = Some (r, sys').
Proof.
  revert sys k. induction reads as [|read0 reads' IH]; intros sys k Hk Hread.
  - discriminate.
  - rewrite prompt_unfold, doS_run.
    destruct (fst (fmtPrintf _ _)) as [e|]; [eauto|].
    destruct read0 as [line|e]; [|eauto].
    pose proof (answers_test choices line) as Htest.
    assert (Hagain : rejected choices line ->
              exists r sys',
                prompt s choices reads'
                  {| machine := snd (fmtPrintf (promptText s choices) (machine sys));
                     done := done sys ++ [(DoPrintf (promptText s choices), None)] |}
                  = Some (r, sys')).
    { intros Hrej. destruct k as [|k].
      - injection Hk as <-. destruct Hread as [b Hb]. destruct (Hrej b Hb).
      - apply (IH _ k); assumption. }
    destruct (stringsTrimSpace line) as [|b [|b' rest]]; [auto| |auto].
    destruct (existsb (Byte.eqb b) choices); [eauto|auto].
Qed.

End PromptFacts.

Section SystemCallFacts.
Context `{tar.Writer}.

Lemma performAll_cons (s : TARSystem) (call : systemCall) (calls : list systemCall) :
  performAll s (call :: calls)
  = (fst (perform s call) :: fst (performAll (snd (perform s call)) calls),
     snd (performAll (snd (perform s call)) calls)).
Proof.
  cbn [performAll]. destruct (perform s call) as [err s1]. cbn [fst snd].
  destruct (performAll s1 calls) as [errs s2]. reflexivity.
Qed.

Lemma perform_refused (s : TARSystem) (call : systemCall) :
  refused call = true -> perform s call = (Some ErrPermission, s).
Proof. destruct call; cbn [refused perform]; try discriminate; reflexivity. Qed.

Lemma perform_template (s : TARSystem) (call : systemCall) :
  headerTemplate (snd (perform s call)) = headerTemplate s.
Proof.
  destruct call; cbn [perform]; try reflexivity;
    unfold Mkdir, RunScript, WriteFile, WriteSymlink.
  - destruct (tar.WriteHeader _ _). reflexivity.
  - destruct (tar.WriteHeader _ _) as [[e|] w']; [reflexivity|].
    destruct (tar.Write w' data) as [[n e] w'']. reflexivity.
  - destruct (tar.WriteHeader _ _) as [[e|] w']; [reflexivity|].
    destruct (tar.Write w' data) as [[n e] w'']. reflexivity.
  - destruct (tar.WriteHeader _ _). reflexivity.
Qed.

(** X19. In a sequence of calls on a TAR system, over any tar.Writer, the
    calls it refuses (Chmod, RemoveAll, Rename) return the permission error
    wherever they stand and could as well be left out: without them the
    other calls return the same errors and the system ends up the same.
    There is one error or nil per call, and the header template is never
    changed. *)
Theorem performAll_refused_calls (s : TARSystem) (calls : list systemCall) :
  let writes := List.filter (fun call => negb (refused call)) calls in
  headerTemplate (snd (performAll s calls)) = headerTemplate s /\
  length (fst (performAll s calls)) = length calls /\
  (forall i call,
      calls !! i = Some call -> refused call = true ->
      fst (performAll s calls) !! i = Some (Some ErrPermission)) /\
  snd (performAll s calls) = snd (performAll s writes) /\
  map snd (List.filter (fun p => negb (refused (fst p)))
                       (combine calls (fst (performAll s calls))))
  = fst (performAll s writes).
Proof.
  revert s. induction calls as [|call calls IH]; intros s.
  - cbn. repeat split; auto. intros i call Hi. discriminate.
  - cbv zeta. rewrite performAll_cons. cbn [fst snd length combine List.filter].
    destruct (IH (snd (perform s call))) as (Htemplate & Hlen & Herr & Hsys & Herrs).
    split; [rewrite Htemplate; apply perform_template|].
    split; [rewrite Hlen; reflexivity|]. split.
    { intros [|i] call0 Hi Href.
      - injection Hi as ->. rewrite (perform_refused _ _ Href). reflexivity.
      - exact (Herr i call0 Hi Href). }
    destruct (refused call) eqn:Href; cbn [negb].
    + rewrite (perform_refused _ _ Href) in *. cbn [snd] in *. auto.
    + rewrite performAll_cons. cbn [fst snd map]. rewrite Hsys, Herrs. auto.
Qed.

End SystemCallFacts.

Section DefaultDirFacts.
Context `{Runtime}.

Lemma find_map_first {A B} (g : A -> B) (f : B -> bool) (l : list A) :
  match List.find f (map g l) with
  | Some y => exists before x after,
                l = before ++ x :: after /\ y = g x /\ f (g x) = true /\
                Forall (fun a => f (g a) = false) before
  | None => Forall (fun a => f (g a) = false) l
  end.
Proof.
  induction l as [|a l IH]; cbn [map List.find]; [constructor|].
  destruct (f (g a)) eqn:Ha.
  - exists [], a, l. repeat split; [exact Ha|constructor].
  - destruct (List.find f (map g l)) as [y|].
    + destruct IH as (before & x & after & -> & -> & Hx & Hbefore).
      exists (a :: before), x, after. repeat split; [exact Hx|].
      constructor; assumption.
    + constructor; assumption.
Qed.

(** X20. getDefaultSourceDir returns [dataDir/chezmoi] for the first data
    directory, in the order of DataDirs, for which it exists, and
    [DataHome/chezmoi] when it exists for none. *)
Theorem getDefaultSourceDir_first_existing (bds : BaseDirectorySpecification) (w : World) :
  (exists before dataDir after,
     DataDirs bds = before ++ dataDir :: after /\
     getDefaultSourceDir bds w = filepathJoin [dataDir; T "chezmoi"] /\
     exists_ (filepathJoin [dataDir; T "chezmoi"]) w = true /\
     Forall (fun dir => exists_ (filepathJoin [dir; T "chezmoi"]) w = false) before) \/
  (getDefaultSourceDir bds w = filepathJoin [DataHome bds; T "chezmoi"] /\
   Forall (fun dir => exists_ (filepathJoin [dir; T "chezmoi"]) w = false) (DataDirs bds)).
Proof.
  unfold getDefaultSourceDir.
  pose proof (find_map_first (fun dataDir => filepathJoin [dataDir; T "chezmoi"])
                (fun path => exists_ path w) (DataDirs bds)) as Hfind.
  cbv beta in Hfind.
  destruct (List.find _ _) as [sourceDir|].
  - left. destruct Hfind as (before & dataDir & after & Hsplit & -> & Hx & Hbefore).
    exists before, dataDir, after. repeat split; assumption.
  - right. split; [reflexivity|exact Hfind].
Qed.

End DefaultDirFacts.

(** ** The properties on the example machine *)

Lemma ensureSourceDirectory_modes_witness :
  exists new,
    done (snd (ensureSourceDirectory exampleConfig exampleSys)) = done exampleSys ++ new /\
    (length new <= 2)%nat /\
    Forall (permissionRequest exampleConfig) (map fst new) /\
    Forall succeeded (removelast new) /\
    (fst (ensureSourceDirectory exampleConfig exampleSys) = Ok tt -> Forall succeeded new).
Proof.
  apply (ensureSourceDirectory_modes exampleConfig exampleSys).
  vm_compute. reflexivity.
Defined.

Lemma ensureSourceDirectory_requests_witness :
  exists e',
    done (snd (ensureSourceDirectory exampleConfig exampleSys))
    = [(DoMkdirAll (MutatorHandle 1) (T "/home/user/.local/share") 493, None);
       (DoMkdir (MutatorHandle 1) (T "/home/user/.local/share/chezmoi") 448, e')].
Proof.
  assert (Hrun : ensureSourceDirectory exampleConfig exampleSys
                 = (fst (ensureSourceDirectory exampleConfig exampleSys),
                    snd (ensureSourceDirectory exampleConfig exampleSys)))
    by (vm_compute; reflexivity).
  apply ensureSourceDirectory_requests in Hrun.
  vm_compute in Hrun. destruct Hrun as [(e' & Hd & _)|(e' & Hd)]; [discriminate|].
  exists e'. vm_compute. exact Hd.
Defined.

Lemma run_command_witness :
  exists cmd e,
    done (snd (run exampleConfig exampleMore (SourceDir exampleConfig) (T "git")
                   [T "status"] exampleSys))
    = [(DoRunCmd (MutatorHandle 1) cmd, e)] /\
    exec.Stderr cmd = Some (WriterHandle 1) /\
    exec.Path cmd = T "/usr/bin/git".
Proof.
  destruct (run_command exampleConfig exampleMore (SourceDir exampleConfig) (T "git")
              [T "status"] exampleSys
              (snd (run exampleConfig exampleMore (SourceDir exampleConfig) (T "git")
                        [T "status"] exampleSys))
              (fst (run exampleConfig exampleMore (SourceDir exampleConfig) (T "git")
                        [T "status"] exampleSys)))
    as [(e & _ & Hraw & _)|(cmd & e & Hd & _ & _ & _ & Herr & _ & Hpath & _)].
  - vm_compute. reflexivity.
  - vm_compute in Hraw. discriminate.
  - exists cmd, e. split; [exact Hd|]. split; [exact Herr|].
    vm_compute in Hpath. destruct Hpath as [Hpath _]. vm_compute. exact Hpath.
Defined.

Lemma autoCommitAndAutoPush_commands_witness :
  exists new,
    done (snd (autoCommitAndAutoPush exampleConfig exampleMore exampleSys))
      = done exampleSys ++ new /\
    (length new <= 4)%nat /\
    trace (vcsCommand exampleConfig exampleMore) (machine exampleSys) new
          (machine (snd (autoCommitAndAutoPush exampleConfig exampleMore exampleSys))) /\
    Forall succeeded (removelast new) /\
    (fst (autoCommitAndAutoPush exampleConfig exampleMore exampleSys) = Ok tt ->
     Forall succeeded new).
Proof.
  apply (autoCommitAndAutoPush_commands exampleConfig exampleMore exampleSys).
  vm_compute. reflexivity.
Defined.

Lemma autoCommitAndAutoPush_idle_witness :
  autoCommitAndAutoPush dryRunConfig exampleMore exampleSys = (Ok tt, exampleSys).
Proof.
  rewrite autoCommitAndAutoPush_idle by (left; reflexivity).
  vm_compute. reflexivity.
Defined.

Lemma autoCommitAndAutoPush_order_witness :
  exists new n message,
    done (snd (autoCommitAndAutoPush exampleConfig exampleMore exampleSys))
      = done exampleSys ++ new /\
    map (fun p => requested (fst p)) new = take n (vcsPlan exampleMore gitVCS message) /\
    (AutoPush (SourceVCS exampleMore) = false -> (n <= 3)%nat) /\
    (fst (autoCommitAndAutoPush exampleConfig exampleMore exampleSys) = Ok tt ->
     DryRun exampleConfig = false -> AutoCommit (SourceVCS exampleMore) = true ->
     (3 <= n)%nat) /\
    (fst (autoCommitAndAutoPush exampleConfig exampleMore exampleSys) = Ok tt ->
     DryRun exampleConfig = false -> AutoPush (SourceVCS exampleMore) = true ->
     n = 4%nat /\ is_Some (AddArgs gitVCS (T ".")) /\ is_Some (PushArgs gitVCS)).
Proof.
  apply (autoCommitAndAutoPush_order exampleConfig exampleMore gitVCS exampleSys).
  - vm_compute. reflexivity.
  - vm_compute. reflexivity.
Defined.

Lemma prompt_answer_witness :
  exists k line,
    [Ok (B " maybe" ++ [Byte.x0a]); Ok (B "y" ++ [Byte.x0a])] !! k = Some (Ok line) /\
    answers (B "yn") line Byte.x79.
Proof.
  pose (reads := [Ok (B " maybe" ++ [Byte.x0a]); Ok (B "y" ++ [Byte.x0a])]
                 : list (result (list Byte.byte))).
  assert (Hrun : prompt (B "Overwrite") (B "yn") reads exampleSys
                 = Some (Ok Byte.x79,
                         snd (default (Ok Byte.x00, exampleSys)
                                (prompt (B "Overwrite") (B "yn") reads exampleSys))))
    by (vm_compute; reflexivity).
  apply prompt_answer in Hrun as (new & k & _ & _ & _ & _ & _ & _ & line & Hline & Hans).
  exists k, line. split; [exact Hline|exact Hans].
Defined.

Lemma prompt_returns_witness :
  exists r sys',
    prompt (B "Overwrite") (B "yn")
           [Ok (B " maybe" ++ [Byte.x0a]); Ok (B "y" ++ [Byte.x0a])] exampleSys
    = Some (r, sys').
Proof.
  apply (prompt_returns (B "Overwrite") (B "yn")
           [Ok (B " maybe" ++ [Byte.x0a]); Ok (B "y" ++ [Byte.x0a])] exampleSys 1
           (Ok (B "y" ++ [Byte.x0a]))).
  - reflexivity.
  - exists Byte.x79. split; [vm_compute; reflexivity|]. vm_compute. left. reflexivity.
Defined.
